(** * deeplay: the configuration engine ([deeplay/config/config.py])

    A shallow embedding of the rule model, the specificity resolution,
    reference and hook resolution, [populate] and [merge] of
    [deeplay.config.Config], with the properties of its specification.

    Python objects become records, exceptions become the [Raise] branch of
    [Result], in-place mutation of [self] becomes an explicit result state,
    and the recursion of [Config.get] through references is bounded by the
    interpreter's recursion limit (the [fuel] of [get]). *)

From Stdlib Require Import List String ZArith Bool Arith Lia Sorted Permutation.
Import ListNotations.
Local Open Scope string_scope.
Local Open Scope list_scope.

Set Implicit Arguments.

(* ================================================================== *)
(** ** Selectors *)

(** Modelled from the spec: the selector classes ([ClassSelector],
    [WildcardSelector], [DoubleWildcardSelector], [IndexSelector],
    [NoneSelector]) live in the package's [__init__], which is not part of
    the sources at hand.  A selector path is an ordered sequence of
    segments; [NoneSelector] is the empty path; [+] is concatenation;
    [pop()] splits a path into all-but-last and last. *)
Inductive Atom : Type :=
| ClassSelector (name : string)
| WildcardSelector
| DoubleWildcardSelector.

(** Modelled from the spec: what an [IndexSelector] is indexed with, an
    integer or a slice. *)
Inductive Index : Type :=
| IndexInt (i : nat)
| IndexSlice (start stop : option nat).

(** Modelled from the spec: a segment is a plain selector or an
    [IndexSelector] over one, with its index and optional length. *)
Inductive Segment : Type :=
| Plain (a : Atom)
| IndexSelector (selector : Atom) (index : Index) (length : option nat).

Definition Selector : Type := list Segment.

Definition NoneSelector : Selector := [].

(** [isinstance(s, NoneSelector)] *)
Definition is_NoneSelector (s : Selector) : bool :=
  match s with [] => true | _ => false end.

(** Modelled from the spec: [body, head = s.pop()] splits off the last
    segment; the empty path pops to two empty paths. *)
Fixpoint pop (s : Selector) : Selector * Selector :=
  match s with
  | [] => ([], [])
  | [x] => ([], [x])
  | x :: rest => let '(body, head) := pop rest in (x :: body, head)
  end.

(** [isinstance(head, IndexSelector)] for a popped head. *)
Definition is_IndexSelector (head : Selector) : bool :=
  match head with
  | [IndexSelector _ _ _] => true
  | _ => false
  end.

Definition Atom_key (a : Atom) : string :=
  match a with
  | ClassSelector name => name
  | WildcardSelector => "_"
  | DoubleWildcardSelector => "__"
  end.

(** Modelled from the spec: [head.key()], the name a head is filed
    under; an indexed head is filed under the name it indexes. *)
Definition Selector_key (head : Selector) : string :=
  match snd (pop head) with
  | [Plain a] => Atom_key a
  | [IndexSelector a _ _] => Atom_key a
  | _ => ""
  end.

(** Modelled from the spec: the part of the selector contract that the
    engine only consumes, left open here:
    matching a path, taken as a pattern, against the alternative
    flattened forms of a context ([re.match(full_selector.regex(), s)]
    for some [s] in [iter(context)]), and the positions an index selector
    stands for. *)
Class SelectorContract : Type := {
  regex_match : Selector -> Selector -> bool;
  get_list_of_indices : Index -> option nat -> list nat
}.

(** [head.get_list_of_indices()] for a head that is an [IndexSelector]. *)
Definition head_indices `{SelectorContract} (head : Selector) : list nat :=
  match head with
  | [IndexSelector _ index length] => get_list_of_indices index length
  | _ => []
  end.

(* ================================================================== *)
(** ** Exceptions *)

Inductive Message : Type :=
| NoContextNoSelector
    (* "Cannot set a value with no context and no selector." *)
| NoContext
    (* an operation that needs a context run without one *)
| HookNotRun
    (* "Hook has not been run yet. ..." *)
| NoKeysMatch (full_context : Selector)
    (* "No keys match for {full_context} in {self}" *)
| MultipleKeysMatch (selectors : Selector) (keys : list string)
    (* "Multiple keys match {selectors} ({keys})" *)
| MissingIndices (missing : list nat) (key : string)
    (* "Missing indices {missing_indices} for key {key}" *)
| UserMessage (text : string).

Inductive Exception : Type :=
| ValueError (m : Message)
| TypeError
| AssertionError (m : Message)
| IndexError
| KeyError
| RecursionError.

Inductive Result (A : Type) : Type :=
| Ok (a : A)
| Raise (e : Exception).
Arguments Ok {A} a.
Arguments Raise {A} e.

Definition bind {A B : Type} (m : Result A) (f : A -> Result B) : Result B :=
  match m with
  | Ok a => f a
  | Raise e => Raise e
  end.

Notation "x <- m ;; k" := (bind m (fun x => k))
  (at level 61, m at next level, right associativity).

Fixpoint mapM {A B : Type} (f : A -> Result B) (l : list A) : Result (list B) :=
  match l with
  | [] => Ok []
  | a :: l' => b <- f a ;; bs <- mapM f l' ;; Ok (b :: bs)
  end.

(* ================================================================== *)
(** ** Values *)

(** The Python values a rule can hold or a lookup can return.  [VObj]
    stands for any other object (a class, a module, a function), known
    only by its identity. *)
#[local] Unset Elimination Schemes.
Inductive Value : Type :=
| VNone
| VBool (b : bool)
| VInt (z : Z)
| VStr (s : string)
| VList (l : list Value)
| VTuple (l : list Value)
| VDict (items : list (string * Value))
| VObj (id : nat).
#[local] Set Elimination Schemes.

(** [isinstance(v, (list, tuple))] *)
Definition is_sequence (v : Value) : bool :=
  match v with
  | VList _ | VTuple _ => true
  | _ => false
  end.

(** [v[i]] for a non-negative integer [i].  Objects known only by
    identity are taken not to be subscriptable. *)
Definition getitem (v : Value) (i : nat) : Result Value :=
  match v with
  | VList l | VTuple l =>
      match nth_error l i with
      | Some x => Ok x
      | None => Raise IndexError
      end
  | VStr s =>
      match String.get i s with
      | Some c => Ok (VStr (String c EmptyString))
      | None => Raise IndexError
      end
  | VDict _ => Raise KeyError
  | VNone | VBool _ | VInt _ | VObj _ => Raise TypeError
  end.

(** [Ref]: the path to look up and the function applied to what is found
    ([Ref.__call__]). *)
Record Ref : Type := mkRef {
  selectors : Selector;
  func : Value -> Result Value
}.

(** [ForwardHook]: a mutable object. *)
Record ForwardHook : Type := mkForwardHook {
  hook : Value -> Result Value;
  first_only : bool;
  _value : Value;
  _has_run : bool
}.

(** Hook objects are shared by every rule list that holds them: a rule
    refers to its hook by location in a store. *)
Definition HookStore : Type := nat -> ForwardHook.

(** The three shapes [ConfigRule.get_value] tells apart. *)
Inductive RuleValue : Type :=
| Literal (v : Value)
| RefValue (r : Ref)
| HookValue (loc : nat).

(* ================================================================== *)
(** ** ForwardHook *)

(** [ForwardHook.__init__(hook, first_only=True)] for a callable [hook]. *)
Definition ForwardHook_init (hook : Value -> Result Value) (first_only : bool)
  : ForwardHook :=
  {| hook := hook; first_only := first_only;
     _value := VNone; _has_run := false |}.

(** [ForwardHook.__call__(module)]: the object after the call and what
    the call returns.  An exception of the hook function leaves the
    object as it was. *)
Definition ForwardHook_call (self : ForwardHook) (module : Value)
  : ForwardHook * Result Value :=
  if first_only self && _has_run self then (self, Ok (_value self))
  else
    match hook self module with
    | Ok v =>
        ({| hook := hook self; first_only := first_only self;
            _value := v; _has_run := true |}, Ok VNone)
    | Raise e => (self, Raise e)
    end.

(** [ForwardHook.value()] *)
Definition ForwardHook_value (self : ForwardHook) : Result Value :=
  if negb (_has_run self) then Raise (ValueError HookNotRun)
  else Ok (_value self).

(** [ForwardHook.has_run()] *)
Definition ForwardHook_has_run (self : ForwardHook) : bool := _has_run self.

(** The external trigger run several times on one hook object. *)
Fixpoint trigger_all (self : ForwardHook) (modules : list Value) : ForwardHook :=
  match modules with
  | [] => self
  | m :: rest => trigger_all (fst (ForwardHook_call self m)) rest
  end.

(* ================================================================== *)
(** ** Rules *)

(** A rule object with the attributes the engine reads.  [specificity]
    and [default] are what attribute lookup yields on the object: the
    instance attribute when [__init__] set one, else the class
    attribute. *)
Record ConfigRule : Type := mkConfigRule {
  selector : Selector;
  head : Selector;
  key : string;
  value : RuleValue;
  scope_root : Selector;
  specificity : Z;
  default : bool
}.

(** [ConfigRule(selector, key, value)]; class attributes
    [specificity = 1], [default = False]. *)
Definition ConfigRule_init (selector key : Selector) (value : RuleValue)
  : ConfigRule :=
  {| selector := selector; head := key; key := Selector_key key;
     value := value; scope_root := NoneSelector;
     specificity := 1; default := false |}.

(** [ConfigRuleDefault(selector, key, value)]; class attributes
    [specificity = 0], [default = True]. *)
Definition ConfigRuleDefault_init (selector key : Selector) (value : RuleValue)
  : ConfigRule :=
  {| selector := selector; head := key; key := Selector_key key;
     value := value; scope_root := NoneSelector;
     specificity := 0; default := true |}.

(** [ConfigRuleWrapper(selector, value, default=False)], the arguments
    named [prefix], [wrapped] and [as_default] here.  The class
    derives from [ConfigRule] and does not call its [__init__]: unless
    [default] is requested no instance attribute [specificity] is set,
    and the lookup [wrapper.specificity] ends at the class attribute
    [ConfigRule.specificity = 1].  [__getattr__] is consulted only for
    names that ordinary lookup does not find, so it never serves
    [specificity] or [default]. *)
Definition ConfigRuleWrapper_init (prefix : Selector) (wrapped : ConfigRule)
    (as_default : bool) : ConfigRule :=
  {| selector := prefix ++ selector wrapped;
     scope_root := prefix ++ scope_root wrapped;
     key := key wrapped;
     head := head wrapped;
     value := value wrapped;
     specificity := if as_default then 0 else 1;
     default := if as_default then true else false |}.

(** [ConfigRule.is_more_specific_than(other)] *)
Definition is_more_specific_than (self : ConfigRule) (other : option ConfigRule)
  : bool :=
  match other with
  | None => true
  | Some other =>
      if negb (specificity self =? specificity other)%Z
      then (specificity self >? specificity other)%Z
      else true
  end.

(** [Config._take_most_specific_in_list(rules)]; [rules[0]] raises on an
    empty list. *)
Definition _take_most_specific_in_list (rules : list ConfigRule)
  : Result ConfigRule :=
  match rules with
  | [] => Raise IndexError
  | first :: _ =>
      Ok (fold_left
            (fun most_specific rule =>
               if is_more_specific_than rule (Some most_specific)
               then rule else most_specific)
            rules first)
  end.

(* ================================================================== *)
(** ** Dictionaries *)

(** A Python [dict] keeps its keys in insertion order; assigning to a
    key that is present keeps its place. *)
Section Dict.
Context {K V : Type} (eqb : K -> K -> bool).

Fixpoint dict_get (d : list (K * V)) (k : K) : option V :=
  match d with
  | [] => None
  | (k', v) :: d' => if eqb k k' then Some v else dict_get d' k
  end.

Fixpoint dict_set (d : list (K * V)) (k : K) (v : V) : list (K * V) :=
  match d with
  | [] => [(k, v)]
  | (k', v') :: d' =>
      if eqb k k' then (k', v) :: d' else (k', v') :: dict_set d' k v
  end.

Definition dict_keys (d : list (K * V)) : list K := map fst d.

Definition dict_contains (d : list (K * V)) (k : K) : bool :=
  match dict_get d k with Some _ => true | None => false end.
End Dict.

(** [d[k].append(x)] when [k] is present, [d[k] = [x]] when it is not. *)
Definition dict_append {K V : Type} (eqb : K -> K -> bool)
    (d : list (K * list V)) (k : K) (x : V) : list (K * list V) :=
  match dict_get eqb d k with
  | Some xs => dict_set eqb d k (xs ++ [x])
  | None => dict_set eqb d k [x]
  end.

(** What [d[k]] holds once the items of [l] have been appended to it
    one by one. *)
Definition appended {A : Type} (o : option (list A)) (l : list A)
  : option (list A) :=
  match o, l with
  | None, [] => None
  | None, _ => Some l
  | Some l0, _ => Some (l0 ++ l)
  end.

(** [indices.sort()] *)
Fixpoint insert_sorted (n : nat) (l : list nat) : list nat :=
  match l with
  | [] => [n]
  | m :: l' => if (n <=? m)%nat then n :: l else m :: insert_sorted n l'
  end.

Definition sort (l : list nat) : list nat := fold_right insert_sorted [] l.

(** [max(...)] of a generator of integers; raises on an empty one. *)
Definition py_max (l : list Z) : Result Z :=
  match l with
  | [] => Raise (ValueError (UserMessage "max() arg is an empty sequence"))
  | z :: l' => Ok (fold_left Z.max l' z)
  end.

(** [l[i]] and [l[i] = x] on a Python list, [i] non-negative. *)
Definition list_get {A : Type} (l : list A) (i : nat) : Result A :=
  match nth_error l i with
  | Some x => Ok x
  | None => Raise IndexError
  end.

Fixpoint list_set {A : Type} (l : list A) (i : nat) (x : A) : Result (list A) :=
  match l, i with
  | [], _ => Raise IndexError
  | _ :: l', O => Ok (x :: l')
  | y :: l', S i' => l'' <- list_set l' i' x ;; Ok (y :: l'')
  end.

(* ================================================================== *)
(** ** Config *)

(** A [Config] object: its rule list, its table of named
    sub-configurations and its context. *)
#[local] Unset Elimination Schemes.
Inductive Config : Type := mkConfig {
  _rules : list ConfigRule;
  _refs : list (string * Config);
  _context : Selector
}.
#[local] Set Elimination Schemes.

(** [Config(rules, refs, context)]: the rule list is copied
    ([rules.copy()]), so no two [Config] objects share a list. *)
Definition Config_init (rules : list ConfigRule) (refs : list (string * Config))
    (context : Selector) : Config :=
  {| _rules := rules; _refs := refs; _context := context |}.

(** [Config()] *)
Definition Config_new : Config := Config_init [] [] NoneSelector.

(** [default_obj], the marker of an absent [default] argument, is [None]
    of the option type. *)
Definition default_obj : option Value := None.

(** What [populate] is fed: a callable, something with [__len__], or a
    bare iterator ([next i] is its item at position [i], [None] once it
    is exhausted). *)
Inductive Generator : Type :=
| GenCallable (f : nat -> RuleValue)
| GenSized (items : list RuleValue)
| GenIterator (next : nat -> option RuleValue).

(** [callable(generator)] and [hasattr(generator, "__len__")] *)
Definition callable (g : Generator) : bool :=
  match g with GenCallable _ => true | _ => false end.

Definition has_len (g : Generator) : bool :=
  match g with GenSized _ => true | _ => false end.

(** The first [n] items of an iterator, fewer when it ends early. *)
Fixpoint take_iterator (next : nat -> option RuleValue) (pos n : nat)
  : list RuleValue :=
  match n with
  | O => []
  | S n' =>
      match next pos with
      | Some v => v :: take_iterator next (S pos) n'
      | None => []
      end
  end.

(** [zip(indices, generator)], after
    [if callable(generator): generator = [generator(i) for i in indices]]. *)
Definition zip_generator (indices : list nat) (g : Generator)
  : list (nat * RuleValue) :=
  match g with
  | GenCallable f => combine indices (map f indices)
  | GenSized items => combine indices items
  | GenIterator next =>
      combine indices (take_iterator next 0 (List.length indices))
  end.

Inductive Warning : Type :=
| UnknownGeneratorLength
    (* "Populating a config with a generator of unknown length without
       specifying the length will only populate up to index 256. ..." *)
| RefOverwrite (name : string).

(** What [__call__] is given positionally. *)
Inductive CallArgs : Type :=
| NoArgs
| OneArg (x : RuleValue)
| TwoArgs (x : RuleValue) (subconfig : Config).

Section Engine.
Context `{SelectorContract}.

(** [ConfigRule.matches(context, match_key, allow_indexed)] *)
Definition matches (self : ConfigRule) (context : Selector)
    (match_key allow_indexed : bool) : bool :=
  let head :=
    if allow_indexed then [Plain (ClassSelector (key self))] else head self in
  let full_selector :=
    if match_key then selector self ++ head else selector self in
  let full_selector_is_none := is_NoneSelector full_selector in
  let context_is_none := is_NoneSelector context in
  if full_selector_is_none && context_is_none then true
  else if full_selector_is_none || context_is_none then false
  else regex_match full_selector context.

(** [Config._get_all_matching_rules(selectors, match_key, allow_indexed)] *)
Definition _get_all_matching_rules (self : Config) (selectors : Selector)
    (match_key allow_indexed : bool) : list ConfigRule :=
  let contextualized_selectors := _context self ++ selectors in
  filter (fun rule => matches rule contextualized_selectors match_key allow_indexed)
         (_rules self).

(** [Config._merge_rules_on_key(rules)] *)
Definition _merge_rules_on_key (rules : list ConfigRule)
  : list (string * list ConfigRule) :=
  fold_left (fun merged rule => dict_append String.eqb merged (key rule) rule)
            rules [].

(** The signature of [Config.get], for the calls that come back to it
    from [get_value]. *)
Definition Getter : Type :=
  Config -> Selector -> option Value -> bool -> Result Value.

Section Resolution.
Variable get : Getter.
Variable hooks : HookStore.

(** [ConfigRule.get_value(config)] *)
Definition get_value (self : ConfigRule) (config : Config) : Result Value :=
  match value self with
  | RefValue ref =>
      let new_config :=
        Config_init (_rules config) (_refs config) (scope_root self) in
      referenced_value <- get new_config (selectors ref) default_obj false ;;
      func ref referenced_value
  | HookValue loc => ForwardHook_value (hooks loc)
  | Literal v => Ok v
  end.

(** [Config._take_most_specific_per_key(key_rule_dict)]: the loop
    over the items, [most_specific] being the dictionary built so
    far. *)
Fixpoint _take_most_specific_per_key_loop (self : Config)
    (items : list (string * list ConfigRule))
    (most_specific : list (string * Value))
  : Result (list (string * Value)) :=
  match items with
  | [] => Ok most_specific
  | (key, rules) :: rest =>
      match (rule <- _take_most_specific_in_list rules ;;
             get_value rule self) with
      | Ok v =>
          _take_most_specific_per_key_loop self rest
            (dict_set String.eqb most_specific key v)
      | Raise (ValueError _) | Raise TypeError =>
          _take_most_specific_per_key_loop self rest most_specific
      | Raise e => Raise e
      end
  end.

Definition _take_most_specific_per_key (self : Config)
    (key_rule_dict : list (string * list ConfigRule))
  : Result (list (string * Value)) :=
  _take_most_specific_per_key_loop self key_rule_dict [].

(** *** [Config._take_most_specific_per_key_and_index] *)

(** The first loop over the rules of one key: [rule_if_no_indexed],
    [any_indexed] and [indexed_values]. *)
Fixpoint split_indexed (rules : list ConfigRule)
    (rule_if_no_indexed : list ConfigRule) (any_indexed : bool)
    (indexed_values : list (nat * list ConfigRule))
  : list ConfigRule * bool * list (nat * list ConfigRule) :=
  match rules with
  | [] => (rule_if_no_indexed, any_indexed, indexed_values)
  | rule :: rest =>
      if is_IndexSelector (head rule) then
        split_indexed rest rule_if_no_indexed true
          (fold_left (fun iv index => dict_append Nat.eqb iv index rule)
                     (head_indices (head rule)) indexed_values)
      else
        split_indexed rest (rule_if_no_indexed ++ [rule]) any_indexed
          indexed_values
  end.

(** [least_specific_rule = ConfigRule(NoneSelector(), "", [])] with
    [specificity = -9999]. *)
Definition least_specific_rule : ConfigRule :=
  {| selector := NoneSelector; head := NoneSelector; key := "";
     value := Literal (VList []); scope_root := NoneSelector;
     specificity := -9999; default := false |}.

(** The loop [for idx, value in enumerate(value_if_no_indexed)]. *)
Fixpoint fill_missing (idxs : list nat)
    (most_specific_rule_if_no_index : ConfigRule)
    (indexed_values : list (nat * list ConfigRule))
  : Result (list (nat * list ConfigRule)) :=
  match idxs with
  | [] => Ok indexed_values
  | idx :: rest =>
      match dict_get Nat.eqb indexed_values idx with
      | None =>
          fill_missing rest most_specific_rule_if_no_index
            (dict_set Nat.eqb indexed_values idx
                      [most_specific_rule_if_no_index])
      | Some rs =>
          m <- py_max (map specificity rs) ;;
          if (specificity most_specific_rule_if_no_index >? m)%Z then
            fill_missing rest most_specific_rule_if_no_index
              (dict_set Nat.eqb indexed_values idx
                        [most_specific_rule_if_no_index])
          else
            fill_missing rest most_specific_rule_if_no_index indexed_values
      end
  end.

(** [missing_indices = [i for i in range(indices[-1]) if i not in indices]],
    [indices] sorted and not empty. *)
Definition missing_indices (indices : list nat) : list nat :=
  filter (fun i => negb (existsb (Nat.eqb i) indices))
         (seq 0 (last indices 0)).

(** The [assert] on [missing_indices]. *)
Definition assert_no_gaps (indices : list nat) (key : string) : Result unit :=
  match missing_indices indices with
  | [] => Ok tt
  | missing => Raise (AssertionError (MissingIndices missing key))
  end.

(** The last loop: a value that came from a rule without an indexed
    head is replaced by its own element at that position. *)
Fixpoint index_broadcast (idxs : list nat)
    (most_specific_for_key : list (nat * ConfigRule))
    (most_specific_values : list Value) : Result (list Value) :=
  match idxs with
  | [] => Ok most_specific_values
  | i :: rest =>
      match dict_get Nat.eqb most_specific_for_key i with
      | None => Raise KeyError
      | Some rule =>
          if negb (is_IndexSelector (head rule)) then
            v <- list_get most_specific_values i ;;
            x <- getitem v i ;;
            values <- list_set most_specific_values i x ;;
            index_broadcast rest most_specific_for_key values
          else
            index_broadcast rest most_specific_for_key most_specific_values
      end
  end.

(** [if not isinstance(v, (list, tuple)): v = [v]], as the items to
    enumerate. *)
Definition as_sequence (v : Value) : list Value :=
  match v with
  | VList l | VTuple l => l
  | v => [v]
  end.

(** The body of the loop over the keys: what [most_specific[key]]
    is set to. *)
Definition resolve_key_and_index (self : Config) (key : string)
    (rules : list ConfigRule) : Result Value :=
  let '(rule_if_no_indexed, any_indexed, indexed_values) :=
    split_indexed rules [] false [] in
  let rule_if_no_indexed :=
    if (List.length rule_if_no_indexed =? 0)%nat
    then [least_specific_rule] else rule_if_no_indexed in
  most_specific_rule_if_no_index <-
    _take_most_specific_in_list rule_if_no_indexed ;;
  value_if_no_indexed <- get_value most_specific_rule_if_no_index self ;;
  if negb any_indexed then Ok value_if_no_indexed
  else
    let value_if_no_indexed := as_sequence value_if_no_indexed in
    indexed_values <-
      fill_missing (seq 0 (List.length value_if_no_indexed))
                   most_specific_rule_if_no_index indexed_values ;;
    most_specific_for_key <-
      mapM (fun '(index, rules) =>
              rule <- _take_most_specific_in_list rules ;;
              Ok (index, rule))
           indexed_values ;;
    let indices := sort (dict_keys indexed_values) in
    _ <- (match indices with [] => Raise IndexError | _ => Ok tt end) ;;
    _ <- assert_no_gaps indices key ;;
    most_specific_values <-
      mapM (fun i =>
              match dict_get Nat.eqb most_specific_for_key i with
              | None => Raise KeyError
              | Some rule => get_value rule self
              end)
           indices ;;
    most_specific_values <-
      index_broadcast indices most_specific_for_key most_specific_values ;;
    Ok (VList most_specific_values).

Fixpoint _take_most_specific_per_key_and_index_loop (self : Config)
    (items : list (string * list ConfigRule))
    (most_specific : list (string * Value))
  : Result (list (string * Value)) :=
  match items with
  | [] => Ok most_specific
  | (key, rules) :: rest =>
      v <- resolve_key_and_index self key rules ;;
      _take_most_specific_per_key_and_index_loop self rest
        (dict_set String.eqb most_specific key v)
  end.

Definition _take_most_specific_per_key_and_index (self : Config)
    (key_rule_dict : list (string * list ConfigRule))
  : Result (list (string * Value)) :=
  _take_most_specific_per_key_and_index_loop self key_rule_dict [].

(** The first half of [Config.get]: the matching rules, grouped by
    key and reduced to the dictionary [most_specific]. *)
Definition get_most_specific (self : Config) (selectors : Selector)
  : Result (list (string * Value)) :=
  let full_context := _context self ++ selectors in
  let last_selector_is_index := is_IndexSelector (snd (pop full_context)) in
  let rules :=
    _get_all_matching_rules self selectors true
                            (negb last_selector_is_index) in
  let rules_per_key := _merge_rules_on_key rules in
  if negb last_selector_is_index
  then _take_most_specific_per_key_and_index self rules_per_key
  else _take_most_specific_per_key self rules_per_key.

(** The body of [Config.get(selectors, default, return_dict_if_multiple)]. *)
Definition get_body (self : Config) (selectors : Selector)
    (default : option Value) (return_dict_if_multiple : bool)
  : Result Value :=
  let full_context := _context self ++ selectors in
  most_specific <- get_most_specific self selectors ;;
  match most_specific with
  | [] =>
      match default with
      | Some d => Ok d
      | None => Raise (ValueError (NoKeysMatch full_context))
      end
  | [(_, v)] => Ok v
  | _ =>
      if return_dict_if_multiple then Ok (VDict most_specific)
      else Raise (ValueError
                    (MultipleKeysMatch selectors (dict_keys most_specific)))
  end.
End Resolution.

(** [Config.get]: [fuel] is the depth of nested calls the interpreter
    allows before it raises [RecursionError]. *)
Fixpoint get (fuel : nat) (hooks : HookStore) : Getter :=
  match fuel with
  | O => fun _ _ _ _ => Raise RecursionError
  | S fuel' => get_body (get fuel' hooks) hooks
  end.

(** *** The operations that build a configuration

    A method that mutates [self] returns the object as it is after
    the call, next to what the method itself returns. *)

(** [Config.set(selectors, value, default=False)]; returns [self]. *)
Definition set (self : Config) (selectors : Selector) (value : RuleValue)
    (default : bool) : Result Config :=
  target <-
    (if is_NoneSelector selectors then
       if is_NoneSelector (_context self)
       then Raise (ValueError NoContextNoSelector)
       else Ok (pop (_context self))
     else
       let '(selectors, key) := pop selectors in
       Ok (_context self ++ selectors, key)) ;;
  let '(selectors, key) := target in
  let rule :=
    if default then ConfigRuleDefault_init selectors key value
    else ConfigRule_init selectors key value in
  Ok {| _rules := _rules self ++ [rule];
        _refs := _refs self; _context := _context self |}.

(** [Config.default(selectors, value)] *)
Definition set_default (self : Config) (selectors : Selector)
    (value : RuleValue) : Result Config :=
  set self selectors value true.

(** [Config.populate(selectors, generator, length=None)]: [self] after
    the call, the configuration returned, and the warnings issued.
    Modelled from the spec: with no context at all, where
    [self._context[i]] has nothing to index, the call fails. *)
Definition populate (self : Config) (selectors : Selector)
    (generator : Generator) (length : option nat)
  : Result (Config * Config * list Warning) :=
  let '(selectors, key) := pop selectors in
  let '(body, head) := pop (_context self) in
  match head with
  | [IndexSelector head_selector head_index _] =>
      let integers_to_populate := get_list_of_indices head_index length in
      let new_rules :=
        map (fun '(i, value) =>
               ConfigRule_init
                 ((body ++ [IndexSelector head_selector (IndexInt i) None])
                    ++ selectors)
                 key value)
            (zip_generator integers_to_populate generator) in
      let rules := _rules self ++ new_rules in
      Ok ({| _rules := rules; _refs := _refs self;
             _context := _context self |},
          Config_init rules (_refs self) NoneSelector,
          [])
  | [Plain a] =>
      let warnings :=
        match length with
        | None => if negb (has_len generator)
                  then [UnknownGeneratorLength] else []
        | Some _ => []
        end in
      let length :=
        match length with
        | Some (S n) => S n
        | _ => 256
        end in
      let new_rules :=
        map (fun '(i, value) =>
               ConfigRule_init
                 ((body ++ [IndexSelector a (IndexInt i) None]) ++ selectors)
                 key value)
            (zip_generator (seq 0 length) generator) in
      let rules := _rules self ++ new_rules in
      Ok ({| _rules := rules; _refs := _refs self;
             _context := _context self |},
          Config_init rules (_refs self) NoneSelector,
          warnings)
  | _ => Raise (ValueError NoContext)
  end.

(** [Config.merge(selectors, config, as_default=False, prepend=False)]:
    [self] after the call and the configuration returned.  The
    one-argument call [merge(config)] is [merge NoneSelector config]. *)
Definition merge (self : Config) (selectors : Selector) (config : Config)
    (as_default prepend : bool) : Config * Config :=
  let additional_rules :=
    map (fun rule =>
           ConfigRuleWrapper_init (_context self ++ selectors) rule as_default)
        (_rules config) in
  let rules :=
    if prepend then additional_rules ++ _rules self
    else _rules self ++ additional_rules in
  ({| _rules := rules; _refs := _refs self; _context := _context self |},
   Config_init rules (_refs self) NoneSelector).

(** [Config.with_selector(selectors)] *)
Definition with_selector (self : Config) (selectors : Selector) : Config :=
  Config_init (_rules self) (_refs self) (_context self ++ selectors).

(** [Config.__getattr__(name)], the method itself: Python calls it for
    the names that ordinary attribute lookup does not find. *)
Definition getattr (self : Config) (name : string) : Config :=
  let selector :=
    if String.eqb name "_" then Plain WildcardSelector
    else if String.eqb name "__" then Plain DoubleWildcardSelector
    else Plain (ClassSelector name) in
  Config_init (_rules self) (_refs self) (_context self ++ [selector]).

(** [Config.__call__] with its positional and keyword arguments, the
    keyword names given as parsed selectors; [self] is left as it is,
    the result is a new object. *)
Definition call (self : Config) (x : CallArgs)
    (kwargs : list (Selector * RuleValue)) : Result Config :=
  let new_config := Config_init (_rules self) (_refs self) (_context self) in
  new_config <-
    match x with
    | NoArgs => Ok new_config
    | OneArg x => set new_config NoneSelector x false
    | TwoArgs x subconfig =>
        new_config <- set new_config NoneSelector x false ;;
        Ok (fst (merge new_config NoneSelector subconfig false false))
    end ;;
  new_config <-
    fold_left (fun acc '(key, value) =>
                 new_config <- acc ;; set new_config key value false)
              kwargs (Ok new_config) ;;
  Ok {| _rules := _rules new_config; _refs := _refs new_config;
        _context := NoneSelector |}.
End Engine.

(* ================================================================== *)
(** ** A reference selector contract *)

Module Reference.

(** Modelled from the spec: the positions of an index selector.  An
    integer index stands for itself; a slice stands for the positions
    from its start up to its own bound or the population length. *)
Definition indices_of (index : Index) (length : option nat)
  : list nat :=
  match index with
  | IndexInt i => [i]
  | IndexSlice start stop =>
      let lo := match start with Some s => s | None => 0 end in
      let hi :=
        match stop, length with
        | Some s, Some l => Nat.min s l
        | Some s, None => s
        | None, Some l => l
        | None, None => 0
        end in
      seq lo (hi - lo)
  end.

Definition Atom_eqb (a b : Atom) : bool :=
  match a, b with
  | ClassSelector n, ClassSelector m => String.eqb n m
  | WildcardSelector, WildcardSelector => true
  | DoubleWildcardSelector, DoubleWildcardSelector => true
  | _, _ => false
  end.

(** Modelled from the spec: one pattern segment against one context
    segment.  A name matches the segment of that name, indexed or not
    (a context is tried in each of its flattened forms); a wildcard
    matches any one segment; an indexed pattern matches the indexed
    segment of that name at one of its positions. *)
Definition atom_match (pattern : Atom) (context : Atom) : bool :=
  match pattern with
  | WildcardSelector => true
  | _ => Atom_eqb pattern context
  end.

Definition segment_match (pattern context : Segment) : bool :=
  match pattern, context with
  | Plain p, Plain c => atom_match p c
  | Plain p, IndexSelector c _ _ => atom_match p c
  | IndexSelector _ _ _, Plain _ => false
  | IndexSelector p pi pl, IndexSelector c ci cl =>
      atom_match p c
      && forallb (fun i => existsb (Nat.eqb i) (indices_of pi pl))
                 (indices_of ci cl)
  end.

(** Modelled from the spec: a pattern against a whole context; a
    double wildcard matches zero or more segments. *)
Fixpoint path_match (pattern context : Selector) : bool :=
  match pattern with
  | [] => is_NoneSelector context
  | Plain DoubleWildcardSelector :: pattern' =>
      (fix skip (context : Selector) : bool :=
         path_match pattern' context
         || match context with
            | [] => false
            | _ :: context' => skip context'
            end) context
  | p :: pattern' =>
      match context with
      | [] => false
      | c :: context' => segment_match p c && path_match pattern' context'
      end
  end.

#[export] Instance contract : SelectorContract :=
  Build_SelectorContract path_match indices_of.
End Reference.

(* ================================================================== *)
(** ** The indexed resolution, in the words of the specification *)

Section Specification.
Context `{SelectorContract}.
Variable get : Getter.
Variable hooks : HookStore.

(** The rules of a key that apply to every position. *)
Definition non_indexed (rules : list ConfigRule) : list ConfigRule :=
  filter (fun r => negb (is_IndexSelector (head r))) rules.

(** The index-specific rules of a key that contribute to position [i]. *)
Definition rules_at_position (rules : list ConfigRule) (i : nat)
  : list ConfigRule :=
  filter (fun r => is_IndexSelector (head r)
                   && existsb (Nat.eqb i) (head_indices (head r)))
         rules.

(** The list [indexed_values[i]] as the first loop builds it: each
    index-specific rule, once for every time its index list names [i]. *)
Definition entries_at (rules : list ConfigRule) (i : nat) : list ConfigRule :=
  flat_map (fun r =>
              if is_IndexSelector (head r)
              then repeat r (count_occ Nat.eq_dec (head_indices (head r)) i)
              else [])
           rules.

(** What the loop over the winner's items leaves at a position it
    visits. *)
Definition filled (winner : ConfigRule) (o : option (list ConfigRule))
  : option (list ConfigRule) :=
  match o with
  | None => Some [winner]
  | Some rs =>
      if forallb (fun r => (specificity r <? specificity winner)%Z) rs
      then Some [winner] else Some rs
  end.

(** The rules among which the non-indexed winner is chosen: the
    synthetic placeholder when no rule applies to every position. *)
Definition winner_candidates (rules : list ConfigRule) : list ConfigRule :=
  match non_indexed rules with
  | [] => [least_specific_rule]
  | l => l
  end.

(** Position [i] is covered when the broadcast sequence of [n] items
    reaches it or an index-specific rule names it. *)
Definition covered (rules : list ConfigRule) (n i : nat) : bool :=
  (i <? n)%nat
  || match rules_at_position rules i with [] => false | _ => true end.

(** The value at one position: the element of the non-indexed
    winner's sequence when the position lies in the sequence and no
    index-specific rule there is at or above the winner's specificity;
    else the value of the most specific index-specific rule. *)
Definition broadcast_position (self : Config) (winner : ConfigRule)
    (items : list Value) (rules : list ConfigRule) (i : nat) : Result Value :=
  let indexed := rules_at_position rules i in
  if (i <? List.length items)%nat
     && forallb (fun r => (specificity r <? specificity winner)%Z) indexed
  then list_get items i
  else rule <- _take_most_specific_in_list indexed ;;
       get_value get hooks rule self.

(** The value of a key whose positions run from [0] to [last_position]. *)
Definition broadcast_by_position (self : Config) (rules : list ConfigRule)
    (last_position : nat) : Result Value :=
  winner <- _take_most_specific_in_list (non_indexed rules) ;;
  value <- get_value get hooks winner self ;;
  values <- mapM (broadcast_position self winner (as_sequence value) rules)
                 (seq 0 (S last_position)) ;;
  Ok (VList values).
End Specification.

(** A generator hands out at least [n] items. *)
Definition yields_at_least (g : Generator) (n : nat) : Prop :=
  match g with
  | GenCallable _ => True
  | GenSized items => n <= List.length items
  | GenIterator next => forall i, i < n -> next i <> None
  end.

(* ================================================================== *)
(** ** Example configurations *)

Module Examples.
Import Reference.

Definition name (n : string) : Segment := Plain (ClassSelector n).

Definition at_index (n : string) (i : nat) : Segment :=
  IndexSelector (ClassSelector n) (IndexInt i) None.

(** A store in which no hook has run. *)
Definition no_hooks : HookStore :=
  fun _ => ForwardHook_init (fun _ => Ok VNone) true.

(** [config.<path>(value)] *)
Definition assign (config : Result Config) (path : list string)
    (value : RuleValue) : Result Config :=
  config <- config ;;
  call (fold_left getattr path config) (OneArg value) [].

Definition unwrap (config : Result Config) : Config :=
  match config with
  | Ok c => c
  | Raise _ => Config_new
  end.

Definition add_one (v : Value) : Result Value :=
  match v with
  | VInt z => Ok (VInt (z + 1))
  | _ => Raise TypeError
  end.

(** [Config().x.y(100).a.b(Ref("x.y", lambda v: v + 1))] *)
Definition ref_config : Config :=
  unwrap (assign (assign (Ok Config_new) ["x"; "y"] (Literal (VInt 100)))
                 ["a"; "b"]
                 (RefValue (mkRef [name "x"; name "y"] add_one))).

Definition ref_rule : ConfigRule :=
  ConfigRule_init [name "a"] [name "b"]
                  (RefValue (mkRef [name "x"; name "y"] add_one)).

(** [Config().a.b(1)] followed by [.default("a.b", 2)], and the two in
    the other order. *)
Definition normal_rule : ConfigRule :=
  ConfigRule_init [name "a"] [name "b"] (Literal (VInt 1)).

Definition default_rule : ConfigRule :=
  ConfigRuleDefault_init [name "a"] [name "b"] (Literal (VInt 2)).

Definition normal_then_default : Config :=
  unwrap (c <- assign (Ok Config_new) ["a"; "b"] (Literal (VInt 1)) ;;
          set_default c [name "a"; name "b"] (Literal (VInt 2))).

Definition default_then_normal : Config :=
  unwrap (c <- set_default Config_new [name "a"; name "b"] (Literal (VInt 2)) ;;
          assign (Ok c) ["a"; "b"] (Literal (VInt 1))).

(** [Config().a.b(1).a.b(3)] *)
Definition later_rule : ConfigRule :=
  ConfigRule_init [name "a"] [name "b"] (Literal (VInt 3)).

Definition set_twice : Config :=
  unwrap (assign (assign (Ok Config_new) ["a"; "b"] (Literal (VInt 1)))
                 ["a"; "b"] (Literal (VInt 3))).

(** [c1 = Config().a(1)], [c2 = Config().b(2)]. *)
Definition c1 : Config :=
  unwrap (assign (Ok Config_new) ["a"] (Literal (VInt 1))).

Definition c2 : Config :=
  unwrap (assign (Ok Config_new) ["b"] (Literal (VInt 2))).

(** A default rule, as [Config().default("b", 2)] registers it. *)
Definition plain_default_rule : ConfigRule :=
  ConfigRuleDefault_init NoneSelector [name "b"] (Literal (VInt 2)).

(** A rule for every position of [blocks] and one for position 1. *)
Definition blocks_rule : ConfigRule :=
  ConfigRule_init NoneSelector [name "blocks"]
                  (Literal (VList [VInt 10; VInt 11; VInt 12])).

Definition blocks_1_rule : ConfigRule :=
  ConfigRule_init NoneSelector [at_index "blocks" 1] (Literal (VInt 99)).

Definition blocks_config : Config :=
  Config_init [blocks_1_rule; blocks_rule] [] NoneSelector.

(** Rules for positions 0 and 2 of [layers], none for position 1. *)
Definition layers_0_rule : ConfigRule :=
  ConfigRule_init NoneSelector [at_index "layers" 0] (Literal (VInt 5)).

Definition layers_2_rule : ConfigRule :=
  ConfigRule_init NoneSelector [at_index "layers" 2] (Literal (VInt 7)).

Definition gap_config : Config :=
  Config_init [layers_0_rule; layers_2_rule] [] NoneSelector.

(** Two rules under different keys that one indexed path matches. *)
Definition two_keys_config : Config :=
  Config_init
    [ConfigRule_init [name "a"] [Plain WildcardSelector] (Literal (VInt 1));
     ConfigRule_init [name "a"] [at_index "b" 0] (Literal (VInt 2))]
    [] NoneSelector.

(** A hook that reads the first dimension of what it is shown. *)
Definition first_dimension (module : Value) : Result Value :=
  getitem module 0.

(** An iterator that never ends, and a context to populate. *)
Definition naturals : Generator :=
  GenIterator (fun i => Some (Literal (VInt (Z.of_nat i)))).

Definition layers_context : Config :=
  Config_init [] [] [name "layers"].

(** [Config().other.b(1)] and [Config().default("b", 2)], to be merged
    under [other]. *)
Definition other_b_config : Config :=
  unwrap (assign (Ok Config_new) ["other"; "b"] (Literal (VInt 1))).

Definition default_b_config : Config :=
  unwrap (set_default Config_new [name "b"] (Literal (VInt 2))).
End Examples.

(* ================================================================== *)
(** ** Parameters, references to sub-configurations and forward hooks *)

Section EngineMore.
Context `{SelectorContract}.

(** [Config.get_module()] *)
Definition get_module (fuel : nat) (hooks : HookStore) (self : Config)
  : Result Value :=
  get fuel hooks self NoneSelector default_obj false.

(** [Config.get_parameters(create=False)]; [fuel] is the depth left for
    the calls of [Config.get] made while references are resolved. *)
Definition get_parameters (fuel : nat) (hooks : HookStore) (self : Config)
  : Result (list (string * Value)) :=
  let rules := _get_all_matching_rules self NoneSelector false false in
  let rule_dict := _merge_rules_on_key rules in
  _take_most_specific_per_key (get fuel hooks) hooks self rule_dict.

(** The selector [Config.__getattr__] makes of an attribute name. *)
Definition attribute_selector (name : string) : Segment :=
  if String.eqb name "_" then Plain WildcardSelector
  else if String.eqb name "__" then Plain DoubleWildcardSelector
  else Plain (ClassSelector name).

(** The item a generator hands out at position [i], if it has one. *)
Definition item_at (g : Generator) (i : nat) : option RuleValue :=
  match g with
  | GenCallable f => Some (f i)
  | GenSized items => nth_error items i
  | GenIterator next => next i
  end.

(** The names that ordinary attribute lookup finds on a [Config]: the
    attributes that [__init__] sets and the names of the class body.
    Python does not call [Config.__getattr__] for them. *)
Definition Config_names : list string :=
  ["_rules"; "_refs"; "_context";
   "on_first_forward"; "on_forward"; "run_all_forward_hooks";
   "has_forward_hooks"; "get_all_forward_hooks"; "set"; "populate";
   "default"; "merge"; "get"; "get_module"; "add_ref"; "get_ref";
   "get_parameters"; "with_selector"; "_get_all_matching_rules";
   "_is_last_selector_a"; "_take_most_specific_per_key";
   "_take_most_specific_in_list"; "_take_most_specific_per_key_and_index";
   "_initialize_classes"; "_merge_rules_on_key"; "build_object"].

(** A name of the form [__x__]: the special methods of the class body
    ([__init__], [__call__], [__getitem__], ...) and the attributes that
    every object has ([__class__], [__dict__], ...) are of this form. *)
Definition is_dunder (name : string) : bool :=
  (4 <? String.length name)%nat
  && String.prefix "__" name
  && String.eqb (substring (String.length name - 2) 2 name) "__".

(** Whether ordinary lookup finds the name, so that [__getattr__] is
    not consulted; every name of the form [__x__] is counted as found. *)
Definition found_by_ordinary_lookup (name : string) : bool :=
  existsb (String.eqb name) Config_names || is_dunder name.

(** [config.<name>]: [Config.__getattr__] answers for the names that
    ordinary lookup does not find; [None] stands for what ordinary lookup
    finds (a method or a field), which is no configuration made by
    [__getattr__]. *)
Definition attribute (self : Config) (name : string) : option Config :=
  if found_by_ordinary_lookup name then None else Some (getattr self name).

(** [config.<name1>.<name2>. ... .<namek>] *)
Fixpoint attributes (self : Config) (names : list string) : option Config :=
  match names with
  | [] => Some self
  | name :: rest =>
      match attribute self name with
      | Some config => attributes config rest
      | None => None
      end
  end.

(** [isinstance(rule.value, ForwardHook)] *)
Definition holds_hook (rule : ConfigRule) : bool :=
  match value rule with
  | HookValue _ => true
  | _ => false
  end.

(** The places in the store of the hooks that a list of rules holds. *)
Definition hook_locations (rules : list ConfigRule) : list nat :=
  flat_map (fun rule =>
              match value rule with
              | HookValue loc => [loc]
              | _ => []
              end)
           rules.

(** [Config.get_all_forward_hooks()] *)
Definition get_all_forward_hooks (self : Config) : list ConfigRule :=
  let rules := _get_all_matching_rules self NoneSelector false false in
  let module := _get_all_matching_rules self NoneSelector true false in
  let all_rules := rules ++ module in
  filter holds_hook all_rules.

(** [Config.has_forward_hooks()] *)
Definition has_forward_hooks (self : Config) : bool :=
  (0 <? List.length (get_all_forward_hooks self))%nat.

(** The store after the hook object at [loc] has been replaced. *)
Definition store_set (hooks : HookStore) (loc : nat) (h : ForwardHook)
  : HookStore :=
  fun l => if Nat.eqb l loc then h else hooks l.

(** The loop [for rule in ...: rule.value(x)]: the store as the loop
    leaves it, and whether it ended by an exception of a hook. *)
Fixpoint call_hooks (rules : list ConfigRule) (x : Value) (hooks : HookStore)
  : HookStore * Result unit :=
  match rules with
  | [] => (hooks, Ok tt)
  | rule :: rest =>
      match value rule with
      | HookValue loc =>
          let '(h, returned) := ForwardHook_call (hooks loc) x in
          match returned with
          | Ok _ => call_hooks rest x (store_set hooks loc h)
          | Raise e => (store_set hooks loc h, Raise e)
          end
      | _ => call_hooks rest x hooks
      end
  end.

(** [Config.run_all_forward_hooks(x)] *)
Definition run_all_forward_hooks (self : Config) (x : Value)
    (hooks : HookStore) : HookStore * Result unit :=
  call_hooks (get_all_forward_hooks self) x hooks.

(** [Config.add_ref(name, config)]: the object after the call and the
    warnings issued.  The table is the one the object holds; this is
    the object's own view of it. *)
Definition add_ref (self : Config) (name : string) (config : Config)
  : Config * list Warning :=
  let warnings :=
    if dict_contains String.eqb (_refs self) name
    then [RefOverwrite name] else [] in
  ({| _rules := _rules self;
      _refs := dict_set String.eqb (_refs self) name config;
      _context := _context self |},
   warnings).

(** [Config.get_ref(name)]: [self._refs[name]]. *)
Definition get_ref (self : Config) (name : string) : Result Config :=
  match dict_get String.eqb (_refs self) name with
  | Some config => Ok config
  | None => Raise KeyError
  end.
End EngineMore.

(* ================================================================== *)
(** ** Further example configurations *)

Module MoreExamples.
Import Reference Examples.

(** Four rules for [a.b]: a default, two normal rules, a default. *)
Definition cascade_config : Config :=
  Config_init [default_rule; normal_rule; later_rule; default_rule]
              [] NoneSelector.

(** [Config().in_features(ForwardHook(first_dimension)).out_features(8)]:
    a parameter that is known only after a forward pass, and one that
    is known at once. *)
Definition hook_rule : ConfigRule :=
  ConfigRule_init NoneSelector [name "in_features"] (HookValue 0).

Definition hook_config : Config :=
  Config_init
    [hook_rule;
     ConfigRule_init NoneSelector [name "out_features"] (Literal (VInt 8))]
    [] NoneSelector.

(** A store whose hooks read the first dimension and have not run. *)
Definition dimension_hooks : HookStore :=
  fun _ => ForwardHook_init first_dimension true.

(** [Config().a.b(1)], and [set("a.b", 7)] on the configuration that
    holds a normal and a default rule for [a.b]. *)
Definition ab_config : Config :=
  unwrap (assign (Ok Config_new) ["a"; "b"] (Literal (VInt 1))).



(** Rules for positions 0 and 1 of [layers], and none for the key as
    a whole. *)
Definition layers_1_rule : ConfigRule :=
  ConfigRule_init NoneSelector [at_index "layers" 1] (Literal (VInt 6)).

Definition indexed_only_config : Config :=
  Config_init [layers_0_rule; layers_1_rule] [] NoneSelector.

(** Rules for position 0 of [b]: a normal one, a default one, and a
    second normal one. *)
Definition b_0_rule : ConfigRule :=
  ConfigRule_init NoneSelector [at_index "b" 0] (Literal (VInt 1)).

Definition b_0_default_rule : ConfigRule :=
  ConfigRuleDefault_init NoneSelector [at_index "b" 0] (Literal (VInt 2)).

Definition b_0_later_rule : ConfigRule :=
  ConfigRule_init NoneSelector [at_index "b" 0] (Literal (VInt 3)).

Definition b_0_with_default : Config :=
  Config_init [b_0_rule; b_0_default_rule] [] NoneSelector.

Definition b_0_twice : Config :=
  Config_init [b_0_rule; b_0_later_rule] [] NoneSelector.

(** The context [layers[0:2]]. *)
Definition sliced_context : Config :=
  Config_init [] []
    [IndexSelector (ClassSelector "layers") (IndexSlice (Some 0) (Some 2))
                   None].
End MoreExamples.

(* ================================================================== *)
(** ** Properties *)

Section Properties.
Context `{SelectorContract}.

(** *** Choosing among the rules of one key *)

(** One step of the loop of [_take_most_specific_in_list]. *)
Local Notation "'step'" :=
  (fun most_specific rule =>
     if is_more_specific_than rule (Some most_specific)
     then rule else most_specific).

Lemma is_more_specific_than_self (r : ConfigRule) :
  is_more_specific_than r (Some r) = true.
Proof.
  unfold is_more_specific_than. now rewrite Z.eqb_refl.
Qed.

Lemma is_more_specific_than_spec (r o : ConfigRule) :
  is_more_specific_than r (Some o) = (specificity o <=? specificity r)%Z.
Proof.
  unfold is_more_specific_than.
  destruct (Z.eqb_spec (specificity r) (specificity o)) as [E | E]; simpl.
  - rewrite E. symmetry. apply Z.leb_refl.
  - destruct (Z.leb_spec (specificity o) (specificity r));
      destruct (Z.gtb_spec (specificity r) (specificity o)); auto; lia.
Qed.

Lemma take_cons (r : ConfigRule) (rules : list ConfigRule) :
  _take_most_specific_in_list (r :: rules) = Ok (fold_left step rules r).
Proof.
  unfold _take_most_specific_in_list. cbn [fold_left].
  now rewrite is_more_specific_than_self.
Qed.

Lemma take_pair_first (a b : ConfigRule) :
  (specificity b < specificity a)%Z ->
  _take_most_specific_in_list [a; b] = Ok a.
Proof.
  intros Hlt. rewrite take_cons. cbn [fold_left].
  rewrite is_more_specific_than_spec.
  destruct (Z.leb_spec (specificity a) (specificity b)); [lia | reflexivity].
Qed.

Lemma take_pair_second (a b : ConfigRule) :
  (specificity a <= specificity b)%Z ->
  _take_most_specific_in_list [a; b] = Ok b.
Proof.
  intros Hle. rewrite take_cons. cbn [fold_left].
  rewrite is_more_specific_than_spec.
  destruct (Z.leb_spec (specificity a) (specificity b)); [reflexivity | lia].
Qed.

Lemma take_single (a : ConfigRule) :
  _take_most_specific_in_list [a] = Ok a.
Proof. now rewrite take_cons. Qed.

(** *** Grouping by key *)

Lemma dict_append_same_key (k : string) (acc : list ConfigRule)
    (r : ConfigRule) :
  dict_append String.eqb [(k, acc)] k r = [(k, acc ++ [r])].
Proof.
  unfold dict_append. simpl. now rewrite String.eqb_refl.
Qed.

Lemma merge_rules_same_key_acc (k : string) (rules acc : list ConfigRule) :
  Forall (fun r => key r = k) rules ->
  fold_left (fun merged rule => dict_append String.eqb merged (key rule) rule)
            rules [(k, acc)]
  = [(k, acc ++ rules)].
Proof.
  intros Hall. revert acc.
  induction Hall as [| r rules Hr _ IH]; intros acc; simpl.
  - now rewrite app_nil_r.
  - rewrite Hr, dict_append_same_key, IH. now rewrite <- app_assoc.
Qed.

Lemma merge_rules_same_key (k : string) (rules : list ConfigRule) :
  Forall (fun r => key r = k) rules -> rules <> [] ->
  _merge_rules_on_key rules = [(k, rules)].
Proof.
  intros Hall Hne. destruct rules as [| r rules]; [congruence |].
  unfold _merge_rules_on_key. simpl.
  inversion Hall as [| ? ? Hr Hrest]; subst.
  change (dict_append String.eqb [] (key r) r) with [(key r, [r])].
  now rewrite (merge_rules_same_key_acc [r] Hrest).
Qed.

(** *** A key without index-specific rules *)

Lemma split_indexed_plain (rules acc : list ConfigRule) (any : bool)
    (iv : list (nat * list ConfigRule)) :
  Forall (fun r => is_IndexSelector (head r) = false) rules ->
  split_indexed rules acc any iv = (acc ++ rules, any, iv).
Proof.
  intros Hall. revert acc.
  induction Hall as [| r rules Hr _ IH]; intros acc; simpl.
  - now rewrite app_nil_r.
  - rewrite Hr, IH. now rewrite <- app_assoc.
Qed.

Lemma resolve_key_plain (getter : Getter) (hooks : HookStore) (self : Config)
    (k : string) (rules : list ConfigRule) (winner : ConfigRule) :
  Forall (fun r => is_IndexSelector (head r) = false) rules ->
  _take_most_specific_in_list rules = Ok winner ->
  resolve_key_and_index getter hooks self k rules
  = get_value getter hooks winner self.
Proof.
  intros Hall Htake. unfold resolve_key_and_index.
  rewrite split_indexed_plain by assumption. simpl.
  destruct rules as [| r rules]; [discriminate |].
  simpl List.length. cbn [Nat.eqb]. rewrite Htake. simpl.
  now destruct (get_value getter hooks winner self).
Qed.

(** [get] when every matching rule is filed under one key and the
    indexed resolution has no index-specific rule to consider. *)
Lemma get_single_key (fuel : nat) (hooks : HookStore) (self : Config)
    (selectors : Selector) (default : option Value) (rd : bool)
    (k : string) (rules : list ConfigRule) (winner : ConfigRule) (v : Value) :
  _get_all_matching_rules self selectors true
    (negb (is_IndexSelector (snd (pop (_context self ++ selectors)))))
  = rules ->
  Forall (fun r => key r = k) rules ->
  is_IndexSelector (snd (pop (_context self ++ selectors))) = true
  \/ Forall (fun r => is_IndexSelector (head r) = false) rules ->
  _take_most_specific_in_list rules = Ok winner ->
  get_value (get fuel hooks) hooks winner self = Ok v ->
  get (S fuel) hooks self selectors default rd = Ok v.
Proof.
  intros Hmatch Hkey Hshape Htake Hval.
  assert (Hne : rules <> []) by (intros ->; discriminate).
  simpl get. unfold get_body, get_most_specific.
  rewrite Hmatch, (merge_rules_same_key Hkey Hne).
  destruct (is_IndexSelector (snd (pop (_context self ++ selectors)))) eqn:Hidx;
    simpl negb; cbv iota.
  - unfold _take_most_specific_per_key. simpl.
    rewrite Htake. simpl. now rewrite Hval.
  - destruct Hshape as [Habs | Hplain]; [discriminate |].
    unfold _take_most_specific_per_key_and_index. simpl.
    rewrite (resolve_key_plain _ _ _ _ Hplain Htake), Hval. reflexivity.
Qed.

(** *** Specificity and the tie-break *)

(** C1. Of two rules filed under one key, a normal one (specificity
    1) and a default one (specificity 0), both matching the queried
    path and no other rule matching it, [Config.get] returns the
    value of the normal rule, in whichever order the two were
    registered, when the queried path ends in an index selector or
    the head of neither rule is an index selector.  (With an indexed
    head on a path that does not end in an index, the indexed
    resolution answers with a list.) *)
Theorem C1_normal_rule_beats_default
    (fuel : nat) (hooks : HookStore) (self : Config) (selectors : Selector)
    (default_arg : option Value) (return_dict_if_multiple : bool)
    (normal dflt : ConfigRule) (v : Value) :
  specificity normal = 1%Z ->
  specificity dflt = 0%Z ->
  key normal = key dflt ->
  _get_all_matching_rules self selectors true
    (negb (is_IndexSelector (snd (pop (_context self ++ selectors)))))
  = [normal; dflt]
  \/ _get_all_matching_rules self selectors true
       (negb (is_IndexSelector (snd (pop (_context self ++ selectors)))))
     = [dflt; normal] ->
  is_IndexSelector (snd (pop (_context self ++ selectors))) = true
  \/ (is_IndexSelector (head normal) = false
      /\ is_IndexSelector (head dflt) = false) ->
  get_value (get fuel hooks) hooks normal self = Ok v ->
  get (S fuel) hooks self selectors default_arg return_dict_if_multiple = Ok v.
Proof.
  intros Hn Hd Hkey Hmatch Hshape Hval.
  destruct Hmatch as [Hmatch | Hmatch];
    eapply get_single_key with (k := key normal); try exact Hmatch;
    try exact Hval.
  - repeat constructor; auto.
  - destruct Hshape as [Hi | [Ha Hb]]; [now left | right].
    repeat constructor; auto.
  - apply take_pair_first. lia.
  - repeat constructor; auto.
  - destruct Hshape as [Hi | [Ha Hb]]; [now left | right].
    repeat constructor; auto.
  - apply take_pair_second. lia.
Qed.

(** C2. Of two rules of equal specificity filed under one key, both
    matching the queried path and no other rule matching it,
    [Config.get] returns the value of the one that comes later in the
    rule list, when the queried path ends in an index selector or the
    head of neither rule is an index selector;
    [is_more_specific_than] answers true between rules of equal
    specificity, either way round, and true against [None]. *)
Theorem C2_later_rule_wins_tie
    (fuel : nat) (hooks : HookStore) (self : Config) (selectors : Selector)
    (default_arg : option Value) (return_dict_if_multiple : bool)
    (earlier later : ConfigRule) (v : Value) :
  specificity earlier = specificity later ->
  key earlier = key later ->
  _get_all_matching_rules self selectors true
    (negb (is_IndexSelector (snd (pop (_context self ++ selectors)))))
  = [earlier; later] ->
  is_IndexSelector (snd (pop (_context self ++ selectors))) = true
  \/ (is_IndexSelector (head earlier) = false
      /\ is_IndexSelector (head later) = false) ->
  get_value (get fuel hooks) hooks later self = Ok v ->
  get (S fuel) hooks self selectors default_arg return_dict_if_multiple = Ok v
  /\ is_more_specific_than later (Some earlier) = true
  /\ is_more_specific_than earlier (Some later) = true
  /\ is_more_specific_than later None = true.
Proof.
  intros Hspec Hkey Hmatch Hshape Hval. repeat split.
  - eapply get_single_key with (k := key later); try exact Hmatch;
      try exact Hval.
    + repeat constructor; auto.
    + destruct Hshape as [Hi | [Ha Hb]]; [now left | right].
      repeat constructor; auto.
    + apply take_pair_second. lia.
  - rewrite is_more_specific_than_spec. apply Z.leb_le. lia.
  - rewrite is_more_specific_than_spec. apply Z.leb_le. lia.
Qed.

(** *** Wrapping *)

(** C3. What [ConfigRuleWrapper] computes: the selector and the scope
    root are prefixed; the specificity is 0 when default status is
    requested and 1 otherwise, whatever the specificity of the
    wrapped rule.  A default rule (specificity 0) wrapped without the
    request comes out with specificity 1. *)
Theorem C3_wrapper_specificity_is_not_inherited
    (prefix : Selector) (wrapped : ConfigRule) (as_default : bool)
    (s k : Selector) (v : RuleValue) :
  selector (ConfigRuleWrapper_init prefix wrapped as_default)
  = prefix ++ selector wrapped
  /\ scope_root (ConfigRuleWrapper_init prefix wrapped as_default)
     = prefix ++ scope_root wrapped
  /\ specificity (ConfigRuleWrapper_init prefix wrapped as_default)
     = (if as_default then 0 else 1)%Z
  /\ specificity (ConfigRuleDefault_init s k v) = 0%Z
  /\ specificity
       (ConfigRuleWrapper_init prefix (ConfigRuleDefault_init s k v) false)
     = 1%Z.
Proof. repeat split. Qed.

(** *** Hooks *)

Lemma ForwardHook_call_cached (h : ForwardHook) (module : Value) :
  first_only h = true -> _has_run h = true ->
  ForwardHook_call h module = (h, Ok (_value h)).
Proof.
  intros Hf Hr. unfold ForwardHook_call. now rewrite Hf, Hr.
Qed.

Lemma trigger_all_cached (h : ForwardHook) (modules : list Value) :
  first_only h = true -> _has_run h = true ->
  trigger_all h modules = h.
Proof.
  intros Hf Hr. induction modules as [| m modules IH]; simpl.
  - reflexivity.
  - now rewrite ForwardHook_call_cached by assumption.
Qed.

(** C7. Reading the value of a hook that has not run raises.  Once a
    hook with [first_only] has been triggered, every further trigger
    leaves the object as it is, and [value()] keeps returning what
    the first trigger computed. *)
Theorem C7_hook_gating
    (h : ForwardHook) (module v : Value) (later : list Value) :
  _has_run h = false ->
  first_only h = true ->
  hook h module = Ok v ->
  ForwardHook_value h = Raise (ValueError HookNotRun)
  /\ (forall f b,
         ForwardHook_value (ForwardHook_init f b)
         = Raise (ValueError HookNotRun))
  /\ ForwardHook_value (fst (ForwardHook_call h module)) = Ok v
  /\ trigger_all (fst (ForwardHook_call h module)) later
     = fst (ForwardHook_call h module)
  /\ _value (trigger_all (fst (ForwardHook_call h module)) later) = v
  /\ ForwardHook_value (trigger_all (fst (ForwardHook_call h module)) later)
     = Ok v.
Proof.
  intros Hrun Hfirst Hhook.
  assert (Hcall : fst (ForwardHook_call h module)
                  = {| hook := hook h; first_only := first_only h;
                       _value := v; _has_run := true |}).
  { unfold ForwardHook_call. rewrite Hrun, andb_false_r, Hhook. reflexivity. }
  assert (Hstay : trigger_all (fst (ForwardHook_call h module)) later
                  = fst (ForwardHook_call h module)).
  { apply trigger_all_cached; rewrite Hcall; simpl; auto. }
  repeat split.
  - unfold ForwardHook_value. now rewrite Hrun.
  - now rewrite Hcall.
  - exact Hstay.
  - now rewrite Hstay, Hcall.
  - now rewrite Hstay, Hcall.
Qed.

(** *** The three outcomes of [get] *)

Lemma get_unfold (fuel : nat) (hooks : HookStore) (self : Config)
    (selectors : Selector) (default_arg : option Value) (rd : bool) :
  get (S fuel) hooks self selectors default_arg rd
  = (most_specific <-
       get_most_specific (get fuel hooks) hooks self selectors ;;
     match most_specific with
     | [] =>
         match default_arg with
         | Some d => Ok d
         | None => Raise (ValueError (NoKeysMatch (_context self ++ selectors)))
         end
     | [(_, v)] => Ok v
     | _ =>
         if rd then Ok (VDict most_specific)
         else Raise (ValueError
                       (MultipleKeysMatch selectors (dict_keys most_specific)))
     end).
Proof. reflexivity. Qed.

(** C6. With the dictionary of resolved keys in hand, [Config.get]
    returns the caller's default or raises, naming the full path,
    when the dictionary is empty; returns the one value when it has
    one entry; and with several entries returns the dictionary when
    asked to, else raises, listing the keys. *)
Theorem C6_get_outcomes
    (fuel : nat) (hooks : HookStore) (self : Config) (selectors : Selector)
    (most_specific : list (string * Value)) :
  get_most_specific (get fuel hooks) hooks self selectors = Ok most_specific ->
  (List.length most_specific = 0 ->
   (forall d rd, get (S fuel) hooks self selectors (Some d) rd = Ok d)
   /\ (forall rd,
          get (S fuel) hooks self selectors default_obj rd
          = Raise (ValueError (NoKeysMatch (_context self ++ selectors)))))
  /\ (List.length most_specific = 1 ->
      exists k v,
        most_specific = [(k, v)]
        /\ forall d rd, get (S fuel) hooks self selectors d rd = Ok v)
  /\ (1 < List.length most_specific ->
      (forall d,
          get (S fuel) hooks self selectors d true = Ok (VDict most_specific))
      /\ (forall d,
             get (S fuel) hooks self selectors d false
             = Raise (ValueError
                        (MultipleKeysMatch selectors
                                           (dict_keys most_specific))))).
Proof.
  intros Hms. repeat split.
  - intros d rd. rewrite get_unfold, Hms.
    destruct most_specific; [reflexivity | discriminate].
  - intros rd. rewrite get_unfold, Hms.
    destruct most_specific; [reflexivity | discriminate].
  - intros Hlen. destruct most_specific as [| [k v] [| ? ?]]; try discriminate.
    exists k, v. split; [reflexivity |].
    intros d rd. now rewrite get_unfold, Hms.
  - intros d. rewrite get_unfold, Hms.
    destruct most_specific as [| [k v] [| ? ?]]; simpl in *; try lia.
    reflexivity.
  - intros d. rewrite get_unfold, Hms.
    destruct most_specific as [| [k v] [| ? ?]]; simpl in *; try lia.
    reflexivity.
Qed.

(** *** References *)

(** C5. The value of a rule that holds a reference is the reference's
    function applied to what [get] finds for the reference's path in
    a configuration of the same rules and refs whose context is the
    rule's scope root; the context of the configuration at hand plays
    no part; the inner [get] is made without a default and without
    the dictionary option, so it raises unless exactly one key
    resolves. *)
Theorem C5_reference_resolution
    (fuel : nat) (hooks : HookStore) (rule : ConfigRule) (ref : Ref)
    (config : Config) :
  value rule = RefValue ref ->
  get_value (get (S fuel) hooks) hooks rule config
  = (found <-
       get (S fuel) hooks
           (Config_init (_rules config) (_refs config) (scope_root rule))
           (selectors ref) default_obj false ;;
     func ref found)
  /\ (forall context,
         get_value (get (S fuel) hooks) hooks rule
                   (Config_init (_rules config) (_refs config) context)
         = get_value (get (S fuel) hooks) hooks rule config)
  /\ (forall most_specific,
         get_most_specific (get fuel hooks) hooks
           (Config_init (_rules config) (_refs config) (scope_root rule))
           (selectors ref)
         = Ok most_specific ->
         get_value (get (S fuel) hooks) hooks rule config
         = match most_specific with
           | [] =>
               Raise (ValueError
                        (NoKeysMatch (scope_root rule ++ selectors ref)))
           | [(_, found)] => func ref found
           | _ =>
               Raise (ValueError
                        (MultipleKeysMatch (selectors ref)
                                           (dict_keys most_specific)))
           end).
Proof.
  intros Hval.
  assert (Heq : forall c,
             get_value (get (S fuel) hooks) hooks rule c
             = (found <-
                  get (S fuel) hooks
                      (Config_init (_rules c) (_refs c) (scope_root rule))
                      (selectors ref) default_obj false ;;
                func ref found)).
  { intros c. unfold get_value. now rewrite Hval. }
  split; [| split].
  - apply Heq.
  - intros context. now rewrite !Heq.
  - intros ms Hms. rewrite Heq, get_unfold, Hms.
    destruct ms as [| [k v] [| ? ?]]; reflexivity.
Qed.

(** *** Merging *)

(** C10. [merge] rebinds the rule list of the configuration it is
    called on: afterwards the receiver holds its own rules followed
    by the wrapped rules of the merged configuration, and is no
    longer the object it was; the configuration returned has the same
    rules and an empty context.  A rule of the merged configuration
    that alone matches a path in the receiver is resolved by the
    receiver's own [get]. *)
Theorem C10_merge_mutates_receiver
    (fuel : nat) (hooks : HookStore) (self config : Config)
    (selectors path : Selector) (as_default : bool) (rule : ConfigRule)
    (v : Value) (default_arg : option Value) (rd : bool) :
  let wrapper :=
    ConfigRuleWrapper_init (_context self ++ selectors) rule as_default in
  let receiver := fst (merge self selectors config as_default false) in
  let returned := snd (merge self selectors config as_default false) in
  In rule (_rules config) ->
  _get_all_matching_rules receiver path true
    (negb (is_IndexSelector (snd (pop (_context receiver ++ path)))))
  = [wrapper] ->
  is_IndexSelector (snd (pop (_context receiver ++ path))) = true
  \/ is_IndexSelector (head rule) = false ->
  get_value (get fuel hooks) hooks wrapper receiver = Ok v ->
  _rules receiver
  = _rules self
    ++ map (fun r =>
              ConfigRuleWrapper_init (_context self ++ selectors) r as_default)
           (_rules config)
  /\ In wrapper (_rules receiver)
  /\ _context receiver = _context self
  /\ _refs receiver = _refs self
  /\ _rules returned = _rules receiver
  /\ _context returned = NoneSelector
  /\ receiver <> self
  /\ get (S fuel) hooks receiver path default_arg rd = Ok v.
Proof.
  intros wrapper receiver returned Hin Hmatch Hshape Hval.
  repeat split.
  - apply in_or_app. right.
    apply (in_map (fun r =>
              ConfigRuleWrapper_init (_context self ++ selectors) r as_default)).
    exact Hin.
  - intros Heq. apply (f_equal _rules) in Heq. simpl in Heq.
    rewrite <- (app_nil_r (_rules self)) in Heq at 2.
    apply app_inv_head in Heq.
    destruct (_rules config); [contradiction | discriminate].
  - eapply get_single_key with (k := key wrapper); try exact Hmatch;
      try exact Hval.
    + repeat constructor.
    + destruct Hshape as [Hi | Hp]; [now left | right].
      repeat constructor. exact Hp.
    + apply take_single.
Qed.

(** *** Populating *)

Lemma pop_last (s : Selector) :
  s <> NoneSelector ->
  exists x, snd (pop s) = [x] /\ s = fst (pop s) ++ [x].
Proof.
  induction s as [| y s IH]; intros Hne; [now elim Hne |].
  destruct s as [| z s].
  - exists y. now split.
  - destruct IH as [x [Hx Hs]]; [discriminate |].
    exists x. change (pop (y :: z :: s))
      with (let '(body, head) := pop (z :: s) in (y :: body, head)).
    destruct (pop (z :: s)) as [body hd]. simpl in *.
    split; [assumption | now rewrite Hs at 1].
Qed.

Lemma take_iterator_length (next : nat -> option RuleValue) (n pos : nat) :
  (forall i, i < n -> next (pos + i) <> None) ->
  List.length (take_iterator next pos n) = n.
Proof.
  revert pos. induction n as [| n IH]; intros pos Hnext; simpl.
  - reflexivity.
  - destruct (next pos) eqn:Hpos.
    + simpl. f_equal. apply IH. intros i Hi.
      replace (S pos + i) with (pos + S i) by lia. apply Hnext. lia.
    + exfalso. apply (Hnext 0); [lia |]. now rewrite Nat.add_0_r.
Qed.

Lemma zip_generator_range (n : nat) (g : Generator) :
  has_len g = false -> yields_at_least g n ->
  exists values,
    List.length values = n
    /\ zip_generator (seq 0 n) g = combine (seq 0 n) values.
Proof.
  intros Hlen Hyield. destruct g as [f | items | next]; simpl in *.
  - exists (map f (seq 0 n)). now rewrite length_map, length_seq.
  - discriminate.
  - exists (take_iterator next 0 n). rewrite length_seq. split; [| reflexivity].
    apply take_iterator_length. intros i Hi. now apply Hyield.
Qed.

(** C8. [populate] on a configuration whose context ends in a segment
    that is not an index selector, with no [length] and a generator
    without [__len__] that hands out at least 256 items: the receiver
    gains exactly 256 rules, the one at position [i] addressed to
    index [i] of the context, for [i] from 0 to 255, and the warning
    about the cap is issued. *)
Theorem C8_populate_unknown_length_caps_at_256
    (self : Config) (selectors : Selector) (generator : Generator) :
  _context self <> NoneSelector ->
  is_IndexSelector (snd (pop (_context self))) = false ->
  has_len generator = false ->
  yields_at_least generator 256 ->
  exists (a : Atom) (values : list RuleValue) (receiver returned : Config),
    snd (pop (_context self)) = [Plain a]
    /\ populate self selectors generator None
       = Ok (receiver, returned, [UnknownGeneratorLength])
    /\ List.length values = 256
    /\ _rules receiver
       = _rules self
         ++ map (fun '(i, value) =>
                   ConfigRule_init
                     ((fst (pop (_context self))
                         ++ [IndexSelector a (IndexInt i) None])
                        ++ fst (pop selectors))
                     (snd (pop selectors)) value)
                (combine (seq 0 256) values)
    /\ List.length (_rules receiver) = List.length (_rules self) + 256
    /\ _rules returned = _rules receiver.
Proof.
  intros Hne Hidx Hlen Hyield.
  destruct (pop_last Hne) as [x [Hx _]].
  destruct x as [a | a i l]; [| rewrite Hx in Hidx; discriminate].
  destruct (zip_generator_range 256 generator Hlen Hyield)
    as [values [Hvalues Hzip]].
  exists a, values.
  unfold populate.
  destruct (pop selectors) as [sels key_head].
  destruct (pop (_context self)) as [body hd].
  cbn [fst snd] in *. subst hd. rewrite Hlen, Hzip. cbn [negb].
  eexists. eexists.
  split; [reflexivity |]. split; [reflexivity |]. split; [exact Hvalues |].
  split; [reflexivity |]. split; [| reflexivity].
  cbn [_rules].
  rewrite length_app, length_map, length_combine, length_seq, Hvalues.
  now rewrite Nat.min_id.
Qed.

(** *** Dictionaries keyed by position *)

Lemma dict_get_set_same {V : Type} (d : list (nat * V)) (k : nat) (v : V) :
  dict_get Nat.eqb (dict_set Nat.eqb d k v) k = Some v.
Proof.
  induction d as [| [k' v'] d IH]; simpl.
  - now rewrite Nat.eqb_refl.
  - destruct (Nat.eqb_spec k k') as [-> | Hne]; simpl.
    + now rewrite Nat.eqb_refl.
    + destruct (Nat.eqb_spec k k'); [contradiction | exact IH].
Qed.

Lemma dict_get_set_other {V : Type} (d : list (nat * V)) (k k' : nat) (v : V) :
  k <> k' ->
  dict_get Nat.eqb (dict_set Nat.eqb d k v) k' = dict_get Nat.eqb d k'.
Proof.
  intros Hne. induction d as [| [k0 v0] d IH]; simpl.
  - destruct (Nat.eqb_spec k' k); [congruence | reflexivity].
  - destruct (Nat.eqb_spec k k0) as [-> | Hk]; simpl.
    + destruct (Nat.eqb_spec k' k0); [congruence | reflexivity].
    + now rewrite IH.
Qed.

Lemma dict_get_set {V : Type} (d : list (nat * V)) (k k' : nat) (v : V) :
  dict_get Nat.eqb (dict_set Nat.eqb d k v) k'
  = if Nat.eqb k k' then Some v else dict_get Nat.eqb d k'.
Proof.
  destruct (Nat.eqb_spec k k') as [-> | Hne].
  - apply dict_get_set_same.
  - now apply dict_get_set_other.
Qed.

Lemma dict_keys_get {V : Type} (d : list (nat * V)) (k : nat) :
  In k (dict_keys d) <-> dict_get Nat.eqb d k <> None.
Proof.
  induction d as [| [k' v'] d IH]; simpl.
  - tauto.
  - destruct (Nat.eqb_spec k k') as [-> | Hne].
    + split; [discriminate | auto].
    + rewrite <- IH. split; [intros [E | E]; congruence || assumption | auto].
Qed.

Lemma dict_keys_set_NoDup {V : Type} (d : list (nat * V)) (k : nat) (v : V) :
  NoDup (dict_keys d) -> NoDup (dict_keys (dict_set Nat.eqb d k v)).
Proof.
  induction d as [| [k' v'] d IH]; simpl; intros Hnd.
  - constructor; [tauto | constructor].
  - inversion Hnd as [| ? ? Hnotin Hrest]; subst.
    destruct (Nat.eqb_spec k k') as [-> | Hne]; simpl.
    + now constructor.
    + constructor; [| now apply IH].
      rewrite dict_keys_get, dict_get_set_other by assumption.
      now rewrite <- dict_keys_get.
Qed.

Lemma appended_app {A : Type} (o : option (list A)) (l1 l2 : list A) :
  appended (appended o l1) l2 = appended o (l1 ++ l2).
Proof.
  destruct o as [l0 |]; simpl.
  - destruct l1; simpl; now rewrite <- ?app_assoc, ?app_nil_r.
  - destruct l1 as [| x l1]; simpl; [reflexivity |].
    destruct l2; simpl; now rewrite ?app_nil_r.
Qed.

Lemma dict_get_append (d : list (nat * list ConfigRule)) (k k' : nat)
    (r : ConfigRule) :
  dict_get Nat.eqb (dict_append Nat.eqb d k r) k'
  = if Nat.eqb k k' then appended (dict_get Nat.eqb d k) [r]
    else dict_get Nat.eqb d k'.
Proof.
  unfold dict_append.
  destruct (dict_get Nat.eqb d k) as [xs |] eqn:Hget;
    rewrite dict_get_set; destruct (Nat.eqb k k'); reflexivity.
Qed.

Lemma dict_keys_append_NoDup (d : list (nat * list ConfigRule)) (k : nat)
    (r : ConfigRule) :
  NoDup (dict_keys d) -> NoDup (dict_keys (dict_append Nat.eqb d k r)).
Proof.
  unfold dict_append.
  destruct (dict_get Nat.eqb d k); apply dict_keys_set_NoDup.
Qed.

(** *** The first loop of the indexed resolution *)

Lemma append_indices_get (r : ConfigRule) (idxs : list nat)
    (iv : list (nat * list ConfigRule)) (i : nat) :
  dict_get Nat.eqb
    (fold_left (fun iv index => dict_append Nat.eqb iv index r) idxs iv) i
  = appended (dict_get Nat.eqb iv i) (repeat r (count_occ Nat.eq_dec idxs i)).
Proof.
  revert iv. induction idxs as [| x idxs IH]; intros iv; simpl.
  - destruct (dict_get Nat.eqb iv i); simpl; now rewrite ?app_nil_r.
  - rewrite IH, dict_get_append.
    destruct (Nat.eq_dec x i) as [-> | Hne].
    + rewrite Nat.eqb_refl, appended_app. reflexivity.
    + destruct (Nat.eqb_spec x i); [contradiction | reflexivity].
Qed.

Lemma append_indices_NoDup (r : ConfigRule) (idxs : list nat)
    (iv : list (nat * list ConfigRule)) :
  NoDup (dict_keys iv) ->
  NoDup (dict_keys
           (fold_left (fun iv index => dict_append Nat.eqb iv index r) idxs iv)).
Proof.
  revert iv. induction idxs as [| x idxs IH]; intros iv Hnd; simpl.
  - exact Hnd.
  - apply IH. now apply dict_keys_append_NoDup.
Qed.

Lemma split_indexed_spec (rules acc : list ConfigRule) (any : bool)
    (iv : list (nat * list ConfigRule)) :
  fst (fst (split_indexed rules acc any iv)) = acc ++ non_indexed rules
  /\ snd (fst (split_indexed rules acc any iv))
     = any || existsb (fun r => is_IndexSelector (head r)) rules
  /\ (forall i,
         dict_get Nat.eqb (snd (split_indexed rules acc any iv)) i
         = appended (dict_get Nat.eqb iv i) (entries_at rules i))
  /\ (NoDup (dict_keys iv) ->
      NoDup (dict_keys (snd (split_indexed rules acc any iv)))).
Proof.
  revert acc any iv.
  induction rules as [| r rules IH]; intros acc any iv; simpl.
  - rewrite app_nil_r, orb_false_r. repeat split; auto.
    intros i. destruct (dict_get Nat.eqb iv i); simpl; now rewrite ?app_nil_r.
  - unfold non_indexed, entries_at. simpl.
    destruct (is_IndexSelector (head r)) eqn:Hidx; simpl.
    + destruct (IH acc true
                   (fold_left (fun iv index => dict_append Nat.eqb iv index r)
                              (head_indices (head r)) iv))
        as [Hfst [Hany [Hget Hnd]]].
      repeat split.
      * exact Hfst.
      * rewrite Hany. now rewrite orb_true_r.
      * intros i. rewrite Hget, append_indices_get, appended_app. reflexivity.
      * intros Hiv. apply Hnd. now apply append_indices_NoDup.
    + destruct (IH (acc ++ [r]) any iv) as [Hfst [Hany [Hget Hnd]]].
      repeat split.
      * rewrite Hfst. now rewrite <- app_assoc.
      * exact Hany.
      * exact Hget.
      * exact Hnd.
Qed.

(** *** The entries of a position and the rules that name it *)

Lemma count_occ_existsb (l : list nat) (i : nat) :
  existsb (Nat.eqb i) l = negb (count_occ Nat.eq_dec l i =? 0)%nat.
Proof.
  induction l as [| x l IH]; simpl; [reflexivity |].
  destruct (Nat.eq_dec x i) as [-> | Hne].
  - now rewrite Nat.eqb_refl.
  - destruct (Nat.eqb_spec i x); [congruence | exact IH].
Qed.

Lemma entries_at_cons (r : ConfigRule) (rules : list ConfigRule) (i : nat) :
  entries_at (r :: rules) i
  = (if is_IndexSelector (head r)
     then repeat r (count_occ Nat.eq_dec (head_indices (head r)) i)
     else [])
    ++ entries_at rules i.
Proof. reflexivity. Qed.

Lemma rules_at_position_cons (r : ConfigRule) (rules : list ConfigRule)
    (i : nat) :
  rules_at_position (r :: rules) i
  = (if is_IndexSelector (head r)
        && existsb (Nat.eqb i) (head_indices (head r))
     then [r] else [])
    ++ rules_at_position rules i.
Proof.
  unfold rules_at_position. simpl.
  now destruct (is_IndexSelector (head r)
                && existsb (Nat.eqb i) (head_indices (head r))).
Qed.

(** Each rule that names the position stands in its entries at least
    once, in the same order: the entries are the rules, some repeated
    in place. *)
Lemma entries_at_shape (r : ConfigRule) (i : nat) :
  (if is_IndexSelector (head r)
   then repeat r (count_occ Nat.eq_dec (head_indices (head r)) i)
   else [])
  = (if is_IndexSelector (head r)
        && existsb (Nat.eqb i) (head_indices (head r))
     then r :: repeat r (pred (count_occ Nat.eq_dec (head_indices (head r)) i))
     else []).
Proof.
  rewrite count_occ_existsb.
  destruct (is_IndexSelector (head r)); simpl; [| reflexivity].
  destruct (count_occ Nat.eq_dec (head_indices (head r)) i); reflexivity.
Qed.

Lemma entries_at_In (rules : list ConfigRule) (i : nat) (r : ConfigRule) :
  In r (entries_at rules i) <-> In r (rules_at_position rules i).
Proof.
  induction rules as [| x rules IH].
  - simpl. tauto.
  - rewrite entries_at_cons, rules_at_position_cons, entries_at_shape.
    rewrite !in_app_iff, IH.
    destruct (is_IndexSelector (head x)
              && existsb (Nat.eqb i) (head_indices (head x))); simpl.
    + split; [| tauto]. intros [[E | E] | E]; auto.
      apply repeat_spec in E. auto.
    + tauto.
Qed.

Lemma entries_at_hd (rules : list ConfigRule) (i : nat) :
  hd_error (entries_at rules i) = hd_error (rules_at_position rules i).
Proof.
  induction rules as [| x rules IH]; [reflexivity |].
  rewrite entries_at_cons, rules_at_position_cons, entries_at_shape.
  destruct (is_IndexSelector (head x)
            && existsb (Nat.eqb i) (head_indices (head x))); simpl; auto.
Qed.

Lemma step_fixed (r m : ConfigRule) (n : nat) :
  (if is_more_specific_than r (Some m) then r else m) = m ->
  fold_left step (repeat r n) m = m.
Proof.
  intros Hfix. induction n as [| n IH]; cbn [repeat fold_left].
  - reflexivity.
  - now rewrite Hfix.
Qed.

Lemma step_repeat (r init : ConfigRule) (n : nat) :
  fold_left step (repeat r n)
            (if is_more_specific_than r (Some init) then r else init)
  = (if is_more_specific_than r (Some init) then r else init).
Proof.
  apply step_fixed.
  destruct (is_more_specific_than r (Some init)) eqn:E.
  - now rewrite is_more_specific_than_self.
  - now rewrite E.
Qed.

Lemma entries_at_fold (rules : list ConfigRule) (i : nat) (init : ConfigRule) :
  fold_left step (entries_at rules i) init
  = fold_left step (rules_at_position rules i) init.
Proof.
  revert init. induction rules as [| x rules IH]; intros init; [reflexivity |].
  rewrite entries_at_cons, rules_at_position_cons, entries_at_shape.
  rewrite !fold_left_app.
  destruct (is_IndexSelector (head x)
            && existsb (Nat.eqb i) (head_indices (head x))).
  - cbn [fold_left]. rewrite step_repeat. apply IH.
  - apply IH.
Qed.

Lemma take_hd (l : list ConfigRule) :
  _take_most_specific_in_list l
  = match hd_error l with
    | None => Raise IndexError
    | Some first => Ok (fold_left step l first)
    end.
Proof. now destruct l. Qed.

Lemma entries_at_take (rules : list ConfigRule) (i : nat) :
  _take_most_specific_in_list (entries_at rules i)
  = _take_most_specific_in_list (rules_at_position rules i).
Proof.
  rewrite !take_hd, entries_at_hd.
  destruct (hd_error (rules_at_position rules i)); [| reflexivity].
  now rewrite entries_at_fold.
Qed.

Lemma entries_at_nil (rules : list ConfigRule) (i : nat) :
  entries_at rules i = [] <-> rules_at_position rules i = [].
Proof.
  pose proof (entries_at_hd rules i) as Hhd.
  destruct (entries_at rules i), (rules_at_position rules i);
    simpl in Hhd; split; intros; congruence.
Qed.

Lemma forallb_same_members {A : Type} (p : A -> bool) (l l' : list A) :
  (forall x, In x l <-> In x l') -> forallb p l = forallb p l'.
Proof.
  intros Hin.
  destruct (forallb p l) eqn:E, (forallb p l') eqn:E'; try reflexivity.
  - rewrite forallb_forall in E.
    assert (forallb p l' = true) by (apply forallb_forall; intros; apply E, Hin; auto).
    congruence.
  - rewrite forallb_forall in E'.
    assert (forallb p l = true) by (apply forallb_forall; intros; apply E', Hin; auto).
    congruence.
Qed.

(** *** The loop over the winner's items *)

Lemma fold_max_ltb (l : list Z) (z w : Z) :
  (fold_left Z.max l z <? w)%Z = ((z <? w)%Z && forallb (fun x => (x <? w)%Z) l).
Proof.
  revert z. induction l as [| x l IH]; intros z; simpl.
  - now rewrite andb_true_r.
  - rewrite IH, andb_assoc. f_equal.
    destruct (Z.ltb_spec (Z.max z x) w), (Z.ltb_spec z w), (Z.ltb_spec x w);
      simpl; try reflexivity; lia.
Qed.

Lemma forallb_over_map {A B : Type} (f : A -> B) (p : B -> bool) (l : list A) :
  forallb p (map f l) = forallb (fun x => p (f x)) l.
Proof.
  induction l as [| x l IH]; simpl; [reflexivity | now rewrite IH].
Qed.

Lemma py_max_specificity (rs : list ConfigRule) (w : Z) :
  rs <> [] ->
  exists m,
    py_max (map specificity rs) = Ok m
    /\ (w >? m)%Z = forallb (fun r => (specificity r <? w)%Z) rs.
Proof.
  intros Hne. destruct rs as [| r rs]; [congruence |].
  simpl. eexists. split; [reflexivity |].
  rewrite Z.gtb_ltb, fold_max_ltb. f_equal.
  now rewrite forallb_over_map.
Qed.

Lemma filled_idempotent (winner : ConfigRule) (o : option (list ConfigRule)) :
  filled winner (filled winner o) = filled winner o.
Proof.
  destruct o as [rs |]; simpl.
  - destruct (forallb (fun r => (specificity r <? specificity winner)%Z) rs)
      eqn:E; simpl.
    + now rewrite Z.ltb_irrefl.
    + now rewrite E.
  - now rewrite Z.ltb_irrefl.
Qed.

Lemma filled_nonempty (winner : ConfigRule) (o : option (list ConfigRule))
    (rs : list ConfigRule) :
  (forall l, o = Some l -> l <> []) ->
  filled winner o = Some rs -> rs <> [].
Proof.
  intros Hne. destruct o as [l |]; simpl.
  - destruct (forallb (fun r => (specificity r <? specificity winner)%Z) l);
      intros E; inversion E; subst; [discriminate | now apply Hne].
  - intros E; inversion E; discriminate.
Qed.

Lemma fill_missing_spec (idxs : list nat) (winner : ConfigRule)
    (iv : list (nat * list ConfigRule)) :
  (forall i rs, dict_get Nat.eqb iv i = Some rs -> rs <> []) ->
  exists iv',
    fill_missing idxs winner iv = Ok iv'
    /\ (forall i,
           dict_get Nat.eqb iv' i
           = if existsb (Nat.eqb i) idxs
             then filled winner (dict_get Nat.eqb iv i)
             else dict_get Nat.eqb iv i)
    /\ (NoDup (dict_keys iv) -> NoDup (dict_keys iv')).
Proof.
  revert iv. induction idxs as [| idx idxs IH]; intros iv Hne.
  - exists iv. simpl. auto.
  - assert (Hstep : exists iv1,
               fill_missing (idx :: idxs) winner iv
               = fill_missing idxs winner iv1
               /\ (forall i,
                      dict_get Nat.eqb iv1 i
                      = if Nat.eqb idx i
                        then filled winner (dict_get Nat.eqb iv idx)
                        else dict_get Nat.eqb iv i)
               /\ (NoDup (dict_keys iv) -> NoDup (dict_keys iv1))).
    { simpl. destruct (dict_get Nat.eqb iv idx) as [rs |] eqn:Hget.
      - destruct (py_max_specificity (specificity winner) (Hne _ _ Hget))
          as [m [Hmax Hcmp]].
        rewrite Hmax. simpl. rewrite Hcmp.
        destruct (forallb (fun r => (specificity r <? specificity winner)%Z) rs).
        + eexists. split; [reflexivity |]. split.
          * intros i. apply dict_get_set.
          * apply dict_keys_set_NoDup.
        + exists iv. split; [reflexivity |]. split; [| auto].
          intros i. destruct (Nat.eqb_spec idx i); congruence.
      - eexists. split; [reflexivity |]. split.
        + intros i. apply dict_get_set.
        + apply dict_keys_set_NoDup. }
    destruct Hstep as [iv1 [Heq [Hget1 Hnd1]]].
    destruct (IH iv1) as [iv' [Hfill [Hget' Hnd']]].
    { intros i rs. rewrite Hget1.
      destruct (Nat.eqb idx i).
      - apply filled_nonempty. apply Hne.
      - apply Hne. }
    exists iv'. split; [now rewrite Heq |]. split; [| auto].
    intros i. rewrite Hget', Hget1. simpl.
    destruct (Nat.eqb_spec i idx) as [-> | Hni].
    + rewrite Nat.eqb_refl. simpl.
      destruct (existsb (Nat.eqb idx) idxs); [apply filled_idempotent | reflexivity].
    + destruct (Nat.eqb_spec idx i); [congruence | reflexivity].
Qed.

(** *** Sorting the positions *)

Lemma insert_sorted_perm (n : nat) (l : list nat) :
  Permutation (insert_sorted n l) (n :: l).
Proof.
  induction l as [| m l IH]; simpl; [reflexivity |].
  destruct (n <=? m)%nat; [reflexivity |].
  rewrite IH. apply perm_swap.
Qed.

Lemma sort_perm (l : list nat) : Permutation (sort l) l.
Proof.
  induction l as [| n l IH]; simpl; [reflexivity |].
  rewrite insert_sorted_perm. now constructor.
Qed.

Lemma insert_sorted_sorted (n : nat) (l : list nat) :
  StronglySorted le l -> StronglySorted le (insert_sorted n l).
Proof.
  induction l as [| m l IH]; intros Hs; simpl.
  - repeat constructor.
  - inversion Hs as [| ? ? Hl Hall]; subst.
    destruct (Nat.leb_spec n m) as [Hle | Hgt].
    + constructor; [exact Hs |].
      constructor; [exact Hle |].
      eapply Forall_impl; [| exact Hall]. intros; lia.
    + constructor; [now apply IH |].
      apply (Permutation_Forall (Permutation_sym (insert_sorted_perm n l))).
      constructor; [lia | exact Hall].
Qed.

Lemma sort_sorted (l : list nat) : StronglySorted le (sort l).
Proof.
  induction l as [| n l IH]; simpl; [constructor |].
  now apply insert_sorted_sorted.
Qed.

Lemma sort_In (l : list nat) (i : nat) : In i (sort l) <-> In i l.
Proof.
  split; apply Permutation_in;
    [apply sort_perm | apply Permutation_sym, sort_perm].
Qed.

Lemma sort_NoDup (l : list nat) : NoDup l -> NoDup (sort l).
Proof.
  apply Permutation_NoDup, Permutation_sym, sort_perm.
Qed.

Lemma sorted_last_max (l : list nat) (j : nat) :
  StronglySorted le l -> In j l -> j <= last l 0.
Proof.
  revert j. induction l as [| x l IH]; intros j Hs Hin; [contradiction |].
  inversion Hs as [| ? ? Hl Hall]; subst.
  destruct l as [| y l].
  - destruct Hin as [-> | []]. simpl. lia.
  - change (last (x :: y :: l) 0) with (last (y :: l) 0).
    destruct Hin as [-> | Hin].
    + inversion Hall as [| ? ? Hxy _]; subst.
      specialize (IH y Hl (or_introl eq_refl)). lia.
    + now apply IH.
Qed.

Lemma sorted_range (n a : nat) (l : list nat) :
  StronglySorted le l -> NoDup l ->
  (forall i, In i l <-> a <= i < a + n) ->
  l = seq a n.
Proof.
  revert a l. induction n as [| n IH]; intros a l Hs Hnd Hin.
  - destruct l as [| x l]; [reflexivity |].
    specialize (proj1 (Hin x) (or_introl eq_refl)). lia.
  - destruct l as [| x l].
    + specialize (proj2 (Hin a)). simpl. intros Habs. exfalso. apply Habs. lia.
    + inversion Hs as [| ? ? Hl Hall]; subst.
      inversion Hnd as [| ? ? Hnotin Hnd']; subst.
      assert (Hx : x = a).
      { pose proof (proj1 (Hin x) (or_introl eq_refl)) as Hxr.
        destruct (proj2 (Hin a)) as [E | E]; [lia | auto |].
        rewrite Forall_forall in Hall. specialize (Hall _ E). lia. }
      subst x. simpl. f_equal. apply IH; try assumption.
      intros i. split.
      * intros Hi. pose proof (proj1 (Hin i) (or_intror Hi)).
        assert (i <> a) by (intros ->; contradiction). lia.
      * intros Hi. destruct (proj2 (Hin i)) as [E | E]; [lia | lia | exact E].
Qed.

(** *** The assertion *)

Lemma missing_indices_In (indices : list nat) (x : nat) :
  In x (missing_indices indices) <-> x < last indices 0 /\ ~ In x indices.
Proof.
  unfold missing_indices. rewrite filter_In, in_seq, negb_true_iff.
  split.
  - intros [[_ Hlt] Hex]. split; [exact Hlt |].
    intros Hin.
    assert (existsb (Nat.eqb x) indices = true)
      by (apply existsb_exists; exists x; split; [exact Hin | apply Nat.eqb_refl]).
    congruence.
  - intros [Hlt Hnot]. split; [lia |].
    destruct (existsb (Nat.eqb x) indices) eqn:E; [| reflexivity].
    apply existsb_exists in E. destruct E as [y [Hy Hxy]].
    apply Nat.eqb_eq in Hxy. subst. contradiction.
Qed.

Lemma assert_no_gaps_raises (indices : list nat) (key : string) :
  (exists missing,
      assert_no_gaps indices key
      = Raise (AssertionError (MissingIndices missing key)))
  <-> (exists x, x < last indices 0 /\ ~ In x indices).
Proof.
  unfold assert_no_gaps. split.
  - intros [missing Hraise].
    destruct (missing_indices indices) as [| x m] eqn:E; [discriminate |].
    exists x. apply missing_indices_In. rewrite E. now left.
  - intros [x Hx]. apply missing_indices_In in Hx.
    destruct (missing_indices indices) as [| y m]; [contradiction |].
    now exists (y :: m).
Qed.

Lemma assert_no_gaps_passes (indices : list nat) (key : string) :
  assert_no_gaps indices key = Ok tt
  <-> (forall x, x < last indices 0 -> In x indices).
Proof.
  unfold assert_no_gaps. split.
  - intros Hok x Hlt.
    destruct (missing_indices indices) as [| y m] eqn:E; [| discriminate].
    destruct (in_dec Nat.eq_dec x indices) as [Hin | Hnot]; [exact Hin |].
    assert (Hx : In x (missing_indices indices))
      by (apply missing_indices_In; auto).
    rewrite E in Hx. contradiction.
  - intros Hall.
    destruct (missing_indices indices) as [| y m] eqn:E; [reflexivity |].
    assert (Hy : In y (missing_indices indices)) by (rewrite E; now left).
    apply missing_indices_In in Hy. destruct Hy as [Hlt Hnot].
    exfalso. apply Hnot, Hall, Hlt.
Qed.

(** *** The most specific rule of each position *)

Lemma dict_get_of_entry {V : Type} (d : list (nat * V)) (k : nat) (v : V) :
  NoDup (dict_keys d) -> In (k, v) d -> dict_get Nat.eqb d k = Some v.
Proof.
  induction d as [| [k' v'] d IH]; intros Hnd Hin; [contradiction |].
  simpl in *. inversion Hnd as [| ? ? Hnotin Hnd']; subst.
  destruct Hin as [E | Hin].
  - inversion E; subst. now rewrite Nat.eqb_refl.
  - destruct (Nat.eqb_spec k k') as [-> | Hne]; [| now apply IH].
    exfalso. apply Hnotin. apply (in_map fst) in Hin. exact Hin.
Qed.

Lemma most_specific_for_key_spec (iv : list (nat * list ConfigRule)) :
  NoDup (dict_keys iv) ->
  (forall i rs, dict_get Nat.eqb iv i = Some rs -> rs <> []) ->
  exists most_specific_for_key,
    mapM (fun '(index, rules) =>
            rule <- _take_most_specific_in_list rules ;; Ok (index, rule))
         iv
    = Ok most_specific_for_key
    /\ (forall i rs,
           dict_get Nat.eqb iv i = Some rs ->
           exists rule,
             _take_most_specific_in_list rs = Ok rule
             /\ dict_get Nat.eqb most_specific_for_key i = Some rule).
Proof.
  induction iv as [| [k rs] iv IH]; intros Hnd Hne.
  - exists []. split; [reflexivity |]. intros i rs. discriminate.
  - inversion Hnd as [| ? ? Hnotin Hnd']; subst.
    destruct IH as [rest [Hmap Hget]]; [exact Hnd' | |].
    { intros i rs' Hi. apply (Hne i). simpl.
      destruct (Nat.eqb_spec i k) as [-> | Hik]; [| exact Hi].
      exfalso. apply Hnotin. apply dict_keys_get. congruence. }
    assert (Hrs : rs <> []).
    { apply (Hne k). simpl. now rewrite Nat.eqb_refl. }
    destruct rs as [| r rs]; [congruence |].
    exists ((k, fold_left step (r :: rs) r) :: rest).
    split.
    + cbn [mapM]. unfold _take_most_specific_in_list at 1.
      cbn [bind]. now rewrite Hmap.
    + intros i rs'. simpl.
      destruct (Nat.eqb_spec i k) as [-> | Hik].
      * intros E. inversion E; subst. eexists. split; reflexivity.
      * apply Hget.
Qed.

(** *** The indexed resolution of one key, step by step *)

Lemma existsb_seq (i n : nat) :
  existsb (Nat.eqb i) (seq 0 n) = (i <? n)%nat.
Proof.
  destruct (existsb (Nat.eqb i) (seq 0 n)) eqn:E;
    destruct (Nat.ltb_spec i n) as [Hlt | Hge]; try reflexivity.
  - apply existsb_exists in E. destruct E as [x [Hx Hix]].
    apply Nat.eqb_eq in Hix. subst. apply in_seq in Hx. lia.
  - assert (existsb (Nat.eqb i) (seq 0 n) = true).
    { apply existsb_exists. exists i. split; [apply in_seq; lia |].
      apply Nat.eqb_refl. }
    congruence.
Qed.

Lemma winner_candidates_length (rules : list ConfigRule) :
  (if (List.length (non_indexed rules) =? 0)%nat
   then [least_specific_rule] else non_indexed rules)
  = winner_candidates rules.
Proof.
  unfold winner_candidates. now destruct (non_indexed rules).
Qed.

Lemma appended_none_nonempty (l rs : list ConfigRule) :
  appended None l = Some rs -> rs <> [].
Proof.
  destruct l; simpl; intros E; inversion E; subst; discriminate.
Qed.

Lemma resolve_key_and_index_steps (getter : Getter) (hooks : HookStore)
    (self : Config) (k : string) (rules : list ConfigRule)
    (winner : ConfigRule) (wv : Value) :
  existsb (fun r => is_IndexSelector (head r)) rules = true ->
  _take_most_specific_in_list (winner_candidates rules) = Ok winner ->
  get_value getter hooks winner self = Ok wv ->
  exists (iv : list (nat * list ConfigRule)) (msfk : list (nat * ConfigRule)),
    (forall i,
        dict_get Nat.eqb iv i
        = if (i <? List.length (as_sequence wv))%nat
          then filled winner (appended None (entries_at rules i))
          else appended None (entries_at rules i))
    /\ NoDup (dict_keys iv)
    /\ (forall i rs,
           dict_get Nat.eqb iv i = Some rs ->
           exists rule,
             _take_most_specific_in_list rs = Ok rule
             /\ dict_get Nat.eqb msfk i = Some rule)
    /\ resolve_key_and_index getter hooks self k rules
       = (_ <- (match sort (dict_keys iv) with
                | [] => Raise IndexError
                | _ => Ok tt
                end) ;;
          _ <- assert_no_gaps (sort (dict_keys iv)) k ;;
          values <-
            mapM (fun i =>
                    match dict_get Nat.eqb msfk i with
                    | None => Raise KeyError
                    | Some rule => get_value getter hooks rule self
                    end)
                 (sort (dict_keys iv)) ;;
          values <- index_broadcast (sort (dict_keys iv)) msfk values ;;
          Ok (VList values)).
Proof.
  intros Hany Htake Hval.
  destruct (split_indexed_spec rules [] false []) as [Hfst [Hsnd [Hget Hnd]]].
  unfold resolve_key_and_index.
  destruct (split_indexed rules [] false []) as [[nonidx any] iv0].
  cbn [fst snd] in *. simpl in Hfst, Hsnd. subst nonidx any.
  rewrite winner_candidates_length, Htake. cbn [bind].
  rewrite Hval. cbn [bind]. rewrite Hany. cbn [negb].
  destruct (fill_missing_spec (seq 0 (List.length (as_sequence wv))) winner iv0)
    as [iv [Hfill [Hiv Hnd']]].
  { intros i rs. rewrite Hget. apply appended_none_nonempty. }
  assert (Hiv' : forall i,
             dict_get Nat.eqb iv i
             = if (i <? List.length (as_sequence wv))%nat
               then filled winner (appended None (entries_at rules i))
               else appended None (entries_at rules i)).
  { intros i. now rewrite Hiv, existsb_seq, Hget. }
  assert (Hnodup : NoDup (dict_keys iv)) by (apply Hnd', Hnd; constructor).
  destruct (@most_specific_for_key_spec iv Hnodup) as [msfk [Hmap Hmsfk]].
  { intros i rs. rewrite Hiv'.
    destruct (i <? List.length (as_sequence wv))%nat.
    - apply filled_nonempty. intros l. apply appended_none_nonempty.
    - apply appended_none_nonempty. }
  exists iv, msfk.
  split; [exact Hiv' |]. split; [exact Hnodup |]. split; [exact Hmsfk |].
  rewrite Hfill. cbn [bind]. rewrite Hmap. cbn [bind]. reflexivity.
Qed.

Lemma filled_some (winner : ConfigRule) (o : option (list ConfigRule)) :
  filled winner o <> None.
Proof.
  destruct o as [rs |]; simpl; [| discriminate].
  destruct (forallb (fun r => (specificity r <? specificity winner)%Z) rs);
    discriminate.
Qed.

Lemma covered_keys (rules : list ConfigRule) (winner : ConfigRule) (n : nat)
    (iv : list (nat * list ConfigRule)) :
  (forall i,
      dict_get Nat.eqb iv i
      = if (i <? n)%nat
        then filled winner (appended None (entries_at rules i))
        else appended None (entries_at rules i)) ->
  forall i, In i (sort (dict_keys iv)) <-> covered rules n i = true.
Proof.
  intros Hiv i. rewrite sort_In, dict_keys_get, Hiv. unfold covered.
  destruct (i <? n)%nat; cbn [orb].
  - split; [reflexivity |]. intros _. apply filled_some.
  - pose proof (entries_at_nil rules i) as Hnil.
    destruct (entries_at rules i) as [| e es];
      destruct (rules_at_position rules i) as [| r rs]; simpl.
    + split; [congruence | discriminate].
    + exfalso. destruct Hnil as [Hn _]. specialize (Hn eq_refl). discriminate.
    + exfalso. destruct Hnil as [_ Hn]. specialize (Hn eq_refl). discriminate.
    + split; [reflexivity | discriminate].
Qed.

Lemma last_In (l : list nat) : l <> [] -> In (last l 0) l.
Proof.
  induction l as [| x l IH]; intros Hne; [congruence |].
  destruct l as [| y l]; [now left |].
  right. apply IH. discriminate.
Qed.

(** C9. In the indexed resolution of a key, when some position is
    covered (by an index-specific rule or by the broadcast sequence)
    and a position below it is not, the assertion on missing indices
    fails, naming exactly the uncovered positions below a covered one;
    so with rules for positions 0 and 2 and nothing for position 1.
    The assertion itself fails exactly when some index below the last
    of the sorted indices is not among them. *)
Theorem C9_gap_in_indices_fails
    (getter : Getter) (hooks : HookStore) (self : Config) (k : string)
    (rules : list ConfigRule) (winner : ConfigRule) (wv : Value) (i j : nat) :
  existsb (fun r => is_IndexSelector (head r)) rules = true ->
  _take_most_specific_in_list (winner_candidates rules) = Ok winner ->
  get_value getter hooks winner self = Ok wv ->
  covered rules (List.length (as_sequence wv)) i = false ->
  covered rules (List.length (as_sequence wv)) j = true ->
  i < j ->
  (exists missing,
      resolve_key_and_index getter hooks self k rules
      = Raise (AssertionError (MissingIndices missing k))
      /\ In i missing
      /\ forall x,
          In x missing
          <-> covered rules (List.length (as_sequence wv)) x = false
              /\ exists y,
                  x < y /\ covered rules (List.length (as_sequence wv)) y = true)
  /\ (forall indices key',
         (exists missing,
             assert_no_gaps indices key'
             = Raise (AssertionError (MissingIndices missing key')))
         <-> (exists x, x < last indices 0 /\ ~ In x indices))
  /\ (forall indices key',
         assert_no_gaps indices key' = Ok tt
         <-> (forall x, x < last indices 0 -> In x indices)).
Proof.
  intros Hany Htake Hval Hi Hj Hlt.
  split; [| split; [apply assert_no_gaps_raises | apply assert_no_gaps_passes]].
  destruct (resolve_key_and_index_steps getter hooks self k rules Hany Htake Hval)
    as [iv [msfk [Hiv [_ [_ Hresolve]]]]].
  pose proof (covered_keys rules winner _ iv Hiv) as Hcov.
  set (indices := sort (dict_keys iv)) in *.
  assert (Hjin : In j indices) by now apply Hcov.
  assert (Hnotin : ~ In i indices) by (rewrite Hcov; congruence).
  assert (Hmax : j <= last indices 0)
    by (apply sorted_last_max; [apply sort_sorted | exact Hjin]).
  assert (Himiss : In i (missing_indices indices))
    by (apply missing_indices_In; split; [lia | exact Hnotin]).
  exists (missing_indices indices). split; [| split; [exact Himiss |]].
  - rewrite Hresolve.
    destruct indices as [| x l] eqn:E; [contradiction |]. cbn [bind].
    rewrite <- E in *. unfold assert_no_gaps.
    destruct (missing_indices indices); [contradiction | reflexivity].
  - intros x. rewrite missing_indices_In. split.
    + intros [Hx Hxnot]. split.
      * destruct (covered rules (List.length (as_sequence wv)) x) eqn:Ec;
          [| reflexivity].
        exfalso. apply Hxnot. now apply Hcov.
      * exists (last indices 0). split; [exact Hx |].
        apply Hcov. apply last_In. intros E. rewrite E in Hjin. contradiction.
    + intros [Hx [y [Hxy Hy]]]. split.
      * apply Hcov in Hy.
        assert (y <= last indices 0)
          by (apply sorted_last_max; [apply sort_sorted | exact Hy]).
        lia.
      * rewrite Hcov. congruence.
Qed.

(** *** Lists of values *)

Lemma list_set_spec {A : Type} (l : list A) (i : nat) (x : A) :
  i < List.length l ->
  exists l',
    list_set l i x = Ok l'
    /\ List.length l' = List.length l
    /\ forall j,
        nth_error l' j = if Nat.eqb j i then Some x else nth_error l j.
Proof.
  revert i. induction l as [| y l IH]; intros i Hlt; simpl in Hlt; [lia |].
  destruct i as [| i].
  - exists (x :: l). repeat split. intros [| j]; reflexivity.
  - destruct (IH i) as [l' [Hset [Hlen Hnth]]]; [lia |].
    exists (y :: l'). simpl. rewrite Hset. simpl. repeat split.
    + now rewrite Hlen.
    + intros [| j]; [reflexivity | apply Hnth].
Qed.

Lemma mapM_ok_nth {A B : Type} (g : A -> Result B) (l : list A)
    (values : list B) :
  mapM g l = Ok values ->
  List.length values = List.length l
  /\ forall i x,
      nth_error l i = Some x ->
      exists v, g x = Ok v /\ nth_error values i = Some v.
Proof.
  revert values. induction l as [| a l IH]; intros values Hmap; simpl in Hmap.
  - inversion Hmap; subst. split; [reflexivity |].
    intros [| i] x; discriminate.
  - destruct (g a) as [b | e] eqn:Ha; simpl in Hmap; [| discriminate].
    destruct (mapM g l) as [bs | e] eqn:Hl; simpl in Hmap; [| discriminate].
    inversion Hmap; subst.
    destruct (IH bs eq_refl) as [Hlen Hnth].
    split; [simpl; now rewrite Hlen |].
    intros [| i] x Hx; simpl in *.
    + inversion Hx; subst. now exists b.
    + now apply Hnth.
Qed.

Lemma mapM_ok_map {A B : Type} (f : A -> Result B) (h : A -> B) (l : list A) :
  (forall x, In x l -> f x = Ok (h x)) -> mapM f l = Ok (map h l).
Proof.
  induction l as [| a l IH]; intros Hall; simpl; [reflexivity |].
  rewrite (Hall a (or_introl eq_refl)). simpl.
  rewrite IH; [reflexivity |]. intros x Hx. apply Hall. now right.
Qed.

Lemma mapM_raise_transfer {A B : Type} (g f : A -> Result B) (l : list A)
    (e : Exception) :
  (forall x, In x l ->
             (forall e', g x = Raise e' -> f x = Raise e')
             /\ (forall v, g x = Ok v -> exists y, f x = Ok y)) ->
  mapM g l = Raise e -> mapM f l = Raise e.
Proof.
  induction l as [| a l IH]; intros Hall Hmap; simpl in *; [discriminate |].
  destruct (Hall a (or_introl eq_refl)) as [Hraise Hok].
  destruct (g a) as [b | e'] eqn:Ha; simpl in Hmap.
  - destruct (Hok b eq_refl) as [y Hy]. rewrite Hy. simpl.
    destruct (mapM g l) as [bs | e''] eqn:Hl; simpl in Hmap; [discriminate |].
    inversion Hmap; subst.
    rewrite IH; [reflexivity | | reflexivity].
    intros x Hx. apply Hall. now right.
  - inversion Hmap; subst. now rewrite (Hraise e eq_refl).
Qed.

Lemma index_broadcast_seq (msfk : list (nat * ConfigRule))
    (final : nat -> Value) (n a : nat) (values : list Value) :
  List.length values = a + n ->
  (forall i, a <= i < a + n ->
             exists rule v,
               dict_get Nat.eqb msfk i = Some rule
               /\ nth_error values i = Some v
               /\ if negb (is_IndexSelector (head rule))
                  then getitem v i = Ok (final i)
                  else v = final i) ->
  exists values',
    index_broadcast (seq a n) msfk values = Ok values'
    /\ List.length values' = List.length values
    /\ forall j,
        nth_error values' j
        = if (a <=? j)%nat && (j <? a + n)%nat
          then Some (final j) else nth_error values j.
Proof.
  revert a values. induction n as [| n IH]; intros a values Hlen Hpos.
  - exists values. simpl. repeat split. intros j.
    destruct (Nat.leb_spec a j), (Nat.ltb_spec j (a + 0)); simpl;
      try reflexivity; lia.
  - destruct (Hpos a) as [rule [v [Hrule [Hv Hfinal]]]]; [lia |].
    cbn [seq index_broadcast]. rewrite Hrule.
    destruct (negb (is_IndexSelector (head rule))).
    + unfold list_get. rewrite Hv. cbn [bind]. rewrite Hfinal. cbn [bind].
      destruct (@list_set_spec _ values a (final a)) as [values1 [Hset [Hlen1 Hnth1]]];
        [lia |].
      rewrite Hset. cbn [bind].
      destruct (IH (S a) values1) as [values' [Hrun [Hlen' Hnth']]].
      * rewrite Hlen1. lia.
      * intros i Hi. destruct (Hpos i) as [rule' [v' [Hr' [Hv' Hf']]]]; [lia |].
        exists rule', v'. repeat split; try assumption.
        rewrite Hnth1. destruct (Nat.eqb_spec i a); [lia | exact Hv'].
      * exists values'. split; [exact Hrun |]. split; [congruence |].
        intros j. rewrite Hnth', Hnth1.
        destruct (Nat.leb_spec (S a) j), (Nat.ltb_spec j (S a + n)),
          (Nat.leb_spec a j), (Nat.ltb_spec j (a + S n)), (Nat.eqb_spec j a);
          simpl; subst; try reflexivity; lia.
    + destruct (IH (S a) values) as [values' [Hrun [Hlen' Hnth']]].
      * lia.
      * intros i Hi. apply Hpos. lia.
      * exists values'. split; [exact Hrun |]. split; [exact Hlen' |].
        intros j. rewrite Hnth'.
        destruct (Nat.leb_spec (S a) j), (Nat.ltb_spec j (S a + n)),
          (Nat.leb_spec a j), (Nat.ltb_spec j (a + S n));
          simpl; try reflexivity; try lia.
        assert (j = a) by lia. subst j. now rewrite Hv, Hfinal.
Qed.

Lemma fold_step_In (l : list ConfigRule) (init : ConfigRule) :
  In (fold_left step l init) (init :: l).
Proof.
  revert init. induction l as [| r l IH]; intros init; cbn [fold_left].
  - now left.
  - destruct (IH (if is_more_specific_than r (Some init) then r else init))
      as [E | E].
    + destruct (is_more_specific_than r (Some init));
        [right; left | left]; exact E.
    + right. right. exact E.
Qed.

Lemma take_In (l : list ConfigRule) (r : ConfigRule) :
  _take_most_specific_in_list l = Ok r -> In r l.
Proof.
  destruct l as [| first l]; [discriminate |].
  unfold _take_most_specific_in_list. intros E. inversion E.
  destruct (fold_step_In (first :: l) first) as [E' | E']; [| exact E'].
  left. exact E'.
Qed.

Lemma getitem_sequence (v : Value) (i : nat) :
  is_sequence v = true -> getitem v i = list_get (as_sequence v) i.
Proof.
  destruct v; simpl; intros E; try discriminate; reflexivity.
Qed.

(** *** The rule chosen for each position *)

Lemma rules_at_position_indexed (rules : list ConfigRule) (i : nat)
    (r : ConfigRule) :
  In r (rules_at_position rules i) -> is_IndexSelector (head r) = true.
Proof.
  unfold rules_at_position. rewrite filter_In, andb_true_iff. tauto.
Qed.

Lemma position_cases (rules : list ConfigRule) (winner : ConfigRule) (n : nat)
    (iv : list (nat * list ConfigRule)) (msfk : list (nat * ConfigRule))
    (i : nat) :
  (forall i,
      dict_get Nat.eqb iv i
      = if (i <? n)%nat
        then filled winner (appended None (entries_at rules i))
        else appended None (entries_at rules i)) ->
  (forall i rs,
      dict_get Nat.eqb iv i = Some rs ->
      exists rule,
        _take_most_specific_in_list rs = Ok rule
        /\ dict_get Nat.eqb msfk i = Some rule) ->
  covered rules n i = true ->
  exists rule,
    dict_get Nat.eqb msfk i = Some rule
    /\ ((rule = winner
         /\ (i <? n)%nat
            && forallb (fun r => (specificity r <? specificity winner)%Z)
                       (rules_at_position rules i) = true)
        \/ (is_IndexSelector (head rule) = true
            /\ (i <? n)%nat
               && forallb (fun r => (specificity r <? specificity winner)%Z)
                          (rules_at_position rules i) = false
            /\ _take_most_specific_in_list (rules_at_position rules i)
               = Ok rule)).
Proof.
  intros Hiv Hmsfk Hcov.
  pose proof (Hiv i) as Hget.
  pose proof (entries_at_nil rules i) as Hnil.
  pose proof (entries_at_take rules i) as Htake.
  pose proof (forallb_same_members
                (fun r => (specificity r <? specificity winner)%Z)
                (entries_at rules i) (rules_at_position rules i)
                (entries_at_In rules i)) as Hall.
  unfold covered in Hcov.
  assert (Hindexed : forall rule,
             _take_most_specific_in_list (rules_at_position rules i) = Ok rule ->
             is_IndexSelector (head rule) = true).
  { intros rule E. apply take_In in E.
    now apply rules_at_position_indexed in E. }
  destruct (entries_at rules i) as [| e es] eqn:Hentries.
  - (* no entry: the position can only be covered by the sequence *)
    assert (Hrap : rules_at_position rules i = []) by now apply Hnil.
    rewrite Hrap in *. rewrite orb_false_r in Hcov.
    rewrite Hcov in Hget. simpl in Hget.
    destruct (Hmsfk i _ Hget) as [rule [Hrule Hfound]].
    rewrite take_single in Hrule. inversion Hrule; subst rule.
    exists winner. split; [exact Hfound |]. left. split; [reflexivity |].
    now rewrite Hcov.
  - assert (Happ : appended None (e :: es) = Some (e :: es)) by reflexivity.
    rewrite Happ in Hget.
    destruct (i <? n)%nat eqn:Hin; cbn [filled] in Hget.
    + rewrite Hall in Hget.
      destruct (forallb (fun r => (specificity r <? specificity winner)%Z)
                        (rules_at_position rules i)) eqn:Hless.
      * destruct (Hmsfk i _ Hget) as [rule [Hrule Hfound]].
        rewrite take_single in Hrule. inversion Hrule; subst rule.
        exists winner. split; [exact Hfound |]. now left.
      * destruct (Hmsfk i _ Hget) as [rule [Hrule Hfound]].
        rewrite Htake in Hrule.
        exists rule. split; [exact Hfound |]. right.
        split; [now apply Hindexed |]. now split.
    + destruct (Hmsfk i _ Hget) as [rule [Hrule Hfound]].
      rewrite Htake in Hrule.
      exists rule. split; [exact Hfound |]. right.
      split; [now apply Hindexed |]. now split.
Qed.

(** The indexed resolution of one key agrees with the resolution by
    position, when some rule applies to every position and gives a
    sequence, and the covered positions are those up to [last_position]. *)
Lemma resolve_key_and_index_broadcast (getter : Getter) (hooks : HookStore)
    (self : Config) (k : string) (rules : list ConfigRule)
    (winner : ConfigRule) (wv : Value) (last_position : nat) :
  existsb (fun r => is_IndexSelector (head r)) rules = true ->
  _take_most_specific_in_list (non_indexed rules) = Ok winner ->
  get_value getter hooks winner self = Ok wv ->
  is_sequence wv = true ->
  (forall i, covered rules (List.length (as_sequence wv)) i = true
             <-> i <= last_position) ->
  resolve_key_and_index getter hooks self k rules
  = broadcast_by_position getter hooks self rules last_position.
Proof.
  intros Hany Htake Hval Hseq Hcovered.
  assert (Hcand : winner_candidates rules = non_indexed rules).
  { unfold winner_candidates. destruct (non_indexed rules); [discriminate |].
    reflexivity. }
  assert (Hplain : is_IndexSelector (head winner) = false).
  { apply take_In in Htake. unfold non_indexed in Htake.
    apply filter_In in Htake. destruct Htake as [_ E].
    now apply negb_true_iff in E. }
  assert (Htake' : _take_most_specific_in_list (winner_candidates rules)
                   = Ok winner) by now rewrite Hcand.
  destruct (resolve_key_and_index_steps getter hooks self k rules
                                        Hany Htake' Hval)
    as [iv [msfk [Hiv [Hnodup [Hmsfk Hresolve]]]]].
  pose proof (covered_keys rules winner _ iv Hiv) as Hkeys.
  assert (Hindices : sort (dict_keys iv) = seq 0 (S last_position)).
  { apply sorted_range.
    - apply sort_sorted.
    - now apply sort_NoDup.
    - intros i. rewrite Hkeys, Hcovered. lia. }
  rewrite Hresolve, Hindices. clear Hresolve.
  unfold broadcast_by_position. rewrite Htake. cbn [bind]. rewrite Hval.
  cbn [bind].
  assert (Hgaps : assert_no_gaps (seq 0 (S last_position)) k = Ok tt).
  { apply assert_no_gaps_passes. intros x Hx.
    assert (Hlast : In (last (seq 0 (S last_position)) 0)
                       (seq 0 (S last_position)))
      by (apply last_In; discriminate).
    apply in_seq in Hlast. apply in_seq. lia. }
  rewrite Hgaps. cbn [seq bind].
  change (0 :: seq 1 last_position) with (seq 0 (S last_position)).
  set (items := as_sequence wv) in *.
  set (g := fun i =>
              match dict_get Nat.eqb msfk i with
              | Some rule => get_value getter hooks rule self
              | None => Raise KeyError
              end).
  set (bp := broadcast_position getter hooks self winner items rules).
  assert (Hpos : forall i,
             In i (seq 0 (S last_position)) ->
             (exists x,
                 dict_get Nat.eqb msfk i = Some winner
                 /\ g i = Ok wv /\ bp i = Ok x /\ getitem wv i = Ok x)
             \/ (exists rule,
                    dict_get Nat.eqb msfk i = Some rule
                    /\ is_IndexSelector (head rule) = true
                    /\ bp i = g i)).
  { intros i Hi. apply in_seq in Hi.
    destruct (@position_cases rules winner (List.length items) iv msfk i
                Hiv Hmsfk)
      as [rule [Hfound [[Hw Hcond] | [Hidx [Hcond Hrap]]]]].
    - apply Hcovered. lia.
    - subst rule. left.
      assert (Hlt : i < List.length items).
      { apply andb_true_iff in Hcond. destruct Hcond as [E _].
        now apply Nat.ltb_lt in E. }
      destruct (nth_error items i) as [x |] eqn:Hx;
        [| apply nth_error_None in Hx; lia].
      exists x. split; [exact Hfound |]. split; [| split].
      + unfold g. now rewrite Hfound.
      + unfold bp, broadcast_position. rewrite Hcond.
        unfold list_get. now rewrite Hx.
      + rewrite getitem_sequence by assumption. fold items.
        unfold list_get. now rewrite Hx.
    - right. exists rule. split; [exact Hfound |]. split; [exact Hidx |].
      unfold bp, broadcast_position, g. rewrite Hcond, Hrap, Hfound.
      reflexivity. }
  destruct (mapM g (seq 0 (S last_position))) as [values | e] eqn:Hmap.
  - cbn [bind].
    destruct (mapM_ok_nth _ _ Hmap) as [Hlen Hnth].
    rewrite length_seq in Hlen.
    set (final := fun i => match bp i with Ok x => x | Raise _ => VNone end).
    destruct (@index_broadcast_seq msfk final (S last_position) 0 values)
      as [values' [Hrun [Hlen' Hnth']]].
    + exact Hlen.
    + intros i Hi.
      assert (Hin : In i (seq 0 (S last_position))) by (apply in_seq; lia).
      assert (Hith : nth_error (seq 0 (S last_position)) i = Some i).
      { rewrite nth_error_seq.
        destruct (Nat.ltb_spec i (S last_position)); [reflexivity | lia]. }
      destruct (Hnth i i Hith) as [v [Hgi Hvi]].
      destruct (Hpos i Hin) as [[x [Hfound [Hg [Hbp Hitem]]]]
                               | [rule [Hfound [Hidx Hbp]]]].
      * exists winner, v. split; [exact Hfound |]. split; [exact Hvi |].
        rewrite Hplain. cbn [negb].
        assert (v = wv) by congruence. subst v.
        unfold final. now rewrite Hbp.
      * exists rule, v. split; [exact Hfound |]. split; [exact Hvi |].
        rewrite Hidx. cbn [negb]. unfold final. now rewrite Hbp, Hgi.
    + rewrite Hrun. cbn [bind].
      assert (Hvalues : values' = map final (seq 0 (S last_position))).
      { apply nth_error_ext. intros j.
        rewrite Hnth', nth_error_map, nth_error_seq. cbn [Nat.leb andb].
        rewrite Nat.add_0_l.
        destruct (Nat.ltb_spec j (S last_position)); [reflexivity |].
        apply nth_error_None. lia. }
      rewrite Hvalues.
      rewrite (mapM_ok_map bp final); [reflexivity |].
      intros i Hin. unfold final.
      destruct (Hpos i Hin) as [[x [_ [_ [Hbp _]]]] | [rule [_ [_ Hbp]]]].
      * now rewrite Hbp.
      * assert (Hith : nth_error (seq 0 (S last_position)) i = Some i).
        { apply in_seq in Hin. rewrite nth_error_seq.
          destruct (Nat.ltb_spec i (S last_position)); [reflexivity | lia]. }
        destruct (Hnth i i Hith) as [v [Hgi _]].
        now rewrite Hbp, Hgi.
  - cbn [bind].
    rewrite (@mapM_raise_transfer _ _ g bp _ e); [reflexivity | | exact Hmap].
    intros i Hin.
    destruct (Hpos i Hin) as [[x [_ [Hg [Hbp _]]]] | [rule [_ [_ Hbp]]]].
    + split; [intros e' E; congruence | intros v _; now exists x].
    + rewrite Hbp. split; [auto | intros v E; now exists v].
Qed.

Lemma get_indexed_key (fuel : nat) (hooks : HookStore) (self : Config)
    (selectors : Selector) (default_arg : option Value) (rd : bool)
    (k : string) (rules : list ConfigRule) :
  is_IndexSelector (snd (pop (_context self ++ selectors))) = false ->
  _get_all_matching_rules self selectors true true = rules ->
  Forall (fun r => key r = k) rules ->
  rules <> [] ->
  get (S fuel) hooks self selectors default_arg rd
  = resolve_key_and_index (get fuel hooks) hooks self k rules.
Proof.
  intros Hidx Hmatch Hkey Hne.
  rewrite get_unfold. unfold get_most_specific.
  rewrite Hidx. cbn [negb]. rewrite Hmatch, (merge_rules_same_key Hkey Hne).
  unfold _take_most_specific_per_key_and_index.
  cbn [_take_most_specific_per_key_and_index_loop].
  destruct (resolve_key_and_index (get fuel hooks) hooks self k rules);
    reflexivity.
Qed.

(** C4 (as amended). When [Config.get] resolves a key over a path that
    does not end in an index selector, and among the matching rules of
    the key a rule without an indexed head provides a sequence of
    length N while index-specific rules exist: each position takes the
    most specific index-specific rule when one there is at or above the
    non-indexed winner's specificity; every position within the
    sequence that no index-specific rule names, or only ones strictly
    less specific than the winner, receives the element of the
    winner's sequence at that position; positions beyond the sequence
    come from their index-specific rules. *)
Theorem C4_broadcast_on_non_indexed_path
    (fuel : nat) (hooks : HookStore) (self : Config) (selectors : Selector)
    (default_arg : option Value) (return_dict_if_multiple : bool)
    (k : string) (rules : list ConfigRule) (winner : ConfigRule) (wv : Value)
    (last_position : nat) :
  is_IndexSelector (snd (pop (_context self ++ selectors))) = false ->
  _get_all_matching_rules self selectors true true = rules ->
  Forall (fun r => key r = k) rules ->
  existsb (fun r => is_IndexSelector (head r)) rules = true ->
  _take_most_specific_in_list (non_indexed rules) = Ok winner ->
  get_value (get fuel hooks) hooks winner self = Ok wv ->
  is_sequence wv = true ->
  (forall i, covered rules (List.length (as_sequence wv)) i = true
             <-> i <= last_position) ->
  get (S fuel) hooks self selectors default_arg return_dict_if_multiple
  = broadcast_by_position (get fuel hooks) hooks self rules last_position.
Proof.
  intros Hidx Hmatch Hkey Hany Htake Hval Hseq Hcovered.
  rewrite (@get_indexed_key fuel hooks self selectors default_arg
             return_dict_if_multiple k rules Hidx Hmatch Hkey).
  - now apply resolve_key_and_index_broadcast with (winner := winner) (wv := wv).
  - intros ->. discriminate.
Qed.
End Properties.

(* ================================================================== *)
(** ** Further properties of the engine *)

Section MoreProperties.
Context `{SelectorContract}.

Local Notation "'step'" :=
  (fun most_specific rule =>
     if is_more_specific_than rule (Some most_specific)
     then rule else most_specific).
(** *** The most specific rule of a list *)

Lemma fold_step_stays (post : list ConfigRule) (r : ConfigRule) :
  Forall (fun x => (specificity x < specificity r)%Z) post ->
  fold_left step post r = r.
Proof.
  induction 1 as [| x post Hx _ IH]; cbn [fold_left]; [reflexivity |].
  rewrite is_more_specific_than_spec.
  destruct (Z.leb_spec (specificity r) (specificity x)); [lia | exact IH].
Qed.

Lemma fold_step_bounded (pre : list ConfigRule) (init r : ConfigRule) :
  (specificity init <= specificity r)%Z ->
  Forall (fun x => (specificity x <= specificity r)%Z) pre ->
  (specificity (fold_left step pre init) <= specificity r)%Z.
Proof.
  intros Hinit Hpre. revert init Hinit.
  induction Hpre as [| x pre Hx _ IH]; intros init Hinit; cbn [fold_left].
  - exact Hinit.
  - apply IH. now destruct (is_more_specific_than x (Some init)).
Qed.

Lemma take_of_decomposition (pre post : list ConfigRule) (r : ConfigRule) :
  Forall (fun x => (specificity x <= specificity r)%Z) pre ->
  Forall (fun x => (specificity x < specificity r)%Z) post ->
  _take_most_specific_in_list (pre ++ r :: post) = Ok r.
Proof.
  intros Hpre Hpost.
  assert (Hreach : forall init,
             (specificity init <= specificity r)%Z ->
             fold_left step (pre ++ r :: post) init = r).
  { intros init Hinit. rewrite fold_left_app. cbn [fold_left].
    rewrite is_more_specific_than_spec.
    pose proof (@fold_step_bounded pre init r Hinit Hpre) as Hle.
    apply Z.leb_le in Hle. rewrite Hle. now apply fold_step_stays. }
  destruct pre as [| first pre].
  - simpl app. rewrite take_cons. f_equal. now apply fold_step_stays.
  - unfold _take_most_specific_in_list. cbn [app]. f_equal.
    apply (Hreach first). inversion Hpre; assumption.
Qed.

Lemma fold_step_decomposed (l : list ConfigRule) (init : ConfigRule) :
  exists pre post,
    init :: l = pre ++ fold_left step l init :: post
    /\ Forall (fun x => (specificity x
                         <= specificity (fold_left step l init))%Z) pre
    /\ Forall (fun x => (specificity x
                         < specificity (fold_left step l init))%Z) post.
Proof.
  induction l as [| x l IH] using rev_ind.
  - exists [], []. simpl. repeat split; constructor.
  - destruct IH as [pre [post [Heq [Hpre Hpost]]]].
    rewrite fold_left_app. cbn [fold_left].
    set (m := fold_left step l init) in *.
    rewrite is_more_specific_than_spec.
    destruct (Z.leb_spec (specificity m) (specificity x)) as [Hle | Hgt].
    + exists (pre ++ m :: post), [].
      split; [| split; [| constructor]].
      * rewrite app_comm_cons, Heq. reflexivity.
      * apply Forall_app. split.
        -- eapply Forall_impl; [| exact Hpre]. intros; cbv beta in *; lia.
        -- constructor; [exact Hle |].
           eapply Forall_impl; [| exact Hpost]. intros; cbv beta in *; lia.
    + exists pre, (post ++ [x]).
      split; [| split; [exact Hpre |]].
      * rewrite app_comm_cons, Heq, <- app_assoc. reflexivity.
      * apply Forall_app. split; [exact Hpost |]. constructor; [lia | constructor].
Qed.

Lemma take_decomposed (rules : list ConfigRule) (r : ConfigRule) :
  _take_most_specific_in_list rules = Ok r ->
  exists pre post,
    rules = pre ++ r :: post
    /\ Forall (fun x => (specificity x <= specificity r)%Z) pre
    /\ Forall (fun x => (specificity x < specificity r)%Z) post.
Proof.
  destruct rules as [| first l]; [discriminate |].
  rewrite take_cons. intros E. inversion E as [Hr].
  apply fold_step_decomposed.
Qed.

(** X1. [_take_most_specific_in_list] raises [IndexError] on an empty
    list; on any other list it returns the rule of greatest
    specificity that comes last: every rule before it is at most as
    specific, every rule after it strictly less. *)
Theorem take_most_specific_is_last_maximum :
  _take_most_specific_in_list [] = Raise IndexError
  /\ (forall rules, rules <> [] ->
                    exists r, _take_most_specific_in_list rules = Ok r)
  /\ (forall rules r,
         _take_most_specific_in_list rules = Ok r ->
         exists pre post,
           rules = pre ++ r :: post
           /\ Forall (fun x => (specificity x <= specificity r)%Z) pre
           /\ Forall (fun x => (specificity x < specificity r)%Z) post)
  /\ (forall pre r post,
         Forall (fun x => (specificity x <= specificity r)%Z) pre ->
         Forall (fun x => (specificity x < specificity r)%Z) post ->
         _take_most_specific_in_list (pre ++ r :: post) = Ok r).
Proof.
  split; [reflexivity |]. split; [| split].
  - intros [| first l] Hne; [congruence |]. rewrite take_cons. eauto.
  - apply take_decomposed.
  - intros pre r post. apply take_of_decomposition.
Qed.

(** X2. The cascade of [Config.get]: when the rules matching a path are
    all filed under one key, [get] returns the value of the rule of
    greatest specificity that was registered last, whatever the number
    of rules (on a path not ending in an index, the rules having no
    indexed head). *)
Theorem get_returns_last_most_specific
    (fuel : nat) (hooks : HookStore) (self : Config) (selectors : Selector)
    (default_arg : option Value) (return_dict_if_multiple : bool)
    (pre post : list ConfigRule) (r : ConfigRule) (v : Value) :
  _get_all_matching_rules self selectors true
    (negb (is_IndexSelector (snd (pop (_context self ++ selectors)))))
  = pre ++ r :: post ->
  Forall (fun x => key x = key r) (pre ++ r :: post) ->
  Forall (fun x => (specificity x <= specificity r)%Z) pre ->
  Forall (fun x => (specificity x < specificity r)%Z) post ->
  is_IndexSelector (snd (pop (_context self ++ selectors))) = true
  \/ Forall (fun x => is_IndexSelector (head x) = false) (pre ++ r :: post) ->
  get_value (get fuel hooks) hooks r self = Ok v ->
  get (S fuel) hooks self selectors default_arg return_dict_if_multiple = Ok v.
Proof.
  intros Hmatch Hkey Hpre Hpost Hshape Hval.
  eapply get_single_key with (k := key r) (winner := r).
  - exact Hmatch.
  - exact Hkey.
  - exact Hshape.
  - now apply take_of_decomposition.
  - exact Hval.
Qed.
(** *** Dictionaries keyed by name *)

Lemma sdict_get_set {V : Type} (d : list (string * V)) (k k' : string) (v : V) :
  dict_get String.eqb (dict_set String.eqb d k v) k'
  = if String.eqb k k' then Some v else dict_get String.eqb d k'.
Proof.
  induction d as [| [k0 v0] d IH]; simpl.
  - rewrite (String.eqb_sym k' k). reflexivity.
  - destruct (String.eqb_spec k k0) as [-> | Hk]; simpl.
    + rewrite (String.eqb_sym k' k0).
      destruct (String.eqb_spec k0 k'); reflexivity.
    + rewrite IH.
      destruct (String.eqb_spec k' k0) as [-> | Hk'];
        [| reflexivity].
      destruct (String.eqb_spec k k0); [contradiction | reflexivity].
Qed.

Lemma sdict_keys_get {V : Type} (d : list (string * V)) (k : string) :
  In k (dict_keys d) <-> dict_get String.eqb d k <> None.
Proof.
  induction d as [| [k' v'] d IH]; simpl.
  - tauto.
  - destruct (String.eqb_spec k k') as [-> | Hne].
    + split; [discriminate | auto].
    + rewrite <- IH. split; [intros [E | E]; congruence || assumption | auto].
Qed.

Lemma sdict_keys_set_NoDup {V : Type} (d : list (string * V)) (k : string)
    (v : V) :
  NoDup (dict_keys d) -> NoDup (dict_keys (dict_set String.eqb d k v)).
Proof.
  induction d as [| [k' v'] d IH]; simpl; intros Hnd.
  - constructor; [tauto | constructor].
  - inversion Hnd as [| ? ? Hnotin Hrest]; subst.
    destruct (String.eqb_spec k k') as [-> | Hne]; simpl.
    + now constructor.
    + constructor; [| now apply IH].
      rewrite sdict_keys_get, sdict_get_set.
      destruct (String.eqb_spec k k'); [contradiction |].
      now rewrite <- sdict_keys_get.
Qed.

Lemma sdict_set_fresh {V : Type} (d : list (string * V)) (k : string) (v : V) :
  dict_get String.eqb d k = None ->
  dict_set String.eqb d k v = d ++ [(k, v)].
Proof.
  induction d as [| [k' v'] d IH]; simpl; intros Hget; [reflexivity |].
  destruct (String.eqb k k'); [discriminate |]. now rewrite IH.
Qed.

Lemma sdict_get_of_entry {V : Type} (d : list (string * V)) (k : string)
    (v : V) :
  NoDup (dict_keys d) -> In (k, v) d -> dict_get String.eqb d k = Some v.
Proof.
  induction d as [| [k' v'] d IH]; intros Hnd Hin; [contradiction |].
  simpl in *. inversion Hnd as [| ? ? Hnotin Hnd']; subst.
  destruct Hin as [E | Hin].
  - inversion E; subst. now rewrite String.eqb_refl.
  - destruct (String.eqb_spec k k') as [-> | Hne]; [| now apply IH].
    exfalso. apply Hnotin. apply (in_map fst) in Hin. exact Hin.
Qed.

(** *** Grouping the rules by key *)

Lemma sdict_get_append (d : list (string * list ConfigRule)) (k k' : string)
    (r : ConfigRule) :
  dict_get String.eqb (dict_append String.eqb d k r) k'
  = if String.eqb k k' then appended (dict_get String.eqb d k) [r]
    else dict_get String.eqb d k'.
Proof.
  unfold dict_append.
  destruct (dict_get String.eqb d k) as [xs |] eqn:Hget;
    rewrite sdict_get_set; destruct (String.eqb k k'); reflexivity.
Qed.

Lemma merge_rules_fold_get (rules : list ConfigRule)
    (d : list (string * list ConfigRule)) (k : string) :
  dict_get String.eqb
    (fold_left (fun merged rule => dict_append String.eqb merged (key rule) rule)
               rules d) k
  = appended (dict_get String.eqb d k)
             (filter (fun r => String.eqb (key r) k) rules).
Proof.
  revert d. induction rules as [| r rules IH]; intros d; simpl.
  - destruct (dict_get String.eqb d k); simpl; now rewrite ?app_nil_r.
  - rewrite IH, sdict_get_append.
    destruct (String.eqb_spec (key r) k) as [E | E].
    + rewrite E. now rewrite appended_app.
    + reflexivity.
Qed.

Lemma merge_rules_fold_NoDup (rules : list ConfigRule)
    (d : list (string * list ConfigRule)) :
  NoDup (dict_keys d) ->
  NoDup (dict_keys
           (fold_left
              (fun merged rule => dict_append String.eqb merged (key rule) rule)
              rules d)).
Proof.
  revert d. induction rules as [| r rules IH]; intros d Hnd; simpl.
  - exact Hnd.
  - apply IH. unfold dict_append.
    destruct (dict_get String.eqb d (key r)); now apply sdict_keys_set_NoDup.
Qed.

Lemma merge_rules_get (rules : list ConfigRule) (k : string) :
  dict_get String.eqb (_merge_rules_on_key rules) k
  = match filter (fun r => String.eqb (key r) k) rules with
    | [] => None
    | group => Some group
    end.
Proof.
  unfold _merge_rules_on_key. rewrite merge_rules_fold_get. simpl.
  now destruct (filter (fun r => String.eqb (key r) k) rules).
Qed.

Lemma merge_rules_NoDup (rules : list ConfigRule) :
  NoDup (dict_keys (_merge_rules_on_key rules)).
Proof.
  apply merge_rules_fold_NoDup. constructor.
Qed.

(** X3. [_merge_rules_on_key] files every rule under its key and
    nothing else: the keys of the result are distinct, and the group
    of a key is the list of the rules with that key, in the order of
    the rule list; a key without rules has no group. *)
Theorem merge_rules_on_key_groups (rules : list ConfigRule) :
  NoDup (dict_keys (_merge_rules_on_key rules))
  /\ (forall k,
         dict_get String.eqb (_merge_rules_on_key rules) k
         = match filter (fun r => String.eqb (key r) k) rules with
           | [] => None
           | group => Some group
           end)
  /\ (forall k group,
         In (k, group) (_merge_rules_on_key rules) ->
         group <> []
         /\ group = filter (fun r => String.eqb (key r) k) rules)
  /\ (forall r, In r rules ->
                exists group,
                  In (key r, group) (_merge_rules_on_key rules)
                  /\ In r group).
Proof.
  split; [apply merge_rules_NoDup |]. split; [apply merge_rules_get |]. split.
  - intros k group Hin.
    pose proof (@sdict_get_of_entry _ _ k group (merge_rules_NoDup rules) Hin)
      as Hget.
    rewrite merge_rules_get in Hget.
    destruct (filter (fun r => String.eqb (key r) k) rules) as [| x l];
      [discriminate |].
    inversion Hget; subst. split; [discriminate | reflexivity].
  - intros r Hr.
    assert (Hfil : In r (filter (fun x => String.eqb (key x) (key r)) rules)).
    { apply filter_In. split; [exact Hr | apply String.eqb_refl]. }
    pose proof (merge_rules_get rules (key r)) as Hget.
    destruct (filter (fun x => String.eqb (key x) (key r)) rules)
      as [| x l] eqn:E; [contradiction |].
    exists (x :: l). split; [| exact Hfil].
    clear - Hget. revert Hget.
    induction (_merge_rules_on_key rules) as [| [k' g'] d IH]; simpl;
      [discriminate |].
    destruct (String.eqb_spec (key r) k') as [-> | Hne].
    + intros E. inversion E; subst. now left.
    + intros E. right. now apply IH.
Qed.

(** *** Lookups that find nothing *)

Lemma merge_rules_nil : _merge_rules_on_key [] = [].
Proof. reflexivity. Qed.

Lemma get_no_match (fuel : nat) (hooks : HookStore) (self : Config)
    (selectors : Selector) (default_arg : option Value) (rd : bool) :
  _get_all_matching_rules self selectors true
    (negb (is_IndexSelector (snd (pop (_context self ++ selectors))))) = [] ->
  get (S fuel) hooks self selectors default_arg rd
  = match default_arg with
    | Some d => Ok d
    | None => Raise (ValueError (NoKeysMatch (_context self ++ selectors)))
    end.
Proof.
  intros Hmatch.
  assert (Hms : get_most_specific (get fuel hooks) hooks self selectors = Ok []).
  { unfold get_most_specific. rewrite Hmatch, merge_rules_nil.
    now destruct (negb (is_IndexSelector
                          (snd (pop (_context self ++ selectors))))). }
  now rewrite get_unfold, Hms.
Qed.

(** X4. When no rule matches the path, [Config.get] returns the
    caller's default if one is given and otherwise raises [ValueError]
    naming the full path, on indexed and non-indexed paths alike; so
    for every lookup in a configuration without rules. *)
Theorem get_without_match
    (fuel : nat) (hooks : HookStore) (self : Config) (selectors : Selector)
    (return_dict_if_multiple : bool) :
  _get_all_matching_rules self selectors true
    (negb (is_IndexSelector (snd (pop (_context self ++ selectors))))) = [] ->
  (forall d,
      get (S fuel) hooks self selectors (Some d) return_dict_if_multiple = Ok d)
  /\ get (S fuel) hooks self selectors default_obj return_dict_if_multiple
     = Raise (ValueError (NoKeysMatch (_context self ++ selectors))).
Proof.
  intros Hmatch. split; [intros d |]; now rewrite get_no_match.
Qed.

(** X5. At the root (empty context) the rules that contribute
    parameters are exactly those whose selector is empty, whatever the
    selector contract; and [get_module] finds nothing there, whatever
    the rules: it raises [ValueError] for the empty path. *)
Theorem root_parameters_and_module
    (fuel : nat) (hooks : HookStore) (self : Config) :
  _context self = NoneSelector ->
  (forall allow_indexed,
      _get_all_matching_rules self NoneSelector false allow_indexed
      = filter (fun r => is_NoneSelector (selector r)) (_rules self))
  /\ get_module (S fuel) hooks self
     = Raise (ValueError (NoKeysMatch NoneSelector)).
Proof.
  intros Hctx. split.
  - intros allow_indexed. unfold _get_all_matching_rules.
    rewrite Hctx. apply filter_ext. intros r. unfold matches.
    cbn [app is_NoneSelector]. rewrite andb_true_r, orb_true_r.
    now destruct (is_NoneSelector (selector r)).
  - unfold get_module.
    assert (Hnone : _get_all_matching_rules self NoneSelector true
                      (negb (is_IndexSelector
                               (snd (pop (_context self ++ NoneSelector)))))
                    = []).
    { unfold _get_all_matching_rules. rewrite Hctx. cbn.
      induction (_rules self) as [| r rules IH]; [reflexivity |].
      cbn [filter]. unfold matches at 1.
      replace (is_NoneSelector
                 (selector r ++ [Plain (ClassSelector (key r))])) with false
        by (now destruct (selector r)).
      cbn. exact IH. }
    rewrite get_no_match by exact Hnone.
    now rewrite Hctx.
Qed.
(** *** Keys whose value is not ready *)

(** What the loop of [_take_most_specific_per_key] computes for one
    key before it decides to keep or to skip it. *)
Local Notation "'resolved' getter hooks self rules" :=
  (bind (_take_most_specific_in_list rules)
        (fun rule => get_value getter hooks rule self))
  (at level 10, getter at level 9, hooks at level 9, self at level 9,
   rules at level 9).

Lemma per_key_loop_never_value_error (getter : Getter) (hooks : HookStore)
    (self : Config) (items : list (string * list ConfigRule))
    (acc : list (string * Value)) (e : Exception) :
  _take_most_specific_per_key_loop getter hooks self items acc = Raise e ->
  e <> TypeError /\ forall m, e <> ValueError m.
Proof.
  revert acc. induction items as [| [k rules] items IH]; intros acc; simpl.
  - discriminate.
  - destruct (resolved getter hooks self rules) as [v | e'].
    + apply IH.
    + destruct e'; try apply IH;
        intros E; inversion E; subst; split; intros; discriminate.
Qed.

Lemma per_key_loop_ready (getter : Getter) (hooks : HookStore)
    (self : Config) (items : list (string * list ConfigRule))
    (acc : list (string * Value)) :
  NoDup (dict_keys acc ++ dict_keys items) ->
  (forall k rules,
      In (k, rules) items ->
      match resolved getter hooks self rules with
      | Ok _ | Raise (ValueError _) | Raise TypeError => True
      | Raise _ => False
      end) ->
  _take_most_specific_per_key_loop getter hooks self items acc
  = Ok (acc
          ++ flat_map (fun '(k, rules) =>
                         match resolved getter hooks self rules with
                         | Ok v => [(k, v)]
                         | Raise _ => []
                         end)
                      items).
Proof.
  revert acc. induction items as [| [k rules] items IH]; intros acc Hnd Hok.
  - simpl. now rewrite app_nil_r.
  - pose proof (Hok k rules (or_introl eq_refl)) as Hk.
    assert (Hrest : forall k' rules',
               In (k', rules') items ->
               match resolved getter hooks self rules' with
               | Ok _ | Raise (ValueError _) | Raise TypeError => True
               | Raise _ => False
               end) by (intros k' rules' Hin; apply (Hok k'); now right).
    cbn [_take_most_specific_per_key_loop flat_map].
    destruct (resolved getter hooks self rules) as [v | e].
    + assert (Hfresh : dict_get String.eqb acc k = None).
      { destruct (dict_get String.eqb acc k) eqn:E; [| reflexivity].
        exfalso. simpl in Hnd. apply NoDup_remove_2 in Hnd. apply Hnd.
        apply in_or_app. left. apply sdict_keys_get. congruence. }
      rewrite (@sdict_set_fresh _ acc k v Hfresh), IH.
      * now rewrite <- app_assoc.
      * unfold dict_keys in *. rewrite map_app, <- app_assoc. exact Hnd.
      * exact Hrest.
    + assert (Hnd' : NoDup (dict_keys acc ++ dict_keys items))
        by (simpl in Hnd; now apply NoDup_remove_1 in Hnd).
      destruct e; try contradiction; now rewrite IH.
Qed.

(** X6. [get_parameters(create=False)] never fails with [ValueError] or
    [TypeError]: a key whose most specific rule cannot be resolved yet
    (a hook that has not run, a reference that finds nothing) is left
    out, and the remaining keys are returned, each with the value of
    its most specific rule, in the order in which the keys first occur
    in the rule list. *)
Theorem get_parameters_skips_unready
    (fuel : nat) (hooks : HookStore) (self : Config) :
  (forall e, get_parameters fuel hooks self = Raise e ->
             e <> TypeError /\ forall m, e <> ValueError m)
  /\ ((forall k rules,
          In (k, rules)
             (_merge_rules_on_key
                (_get_all_matching_rules self NoneSelector false false)) ->
          match resolved (get fuel hooks) hooks self rules with
          | Ok _ | Raise (ValueError _) | Raise TypeError => True
          | Raise _ => False
          end) ->
      get_parameters fuel hooks self
      = Ok (flat_map (fun '(k, rules) =>
                        match resolved (get fuel hooks) hooks self rules with
                        | Ok v => [(k, v)]
                        | Raise _ => []
                        end)
                     (_merge_rules_on_key
                        (_get_all_matching_rules self NoneSelector
                                                 false false)))).
Proof.
  split.
  - intros e. apply per_key_loop_never_value_error.
  - intros Hok. unfold get_parameters, _take_most_specific_per_key.
    rewrite per_key_loop_ready; [reflexivity | | exact Hok].
    apply merge_rules_NoDup.
Qed.

(** X7. A rule whose value cannot be resolved (its hook has not run,
    its reference finds nothing) surfaces differently by the kind of
    path: on a path ending in an index selector the [ValueError] or
    [TypeError] is swallowed and [get] answers as if nothing matched,
    with the caller's default or "no keys match"; on any other path,
    when no matching rule has an indexed head, the error of the rule
    itself reaches the caller, default or not.  The matching rules
    are those of one key. *)
Theorem get_unready_rule_by_path_kind
    (fuel : nat) (hooks : HookStore) (self : Config) (selectors : Selector)
    (default_arg : option Value) (return_dict_if_multiple : bool)
    (k : string) (rules : list ConfigRule) (winner : ConfigRule)
    (e : Exception) :
  _get_all_matching_rules self selectors true
    (negb (is_IndexSelector (snd (pop (_context self ++ selectors)))))
  = rules ->
  Forall (fun r => key r = k) rules ->
  _take_most_specific_in_list rules = Ok winner ->
  get_value (get fuel hooks) hooks winner self = Raise e ->
  e = TypeError \/ (exists m, e = ValueError m) ->
  (is_IndexSelector (snd (pop (_context self ++ selectors))) = true ->
   get (S fuel) hooks self selectors default_arg return_dict_if_multiple
   = match default_arg with
     | Some d => Ok d
     | None => Raise (ValueError (NoKeysMatch (_context self ++ selectors)))
     end)
  /\ (is_IndexSelector (snd (pop (_context self ++ selectors))) = false ->
      Forall (fun r => is_IndexSelector (head r) = false) rules ->
      get (S fuel) hooks self selectors default_arg return_dict_if_multiple
      = Raise e).
Proof.
  intros Hmatch Hkey Htake Hval Hkind.
  assert (Hne : rules <> []) by (intros ->; discriminate).
  split.
  - intros Hidx. rewrite get_unfold. unfold get_most_specific.
    rewrite Hidx in *. cbn [negb] in *.
    rewrite Hmatch, (merge_rules_same_key Hkey Hne).
    unfold _take_most_specific_per_key.
    cbn [_take_most_specific_per_key_loop]. rewrite Htake. cbn [bind].
    rewrite Hval.
    destruct Hkind as [-> | [m ->]]; reflexivity.
  - intros Hidx Hplain. rewrite Hidx in Hmatch. cbn [negb] in Hmatch.
    rewrite (@get_indexed_key _ fuel hooks self selectors default_arg
               return_dict_if_multiple k rules Hidx Hmatch Hkey Hne).
    now rewrite (@resolve_key_plain _ _ _ _ _ _ _ Hplain Htake).
Qed.
(** *** Setting values *)

Lemma pop_app (s : Selector) : fst (pop s) ++ snd (pop s) = s.
Proof.
  destruct s as [| x s]; [reflexivity |].
  destruct (@pop_last (x :: s)) as [y [Hy Hs]]; [discriminate |].
  now rewrite Hy, <- Hs.
Qed.

Lemma pop_snoc (l : Selector) (z : Segment) : pop (l ++ [z]) = (l, [z]).
Proof.
  induction l as [| a l IH]; [reflexivity |].
  cbn [app]. destruct (l ++ [z]) as [| b r] eqn:E.
  - now destruct l.
  - change (pop (a :: b :: r))
      with (let '(body, hd) := pop (b :: r) in (a :: body, hd)).
    now rewrite IH.
Qed.

(** The rule that [set] appends. *)
Lemma set_ok (self : Config) (selectors : Selector) (v : RuleValue)
    (as_default : bool) :
  selectors <> NoneSelector \/ _context self <> NoneSelector ->
  exists rule,
    set self selectors v as_default
    = Ok {| _rules := _rules self ++ [rule];
            _refs := _refs self; _context := _context self |}
    /\ selector rule ++ head rule = _context self ++ selectors
    /\ selector rule
       = (if is_NoneSelector selectors then fst (pop (_context self))
          else _context self ++ fst (pop selectors))
    /\ head rule = snd (pop (_context self ++ selectors))
    /\ key rule = Selector_key (head rule)
    /\ value rule = v
    /\ specificity rule = (if as_default then 0 else 1)%Z
    /\ default rule = as_default
    /\ scope_root rule = NoneSelector.
Proof.
  intros Hsome. unfold set.
  destruct selectors as [| x sel].
  - destruct Hsome as [Habs | Hctx]; [now elim Habs |].
    destruct (_context self) as [| y ctx] eqn:Ectx; [now elim Hctx |].
    cbn [is_NoneSelector bind]. rewrite app_nil_r.
    destruct (pop (y :: ctx)) as [body hd] eqn:Epop.
    pose proof (pop_app (y :: ctx)) as Happ. rewrite Epop in Happ.
    cbn [fst snd] in Happ.
    eexists. split; [reflexivity |].
    destruct as_default; cbn; repeat split; auto.
  - cbn [is_NoneSelector].
    destruct (pop (x :: sel)) as [body hd] eqn:Epop. cbn [bind].
    pose proof (pop_app (x :: sel)) as Happ. rewrite Epop in Happ.
    cbn [fst snd] in Happ.
    assert (Hhd : snd (pop (_context self ++ x :: sel)) = hd).
    { destruct (@pop_last (x :: sel)) as [z [Hz _]]; [discriminate |].
      rewrite Epop in Hz. cbn [snd] in Hz. subst hd.
      rewrite <- Happ, app_assoc. now rewrite pop_snoc. }
    eexists. split; [reflexivity |].
    rewrite Hhd.
    destruct as_default; cbn; rewrite <- ?app_assoc, ?Happ; repeat split; auto.
Qed.

(** X8. [set] fails exactly when it is given no selector on a
    configuration without context; otherwise it appends one rule at
    the end of the rule list and changes nothing else: the rule
    addresses the context followed by the selectors, its head being
    the last segment; it holds the value, is a default rule exactly
    when asked, and has an empty scope root. *)
Theorem set_appends_one_rule
    (self : Config) (selectors : Selector) (v : RuleValue) (as_default : bool) :
  match set self selectors v as_default with
  | Raise e =>
      selectors = NoneSelector /\ _context self = NoneSelector
      /\ e = ValueError NoContextNoSelector
  | Ok after =>
      (selectors <> NoneSelector \/ _context self <> NoneSelector)
      /\ _context after = _context self
      /\ _refs after = _refs self
      /\ exists rule,
          _rules after = _rules self ++ [rule]
          /\ selector rule ++ head rule = _context self ++ selectors
          /\ head rule = snd (pop (_context self ++ selectors))
          /\ key rule = Selector_key (head rule)
          /\ value rule = v
          /\ specificity rule = (if as_default then 0 else 1)%Z
          /\ default rule = as_default
          /\ scope_root rule = NoneSelector
  end.
Proof.
  destruct selectors as [| x sel] eqn:Esel.
  - destruct (_context self) as [| y ctx] eqn:Ectx.
    + unfold set. rewrite Ectx. cbn. auto.
    + destruct (@set_ok self [] v as_default)
        as [rule [Hset [Hpath [_ [Hhead [Hkey [Hv [Hs [Hd Hr]]]]]]]]];
        [right; rewrite Ectx; discriminate |].
      rewrite Hset. cbn [_rules _refs _context].
      rewrite Ectx in *.
      split; [right; discriminate |]. repeat split; try reflexivity.
      exists rule. repeat split; assumption.
  - destruct (@set_ok self (x :: sel) v as_default)
      as [rule [Hset [Hpath [_ [Hhead [Hkey [Hv [Hs [Hd Hr]]]]]]]]];
      [left; discriminate |].
    rewrite Hset. cbn [_rules _refs _context].
    split; [left; discriminate |]. repeat split; try reflexivity.
    exists rule. repeat split; assumption.
Qed.

Lemma matching_after_append (self after : Config) (selectors : Selector)
    (allow : bool) (rule : ConfigRule) :
  _rules after = _rules self ++ [rule] ->
  _context after = _context self ->
  _get_all_matching_rules after selectors true allow
  = _get_all_matching_rules self selectors true allow
    ++ (if matches rule (_context self ++ selectors) true allow
        then [rule] else []).
Proof.
  intros Hrules Hctx. unfold _get_all_matching_rules.
  rewrite Hrules, Hctx, filter_app. reflexivity.
Qed.

(** X10. A default never displaces a normal rule: after [default] (a
    [set] with the default flag) a lookup of the same path still
    returns the value of the rule that won before, when that rule is
    more specific than a default rule and the rules matching the path
    have the key of the new rule (on a path not ending in an index,
    neither the new rule nor a rule matching the path having an
    indexed head). *)
Theorem default_keeps_normal_rule
    (fuel : nat) (hooks : HookStore) (self after : Config)
    (selectors : Selector) (value_set : RuleValue) (rule winner : ConfigRule)
    (v : Value) (default_arg : option Value) (return_dict_if_multiple : bool) :
  set_default self selectors value_set = Ok after ->
  _rules after = _rules self ++ [rule] ->
  _take_most_specific_in_list
    (_get_all_matching_rules self selectors true
       (negb (is_IndexSelector (snd (pop (_context self ++ selectors))))))
  = Ok winner ->
  (0 < specificity winner)%Z ->
  Forall (fun r => key r = key rule)
         (_get_all_matching_rules self selectors true
            (negb (is_IndexSelector
                     (snd (pop (_context self ++ selectors)))))) ->
  is_IndexSelector (snd (pop (_context self ++ selectors))) = true
  \/ (is_IndexSelector (head rule) = false
      /\ Forall (fun r => is_IndexSelector (head r) = false)
                (_get_all_matching_rules self selectors true true)) ->
  get_value (get fuel hooks) hooks winner after = Ok v ->
  get (S fuel) hooks after selectors default_arg return_dict_if_multiple
  = Ok v.
Proof.
  intros Hset Hrules Htake Hpos Hkey Hshape Hval.
  unfold set_default in Hset.
  assert (Hsome : selectors <> NoneSelector \/ _context self <> NoneSelector).
  { destruct selectors as [| x sel]; [| left; discriminate].
    destruct (_context self) as [| y ctx] eqn:E; [| right; discriminate].
    unfold set in Hset. rewrite E in Hset. discriminate. }
  destruct (@set_ok self selectors value_set true Hsome)
    as [rule' [Hset' [_ [_ [_ [_ [_ [Hspec _]]]]]]]].
  assert (Hafter' : after
                    = {| _rules := _rules self ++ [rule'];
                         _refs := _refs self; _context := _context self |})
    by congruence.
  assert (Hctx : _context after = _context self) by now rewrite Hafter'.
  assert (rule' = rule).
  { rewrite Hafter' in Hrules. cbn [_rules] in Hrules.
    apply app_inv_head in Hrules. now inversion Hrules. }
  subst rule'. clear Hset' Hafter'.
  destruct (take_decomposed _ Htake) as [pre [post [Hold [Hpre Hpost]]]].
  set (idx := is_IndexSelector (snd (pop (_context self ++ selectors)))) in *.
  assert (Hwin : forall extra,
             Forall (fun x => (specificity x < specificity winner)%Z) extra ->
             _take_most_specific_in_list
               (_get_all_matching_rules self selectors true (negb idx) ++ extra)
             = Ok winner).
  { intros extra Hextra. rewrite Hold, <- app_assoc. cbn [app].
    apply take_of_decomposition; [exact Hpre |].
    apply Forall_app. now split. }
  assert (Hextra : Forall (fun x => (specificity x < specificity winner)%Z)
                          (if matches rule (_context self ++ selectors) true
                                      (negb idx)
                           then [rule] else [])).
  { destruct (matches rule (_context self ++ selectors) true (negb idx));
      repeat constructor. rewrite Hspec. exact Hpos. }
  assert (Hkeys : Forall (fun r => key r = key rule)
                         (if matches rule (_context self ++ selectors) true
                                     (negb idx)
                          then [rule] else []))
    by (destruct (matches rule (_context self ++ selectors) true (negb idx));
        repeat constructor).
  eapply get_single_key with (k := key rule) (winner := winner).
  - rewrite Hctx. fold idx.
    apply (@matching_after_append self after selectors (negb idx) rule
             Hrules Hctx).
  - apply Forall_app. now split.
  - rewrite Hctx. fold idx.
    destruct idx eqn:Hidx; [now left |].
    destruct Hshape as [Habs | [Hr Hplain]]; [discriminate | right].
    cbn [negb]. apply Forall_app. split; [exact Hplain |].
    destruct (matches rule (_context self ++ selectors) true true);
      repeat constructor. exact Hr.
  - now apply Hwin.
  - exact Hval.
Qed.

(** *** Chained attribute access *)

Lemma getattr_chain (names : list string) (self : Config) :
  _rules (fold_left getattr names self) = _rules self
  /\ _refs (fold_left getattr names self) = _refs self
  /\ _context (fold_left getattr names self)
     = _context self ++ map attribute_selector names.
Proof.
  revert self. induction names as [| n names IH]; intros self; cbn [fold_left].
  - cbn [map]. now rewrite app_nil_r.
  - destruct (IH (getattr self n)) as [Hr [Hf Hc]].
    rewrite Hr, Hf, Hc. cbn [map]. unfold getattr, attribute_selector.
    cbn [_rules _refs _context Config_init]. rewrite <- app_assoc.
    repeat split; reflexivity.
Qed.

(** [__getattr__] applied along a list of names, then [__call__] with
    one value. *)
Lemma call_after_getattr_chain
    (fuel : nat) (hooks : HookStore) (self : Config) (names : list string)
    (v : Value) (default_arg : option Value) (return_dict_if_multiple : bool) :
  names <> [] ->
  exists (after : Config) (rule : ConfigRule),
    call (fold_left getattr names self) (OneArg (Literal v)) [] = Ok after
    /\ _context after = NoneSelector
    /\ _refs after = _refs self
    /\ _rules after = _rules self ++ [rule]
    /\ selector rule ++ head rule
       = _context self ++ map attribute_selector names
    /\ head rule = [attribute_selector (last names "")]
    /\ value rule = Literal v
    /\ specificity rule = 1%Z
    /\ (matches rule (_context self ++ map attribute_selector names) true true
        = true ->
        is_IndexSelector (head rule) = false ->
        Forall (fun r => key r = key rule /\ (specificity r <= 1)%Z
                         /\ is_IndexSelector (head r) = false)
               (filter (fun r =>
                          matches r (_context self
                                       ++ map attribute_selector names)
                                  true true)
                       (_rules self)) ->
        get (S fuel) hooks after
            (_context self ++ map attribute_selector names)
            default_arg return_dict_if_multiple
        = Ok v).
Proof.
  intros Hne.
  destruct (getattr_chain names self) as [Hr [Hf Hc]].
  set (chained := fold_left getattr names self) in *.
  set (path := _context self ++ map attribute_selector names) in *.
  assert (Hpath : path <> NoneSelector).
  { unfold path. destruct names as [| n names]; [congruence |].
    cbn [map]. intros E. apply app_eq_nil in E. destruct E; discriminate. }
  destruct (@set_ok (Config_init (_rules chained) (_refs chained)
                                 (_context chained))
                    NoneSelector (Literal v) false)
    as [rule [Hset [Hfull [_ [Hhead [Hkey [Hv [Hs [Hd Hroot]]]]]]]]].
  { right. cbn [_context Config_init]. now rewrite Hc. }
  cbn [_rules _refs _context Config_init] in Hfull, Hhead.
  rewrite app_nil_r, Hc in Hfull, Hhead.
  eexists. exists rule.
  split.
  { unfold call. cbn [bind]. rewrite Hset. cbn [bind fold_left].
    reflexivity. }
  cbn [_rules _refs _context Config_init].
  split; [reflexivity |]. split; [exact Hf |].
  split; [now rewrite Hr |].
  split; [exact Hfull |].
  split.
  { rewrite Hhead. unfold path.
    destruct (exists_last Hne) as [front [n Hn]]. rewrite Hn.
    rewrite map_app, app_assoc. cbn [map]. rewrite pop_snoc.
    cbn [snd]. now rewrite last_last. }
  split; [exact Hv |]. split; [exact Hs |].
  intros Hmatch Hplain Hold.
  assert (Hidx : is_IndexSelector (snd (pop path)) = false)
    by now rewrite <- Hhead.
  eapply get_single_key with (k := key rule) (winner := rule).
  - cbn [_context]. change (NoneSelector ++ path) with path.
    rewrite Hidx. cbn [negb].
    unfold _get_all_matching_rules. cbn [_rules _context].
    change (NoneSelector ++ path) with path.
    rewrite Hr, filter_app. cbn [filter]. rewrite Hmatch.
    reflexivity.
  - apply Forall_app. split; [| repeat constructor].
    eapply Forall_impl; [| exact Hold]. intros r [E _]. exact E.
  - right. apply Forall_app. split; [| repeat constructor; exact Hplain].
    eapply Forall_impl; [| exact Hold]. intros r [_ [_ E]]. exact E.
  - apply take_of_decomposition with (post := []); [| constructor].
    rewrite Hs.
    eapply Forall_impl; [| exact Hold]. intros r [_ [E _]]. exact E.
  - unfold get_value. now rewrite Hv.
Qed.

Lemma attributes_getattr (self : Config) (names : list string) :
  Forall (fun name => found_by_ordinary_lookup name = false) names ->
  attributes self names = Some (fold_left getattr names self).
Proof.
  intros Hnames. revert self.
  induction Hnames as [| name names Hname _ IH]; intros self;
    cbn [attributes fold_left]; [reflexivity |].
  unfold attribute. rewrite Hname. apply IH.
Qed.

Lemma attribute_selector_plain (name : string) :
  is_IndexSelector [attribute_selector name] = false.
Proof.
  unfold attribute_selector.
  destruct (String.eqb name "_"); [reflexivity |].
  destruct (String.eqb name "__"); reflexivity.
Qed.

(** X11. [config.a.b.c(value)], for names that ordinary attribute
    lookup does not find on a [Config] (so not [get], [set], [_rules]
    and the like, for which [__getattr__] is not called): the chained
    attribute access followed by a call with one value leaves the
    configuration it starts from as it is and returns a configuration
    with an empty context whose rules are the old ones followed by one
    normal rule, addressed to the old context followed by the names,
    with the last name as its head.  Looking that path up in the
    result returns the value when the new rule matches the path and
    the earlier rules that match it have the key of the new rule, a
    specificity of at most 1 and no indexed head. *)
Theorem chained_assignment
    (fuel : nat) (hooks : HookStore) (self : Config) (names : list string)
    (v : Value) (default_arg : option Value) (return_dict_if_multiple : bool) :
  names <> [] ->
  Forall (fun name => found_by_ordinary_lookup name = false) names ->
  exists (chain after : Config) (rule : ConfigRule),
    attributes self names = Some chain
    /\ call chain (OneArg (Literal v)) [] = Ok after
    /\ _context after = NoneSelector
    /\ _refs after = _refs self
    /\ _rules after = _rules self ++ [rule]
    /\ selector rule ++ head rule
       = _context self ++ map attribute_selector names
    /\ head rule = [attribute_selector (last names "")]
    /\ value rule = Literal v
    /\ specificity rule = 1%Z
    /\ (matches rule (_context self ++ map attribute_selector names) true true
        = true ->
        Forall (fun r => key r = key rule /\ (specificity r <= 1)%Z
                         /\ is_IndexSelector (head r) = false)
               (filter (fun r =>
                          matches r (_context self
                                       ++ map attribute_selector names)
                                  true true)
                       (_rules self)) ->
        get (S fuel) hooks after
            (_context self ++ map attribute_selector names)
            default_arg return_dict_if_multiple
        = Ok v).
Proof.
  intros Hne Hnames.
  destruct (call_after_getattr_chain fuel hooks self v default_arg
              return_dict_if_multiple Hne)
    as [after [rule [Hcall [Hctx [Hrefs [Hrules [Hfull [Hhead [Hv [Hs Hget]]]]]]]]]].
  exists (fold_left getattr names self), after, rule.
  split; [now apply attributes_getattr |].
  repeat (split; [assumption |]).
  intros Hmatch Hold. apply Hget; [exact Hmatch | | exact Hold].
  rewrite Hhead. apply attribute_selector_plain.
Qed.
(** *** Merging and the order of the rule list *)

Lemma get_literal (getter : Getter) (hooks : HookStore) (rule : ConfigRule)
    (config : Config) (v : Value) :
  value rule = Literal v -> get_value getter hooks rule config = Ok v.
Proof. intros E. unfold get_value. now rewrite E. Qed.

Lemma matching_after_merge (self config : Config) (selectors path : Selector)
    (as_default prepend allow : bool) :
  _get_all_matching_rules
    (fst (merge self selectors config as_default prepend)) path true allow
  = if prepend
    then filter (fun r => matches r (_context self ++ path) true allow)
                (map (fun r => ConfigRuleWrapper_init
                                 (_context self ++ selectors) r as_default)
                     (_rules config))
         ++ _get_all_matching_rules self path true allow
    else _get_all_matching_rules self path true allow
         ++ filter (fun r => matches r (_context self ++ path) true allow)
                   (map (fun r => ConfigRuleWrapper_init
                                    (_context self ++ selectors) r as_default)
                        (_rules config)).
Proof.
  unfold _get_all_matching_rules, merge. cbn [fst _rules _context].
  destruct prepend; now rewrite filter_app.
Qed.

Lemma merge_context (self config : Config) (selectors : Selector)
    (as_default prepend : bool) :
  _context (fst (merge self selectors config as_default prepend))
  = _context self.
Proof. reflexivity. Qed.

(** X12. Where one rule of the receiver, a normal rule, and one rule
    merged in without the default flag are the rules that match a
    path, under one key and both holding plain values, the place of
    the merged rules in the list decides: appended (the default of
    [merge]) the merged rule wins the tie, prepended the receiver's
    rule does (on a path not ending in an index, neither of the two
    having an indexed head). *)
Theorem merge_position_decides_ties
    (fuel : nat) (hooks : HookStore) (self config : Config)
    (selectors path : Selector) (own merged : ConfigRule) (v_own v_merged : Value)
    (default_arg : option Value) (return_dict_if_multiple : bool) :
  let allow :=
    negb (is_IndexSelector (snd (pop (_context self ++ path)))) in
  _get_all_matching_rules self path true allow = [own] ->
  filter (fun r => matches r (_context self ++ path) true allow)
         (map (fun r => ConfigRuleWrapper_init (_context self ++ selectors)
                                               r false)
              (_rules config))
  = [merged] ->
  key own = key merged ->
  specificity own = 1%Z ->
  allow = false
  \/ (is_IndexSelector (head own) = false
      /\ is_IndexSelector (head merged) = false) ->
  value own = Literal v_own ->
  value merged = Literal v_merged ->
  get (S fuel) hooks (fst (merge self selectors config false false)) path
      default_arg return_dict_if_multiple
  = Ok v_merged
  /\ get (S fuel) hooks (fst (merge self selectors config false true)) path
         default_arg return_dict_if_multiple
     = Ok v_own.
Proof.
  intros allow Hown Hmerged Hkey Hspec Hshape Hvo Hvm.
  assert (Hms : specificity merged = 1%Z).
  { assert (Hin : In merged
                     (filter (fun r => matches r (_context self ++ path)
                                               true allow)
                             (map (fun r => ConfigRuleWrapper_init
                                              (_context self ++ selectors)
                                              r false)
                                  (_rules config))))
      by (rewrite Hmerged; now left).
    apply filter_In in Hin. destruct Hin as [Hin _].
    apply in_map_iff in Hin. destruct Hin as [r [<- _]]. reflexivity. }
  assert (Hshape' : forall l,
             (forall r, In r l -> r = own \/ r = merged) ->
             is_IndexSelector (snd (pop (_context self ++ path))) = true
             \/ Forall (fun r => is_IndexSelector (head r) = false) l).
  { intros l Hl. destruct Hshape as [Hallow | [Ho Hm]].
    - left. unfold allow in Hallow. now apply negb_false_iff in Hallow.
    - right. apply Forall_forall. intros r Hr.
      destruct (Hl r Hr) as [-> | ->]; assumption. }
  split.
  - eapply get_single_key with (k := key own) (winner := merged).
    + rewrite merge_context. fold allow.
      rewrite (matching_after_merge self config selectors path false false
                                    allow).
      rewrite Hown, Hmerged. reflexivity.
    + repeat constructor; auto.
    + rewrite merge_context. apply Hshape'. intros r [<- | [<- | []]]; auto.
    + apply take_pair_second. lia.
    + now apply get_literal.
  - eapply get_single_key with (k := key own) (winner := own).
    + rewrite merge_context. fold allow.
      rewrite (matching_after_merge self config selectors path false true
                                    allow).
      rewrite Hown, Hmerged. reflexivity.
    + repeat constructor; auto.
    + rewrite merge_context. apply Hshape'. intros r [<- | [<- | []]]; auto.
    + apply take_pair_second. lia.
    + now apply get_literal.
Qed.

(** X13. Rules merged in with [as_default] never displace a normal rule
    of the receiver: whether they are appended or prepended, a lookup
    returns the value of the receiver's own winner among the rules
    that matched before, however many merged rules match as well,
    when that winner holds a plain value and the matching rules, the
    receiver's and the merged ones, all have its key (on a path not
    ending in an index, none of them having an indexed head). *)
Theorem merge_as_default_yields
    (fuel : nat) (hooks : HookStore) (self config : Config)
    (selectors path : Selector) (prepend : bool) (winner : ConfigRule)
    (v : Value) (default_arg : option Value) (return_dict_if_multiple : bool) :
  let allow :=
    negb (is_IndexSelector (snd (pop (_context self ++ path)))) in
  let merged :=
    filter (fun r => matches r (_context self ++ path) true allow)
           (map (fun r => ConfigRuleWrapper_init (_context self ++ selectors)
                                                 r true)
                (_rules config)) in
  _take_most_specific_in_list (_get_all_matching_rules self path true allow)
  = Ok winner ->
  (0 < specificity winner)%Z ->
  Forall (fun r => key r = key winner)
         (_get_all_matching_rules self path true allow ++ merged) ->
  allow = false
  \/ Forall (fun r => is_IndexSelector (head r) = false)
            (_get_all_matching_rules self path true allow ++ merged) ->
  value winner = Literal v ->
  get (S fuel) hooks (fst (merge self selectors config true prepend)) path
      default_arg return_dict_if_multiple
  = Ok v.
Proof.
  intros allow merged Htake Hpos Hkey Hshape Hv.
  assert (Hzero : Forall (fun r => (specificity r < specificity winner)%Z)
                         merged).
  { apply Forall_forall. intros r Hr. unfold merged in Hr.
    apply filter_In in Hr. destruct Hr as [Hr _].
    apply in_map_iff in Hr. destruct Hr as [r0 [<- _]]. cbn. exact Hpos. }
  destruct (take_decomposed _ Htake) as [pre [post [Hold [Hpre Hpost]]]].
  apply Forall_app in Hkey. destruct Hkey as [Hkold Hkmerged].
  eapply get_single_key with (k := key winner) (winner := winner).
  - rewrite merge_context. fold allow.
    apply matching_after_merge.
  - fold merged. destruct prepend; apply Forall_app; now split.
  - rewrite merge_context. fold merged. destruct Hshape as [Hallow | Hplain].
    + left. unfold allow in Hallow. now apply negb_false_iff in Hallow.
    + right. apply Forall_app in Hplain. destruct Hplain.
      destruct prepend; apply Forall_app; now split.
  - fold merged. rewrite Hold. destruct prepend.
    + rewrite app_assoc. apply take_of_decomposition; [| exact Hpost].
      apply Forall_app. split; [| exact Hpre].
      eapply Forall_impl; [| exact Hzero]. intros; cbv beta in *; lia.
    + rewrite <- app_assoc. cbn [app].
      apply take_of_decomposition; [exact Hpre |].
      apply Forall_app. now split.
  - now apply get_literal.
Qed.
(** *** Populating, in general *)

Lemma nth_error_combine {A B : Type} (l : list A) (l' : list B) (i : nat)
    (a : A) (b : B) :
  nth_error (combine l l') i = Some (a, b) ->
  nth_error l i = Some a /\ nth_error l' i = Some b.
Proof.
  revert l' i. induction l as [| x l IH]; intros l' i; simpl.
  - destruct i; discriminate.
  - destruct l' as [| y l']; [destruct i; discriminate |].
    destruct i as [| i]; simpl.
    + intros E. inversion E. auto.
    + apply IH.
Qed.

Lemma take_iterator_nth (next : nat -> option RuleValue) (n pos i : nat)
    (v : RuleValue) :
  nth_error (take_iterator next pos n) i = Some v -> next (pos + i) = Some v.
Proof.
  revert pos i. induction n as [| n IH]; intros pos i; simpl.
  - destruct i; discriminate.
  - destruct (next pos) as [v0 |] eqn:E; [| destruct i; discriminate].
    destruct i as [| i]; simpl.
    + intros E'. inversion E'; subst. now rewrite Nat.add_0_r.
    + intros E'. apply IH in E'. now rewrite <- Nat.add_succ_comm.
Qed.

Lemma zip_generator_nth (n : nat) (g : Generator) (i j : nat) (v : RuleValue) :
  nth_error (zip_generator (seq 0 n) g) i = Some (j, v) ->
  j = i /\ i < n /\ item_at g i = Some v.
Proof.
  intros E.
  assert (Hseq : forall (b : RuleValue) (l' : list RuleValue),
             nth_error (combine (seq 0 n) l') i = Some (j, b) ->
                              j = i /\ i < n).
  { intros b l' E'. apply nth_error_combine in E'. destruct E' as [E' _].
    rewrite nth_error_seq in E'.
    destruct (Nat.ltb_spec i n); [| discriminate].
    injection E' as E'. split; lia. }
  destruct g as [f | items | next]; cbn [zip_generator item_at] in *.
  - destruct (Hseq _ _ E) as [-> Hlt]. repeat split; [exact Hlt |].
    apply nth_error_combine in E. destruct E as [_ E].
    rewrite nth_error_map, nth_error_seq in E.
    destruct (Nat.ltb_spec i n); [| lia]. cbn in E. congruence.
  - destruct (Hseq _ _ E) as [-> Hlt]. repeat split; [exact Hlt |].
    apply nth_error_combine in E. tauto.
  - destruct (Hseq _ _ E) as [-> Hlt]. repeat split; [exact Hlt |].
    apply nth_error_combine in E. destruct E as [_ E].
    now apply take_iterator_nth in E.
Qed.

Lemma zip_generator_length (n : nat) (g : Generator) :
  List.length (zip_generator (seq 0 n) g) <= n
  /\ (yields_at_least g n -> List.length (zip_generator (seq 0 n) g) = n).
Proof.
  assert (Hle : forall (l' : list RuleValue),
             List.length (combine (seq 0 n) l') <= n).
  { intros l'. rewrite length_combine, length_seq. lia. }
  destruct g as [f | items | next]; cbn [zip_generator yields_at_least].
  - split; [apply Hle |]. intros _.
    rewrite length_combine, length_map, length_seq. lia.
  - split; [apply Hle |]. intros Hn.
    rewrite length_combine, length_seq. lia.
  - split; [apply Hle |]. intros Hn.
    rewrite length_combine, !length_seq, take_iterator_length; [lia |].
    intros i Hi. now apply Hn.
Qed.

(** What [populate] does on a context that ends in a plain segment. *)
Lemma populate_plain (self : Config) (selectors : Selector) (g : Generator)
    (length : option nat) (body : Selector) (a : Atom) :
  pop (_context self) = (body, [Plain a]) ->
  populate self selectors g length
  = Ok ({| _rules :=
             _rules self
             ++ map (fun '(i, value) =>
                       ConfigRule_init
                         ((body ++ [IndexSelector a (IndexInt i) None])
                            ++ fst (pop selectors))
                         (snd (pop selectors)) value)
                    (zip_generator
                       (seq 0 match length with
                              | Some (S n) => S n
                              | _ => 256
                              end) g);
           _refs := _refs self; _context := _context self |},
        Config_init
          (_rules self
           ++ map (fun '(i, value) =>
                     ConfigRule_init
                       ((body ++ [IndexSelector a (IndexInt i) None])
                          ++ fst (pop selectors))
                       (snd (pop selectors)) value)
                  (zip_generator
                     (seq 0 match length with
                            | Some (S n) => S n
                            | _ => 256
                            end) g))
          (_refs self) NoneSelector,
        match length with
        | None => if negb (has_len g) then [UnknownGeneratorLength] else []
        | Some _ => []
        end).
Proof.
  intros Hpop. unfold populate. rewrite Hpop.
  destruct (pop selectors) as [sels key_head]. reflexivity.
Qed.

Lemma plain_context (self : Config) :
  _context self <> NoneSelector ->
  is_IndexSelector (snd (pop (_context self))) = false ->
  exists a, pop (_context self) = (fst (pop (_context self)), [Plain a]).
Proof.
  intros Hne Hidx.
  destruct (@pop_last (_context self) Hne) as [x [Hx _]].
  destruct x as [a | a i l]; [| rewrite Hx in Hidx; discriminate].
  exists a. rewrite <- Hx. now destruct (pop (_context self)).
Qed.

(** X14. [populate] on a context that ends in a plain segment never
    appends more than [length or 256] rules, however many items the
    generator has, and appends exactly that many when the generator
    has them; the rule at position [i] is a normal rule addressed to
    index [i] of the context, followed by the selectors, and holds the
    generator's item at position [i]; the old rules stay in front.  A
    warning is issued exactly when no length is given and the
    generator has no [__len__]. *)
Theorem populate_bounded
    (self : Config) (selectors : Selector) (g : Generator)
    (length : option nat) :
  _context self <> NoneSelector ->
  is_IndexSelector (snd (pop (_context self))) = false ->
  exists (a : Atom) (new_rules : list ConfigRule) (receiver returned : Config)
         (warnings : list Warning),
    snd (pop (_context self)) = [Plain a]
    /\ populate self selectors g length = Ok (receiver, returned, warnings)
    /\ _rules receiver = _rules self ++ new_rules
    /\ _context receiver = _context self
    /\ _rules returned = _rules receiver
    /\ _context returned = NoneSelector
    /\ List.length new_rules
       <= match length with Some (S n) => S n | _ => 256 end
    /\ (yields_at_least g match length with Some (S n) => S n | _ => 256 end ->
        List.length new_rules
        = match length with Some (S n) => S n | _ => 256 end)
    /\ (forall i rule,
           nth_error new_rules i = Some rule ->
           selector rule
           = (fst (pop (_context self)) ++ [IndexSelector a (IndexInt i) None])
               ++ fst (pop selectors)
           /\ head rule = snd (pop selectors)
           /\ item_at g i = Some (value rule)
           /\ specificity rule = 1%Z)
    /\ warnings
       = match length with
         | None => if has_len g then [] else [UnknownGeneratorLength]
         | Some _ => []
         end.
Proof.
  intros Hne Hidx.
  destruct (plain_context self Hne Hidx) as [a Hpop].
  set (cap := match length with Some (S n) => S n | _ => 256 end).
  exists a. eexists. eexists. eexists. eexists.
  split; [now rewrite Hpop |].
  split; [apply (populate_plain self selectors g length Hpop) |].
  cbn [_rules _context Config_init].
  split; [reflexivity |]. split; [reflexivity |]. split; [reflexivity |].
  split; [reflexivity |].
  fold cap. rewrite length_map.
  split; [apply zip_generator_length |].
  split; [apply zip_generator_length |].
  split.
  - intros i rule Hnth. rewrite nth_error_map in Hnth.
    destruct (nth_error (zip_generator (seq 0 cap) g) i) as [[j v] |] eqn:E;
      [| discriminate].
    apply zip_generator_nth in E. destruct E as [-> [_ Hitem]].
    cbn in Hnth. inversion Hnth; subst rule. cbn. auto.
  - destruct length; [reflexivity |]. now destruct (has_len g).
Qed.

(** X15. An explicit [length=0] counts as no length at all: on a
    context that ends in a plain segment [populate] then builds the
    same configurations as without a length, up to the cap of 256, and
    only the warning is not issued. *)
Theorem populate_length_zero
    (self : Config) (selectors : Selector) (g : Generator) :
  _context self <> NoneSelector ->
  is_IndexSelector (snd (pop (_context self))) = false ->
  exists receiver returned warnings,
    populate self selectors g None = Ok (receiver, returned, warnings)
    /\ populate self selectors g (Some 0) = Ok (receiver, returned, []).
Proof.
  intros Hne Hidx.
  destruct (plain_context self Hne Hidx) as [a Hpop].
  eexists. eexists. eexists.
  split.
  - apply (populate_plain self selectors g None Hpop).
  - apply (populate_plain self selectors g (Some 0) Hpop).
Qed.

(** X16. [populate] on a context that ends in an index selector
    addresses one rule to each position that the selector's index
    stands for under the requested [length], in that order; the length
    recorded in the context's own index selector plays no part, and no
    warning is issued, whatever the generator.  With a callable
    generator there is exactly one rule per position, holding the
    callable's result for it. *)
Theorem populate_indexed_context
    (self : Config) (selectors : Selector) (f : nat -> RuleValue)
    (length own_length : option nat) (body : Selector) (a : Atom)
    (index : Index) :
  _context self = body ++ [IndexSelector a index own_length] ->
  exists receiver returned,
    populate self selectors (GenCallable f) length
    = Ok (receiver, returned, [])
    /\ _rules receiver
       = _rules self
         ++ map (fun i =>
                   ConfigRule_init
                     ((body ++ [IndexSelector a (IndexInt i) None])
                        ++ fst (pop selectors))
                     (snd (pop selectors)) (f i))
                (get_list_of_indices index length)
    /\ _context receiver = _context self
    /\ _rules returned = _rules receiver
    /\ _context returned = NoneSelector.
Proof.
  intros Hctx. unfold populate. rewrite Hctx, pop_snoc.
  destruct (pop selectors) as [sels key_head]. cbn [fst snd].
  eexists. eexists. split; [reflexivity |].
  cbn [_rules _context Config_init zip_generator].
  repeat split. f_equal.
  induction (get_list_of_indices index length) as [| i l IH]; [reflexivity |].
  cbn [map combine]. now rewrite IH.
Qed.
(** *** Named sub-configurations *)

(** X17. [add_ref] followed by [get_ref] of the same name returns the
    configuration that was added, other names are looked up as before,
    and the rules and the context are untouched; the overwrite warning
    is issued exactly when the name was already there; [get_ref] of a
    name that was never added raises [KeyError]. *)
Theorem add_ref_then_get_ref
    (self config : Config) (name other : string) :
  get_ref (fst (add_ref self name config)) name = Ok config
  /\ (other <> name ->
      get_ref (fst (add_ref self name config)) other = get_ref self other)
  /\ _rules (fst (add_ref self name config)) = _rules self
  /\ _context (fst (add_ref self name config)) = _context self
  /\ snd (add_ref self name config)
     = match get_ref self name with
       | Ok _ => [RefOverwrite name]
       | Raise _ => []
       end
  /\ (~ In name (dict_keys (_refs self)) ->
      get_ref self name = Raise KeyError).
Proof.
  unfold get_ref, add_ref, dict_contains. cbn [fst snd _refs _rules _context].
  split; [| split; [| split; [| split; [| split]]]]; try reflexivity.
  - now rewrite sdict_get_set, String.eqb_refl.
  - intros Hne. rewrite sdict_get_set.
    destruct (String.eqb_spec name other); [congruence | reflexivity].
  - now destruct (dict_get String.eqb (_refs self) name).
  - intros Hnot.
    destruct (dict_get String.eqb (_refs self) name) eqn:E; [| reflexivity].
    exfalso. apply Hnot. apply sdict_keys_get. congruence.
Qed.

(** *** Running the forward hooks *)

Lemma ForwardHook_call_fields (h : ForwardHook) (x : Value) :
  hook (fst (ForwardHook_call h x)) = hook h
  /\ first_only (fst (ForwardHook_call h x)) = first_only h
  /\ (_has_run h = true -> _has_run (fst (ForwardHook_call h x)) = true)
  /\ (first_only h = true -> _has_run h = true ->
      ForwardHook_call h x = (h, Ok (_value h)))
  /\ ((exists y, hook h x = Ok y) ->
      _has_run (fst (ForwardHook_call h x)) = true
      /\ exists r, snd (ForwardHook_call h x) = Ok r).
Proof.
  unfold ForwardHook_call.
  destruct (first_only h && _has_run h) eqn:Hskip.
  - apply andb_true_iff in Hskip. destruct Hskip as [Hf Hr]. cbn [fst snd].
    split; [reflexivity |]. split; [reflexivity |]. split; [auto |].
    split; [reflexivity |].
    intros _. split; [exact Hr | eexists; reflexivity].
  - destruct (hook h x) as [v | e] eqn:Hh;
      cbn [fst snd hook first_only _has_run].
    + split; [reflexivity |]. split; [reflexivity |]. split; [reflexivity |].
      split; [intros Hf Hr; rewrite Hf, Hr in Hskip; discriminate |].
      intros _. split; [reflexivity | eexists; reflexivity].
    + split; [reflexivity |]. split; [reflexivity |]. split; [auto |].
      split; [intros Hf Hr; rewrite Hf, Hr in Hskip; discriminate |].
      intros [y Hy]. discriminate.
Qed.

Lemma call_hooks_spec (rules : list ConfigRule) (x : Value) (hooks : HookStore) :
  (forall l, hook (fst (call_hooks rules x hooks) l) = hook (hooks l)
             /\ first_only (fst (call_hooks rules x hooks) l)
                = first_only (hooks l))
  /\ (forall l, _has_run (hooks l) = true ->
                _has_run (fst (call_hooks rules x hooks) l) = true)
  /\ (forall l, ~ In l (hook_locations rules) ->
                fst (call_hooks rules x hooks) l = hooks l)
  /\ (forall l, first_only (hooks l) = true -> _has_run (hooks l) = true ->
                fst (call_hooks rules x hooks) l = hooks l)
  /\ ((forall l, In l (hook_locations rules) ->
                 exists y, hook (hooks l) x = Ok y) ->
      snd (call_hooks rules x hooks) = Ok tt
      /\ forall l, In l (hook_locations rules) ->
                   _has_run (fst (call_hooks rules x hooks) l) = true).
Proof.
  revert hooks. induction rules as [| rule rules IH]; intros hooks.
  - cbn. repeat split; auto; intros l [].
  - unfold hook_locations. cbn [flat_map call_hooks].
    fold (hook_locations rules).
    destruct (value rule) as [v | r | loc] eqn:Hv;
      try (cbn [app]; apply IH).
    destruct (ForwardHook_call_fields (hooks loc) x)
      as [Hhook [Hfirst [Hmono [Hcached Hsucc]]]].
    destruct (ForwardHook_call (hooks loc) x) as [h returned] eqn:Hcall.
    cbn [fst snd] in *.
    set (hooks1 := store_set hooks loc h).
    assert (H1 : forall l, hook (hooks1 l) = hook (hooks l)
                           /\ first_only (hooks1 l) = first_only (hooks l)).
    { intros l. unfold hooks1, store_set.
      destruct (Nat.eqb_spec l loc) as [-> | _]; auto. }
    assert (H1run : forall l, _has_run (hooks l) = true ->
                              _has_run (hooks1 l) = true).
    { intros l. unfold hooks1, store_set.
      destruct (Nat.eqb_spec l loc) as [-> | _]; auto. }
    assert (H1other : forall l, l <> loc -> hooks1 l = hooks l).
    { intros l Hl. unfold hooks1, store_set.
      destruct (Nat.eqb_spec l loc); [contradiction | reflexivity]. }
    assert (H1cached : forall l, first_only (hooks l) = true ->
                                 _has_run (hooks l) = true ->
                                 hooks1 l = hooks l).
    { intros l Hf Hr. unfold hooks1, store_set.
      destruct (Nat.eqb_spec l loc) as [-> | _]; [| reflexivity].
      specialize (Hcached Hf Hr). now inversion Hcached. }
    destruct (IH hooks1) as [IHf [IHrun [IHother [IHcached IHsucc]]]].
    destruct returned as [r | e]; cbn [fst snd app].
    + split; [| split; [| split; [| split]]].
      * intros l. destruct (IHf l) as [A B]. destruct (H1 l) as [C D].
        split; congruence.
      * intros l Hl. apply IHrun. now apply H1run.
      * intros l Hl. rewrite IHother by (intros Hin; apply Hl; now right).
        apply H1other. intros ->. apply Hl. now left.
      * intros l Hf Hr. rewrite IHcached.
        -- now apply H1cached.
        -- destruct (H1 l) as [_ D]. congruence.
        -- now apply H1run.
      * intros Hall.
        destruct IHsucc as [Hok Hran].
        { intros l Hl. destruct (H1 l) as [C _]. rewrite C.
          apply Hall. now right. }
        split; [exact Hok |].
        intros l [<- | Hl]; [| now apply Hran].
        apply IHrun. unfold hooks1, store_set. rewrite Nat.eqb_refl.
        apply Hsucc. apply Hall. now left.
    + split; [| split; [| split; [| split]]].
      * exact H1.
      * exact H1run.
      * intros l Hl. apply H1other. intros ->. apply Hl. now left.
      * exact H1cached.
      * intros Hall. exfalso.
        destruct Hsucc as [_ [r Hr]]; [apply Hall; now left | discriminate].
Qed.

(** X18. [run_all_forward_hooks]: when every hook found for the
    configuration succeeds on the argument, the call ends normally,
    each of these hooks has run afterwards, so that reading the value
    of its rule no longer fails; hooks that are not among them, and
    hooks with [first_only] that had run before, are left as they
    were, and no hook changes its function or its [first_only] flag. *)
Theorem run_all_forward_hooks_runs_them
    (getter : Getter) (self : Config) (x : Value) (hooks : HookStore) :
  (forall l, In l (hook_locations (get_all_forward_hooks self)) ->
             exists y, hook (hooks l) x = Ok y) ->
  snd (run_all_forward_hooks self x hooks) = Ok tt
  /\ (forall rule, In rule (get_all_forward_hooks self) ->
                   exists v,
                     get_value getter (fst (run_all_forward_hooks self x hooks))
                               rule self
                     = Ok v)
  /\ (forall l, ~ In l (hook_locations (get_all_forward_hooks self)) ->
                fst (run_all_forward_hooks self x hooks) l = hooks l)
  /\ (forall l, first_only (hooks l) = true -> _has_run (hooks l) = true ->
                fst (run_all_forward_hooks self x hooks) l = hooks l)
  /\ (forall l, hook (fst (run_all_forward_hooks self x hooks) l)
                = hook (hooks l)
                /\ first_only (fst (run_all_forward_hooks self x hooks) l)
                   = first_only (hooks l)).
Proof.
  intros Hall. unfold run_all_forward_hooks.
  destruct (call_hooks_spec (get_all_forward_hooks self) x hooks)
    as [Hf [_ [Hother [Hcached Hsucc]]]].
  destruct (Hsucc Hall) as [Hok Hran].
  split; [exact Hok |]. split; [| split; [exact Hother |
                                          split; [exact Hcached | exact Hf]]].
  intros rule Hin.
  assert (Hhook : holds_hook rule = true).
  { unfold get_all_forward_hooks in Hin. apply filter_In in Hin. tauto. }
  unfold holds_hook in Hhook. unfold get_value.
  destruct (value rule) as [v | r | loc] eqn:Hv; try discriminate.
  unfold ForwardHook_value.
  rewrite Hran; [eexists; reflexivity |].
  unfold hook_locations. apply in_flat_map. exists rule.
  split; [exact Hin |]. rewrite Hv. now left.
Qed.

(** *** Hooks that run every time *)

Lemma trigger_all_app (h : ForwardHook) (l1 l2 : list Value) :
  trigger_all h (l1 ++ l2) = trigger_all (trigger_all h l1) l2.
Proof.
  revert h. induction l1 as [| m l1 IH]; intros h; cbn; auto.
Qed.

Lemma trigger_all_fields (h : ForwardHook) (modules : list Value) :
  hook (trigger_all h modules) = hook h
  /\ first_only (trigger_all h modules) = first_only h.
Proof.
  revert h. induction modules as [| m modules IH]; intros h; cbn; auto.
  destruct (IH (fst (ForwardHook_call h m))) as [A B].
  destruct (ForwardHook_call_fields h m) as [C [D _]].
  split; congruence.
Qed.

(** X19. A hook made with [first_only=False] runs at every trigger:
    its value is always the result of the latest trigger, whatever
    happened before; and the call that runs a hook returns [None], not
    the result, while the call that skips a [first_only] hook returns
    the cached value. *)
Theorem hook_without_first_only_reruns
    (h : ForwardHook) (earlier : list Value) (module v : Value) :
  first_only h = false ->
  hook h module = Ok v ->
  ForwardHook_value (trigger_all h (earlier ++ [module])) = Ok v
  /\ snd (ForwardHook_call (trigger_all h earlier) module) = Ok VNone
  /\ (forall cached : ForwardHook,
         first_only cached = true -> _has_run cached = true ->
         snd (ForwardHook_call cached module) = Ok (_value cached)).
Proof.
  intros Hfirst Hhook.
  destruct (trigger_all_fields h earlier) as [Hh Hf].
  set (h' := trigger_all h earlier) in *.
  assert (Hcall : ForwardHook_call h' module
                  = ({| hook := hook h'; first_only := first_only h';
                        _value := v; _has_run := true |}, Ok VNone)).
  { unfold ForwardHook_call. rewrite Hf, Hfirst, Hh, Hhook. reflexivity. }
  split; [| split].
  - rewrite trigger_all_app. fold h'. cbn [trigger_all]. now rewrite Hcall.
  - now rewrite Hcall.
  - intros cached Hc Hr. unfold ForwardHook_call. now rewrite Hc, Hr.
Qed.
(** *** A key set position by position *)

Lemma mapM_ext_in {A B : Type} (f g : A -> Result B) (l : list A) :
  (forall x, In x l -> f x = g x) -> mapM f l = mapM g l.
Proof.
  induction l as [| a l IH]; intros Hall; cbn [mapM]; [reflexivity |].
  rewrite (Hall a (or_introl eq_refl)), IH; [reflexivity |].
  intros x Hx. apply Hall. now right.
Qed.

Lemma index_broadcast_all_indexed (msfk : list (nat * ConfigRule))
    (idxs : list nat) (values : list Value) :
  (forall i, In i idxs ->
             exists rule,
               dict_get Nat.eqb msfk i = Some rule
               /\ is_IndexSelector (head rule) = true) ->
  index_broadcast idxs msfk values = Ok values.
Proof.
  induction idxs as [| i idxs IH]; intros Hall; cbn [index_broadcast];
    [reflexivity |].
  destruct (Hall i (or_introl eq_refl)) as [rule [Hrule Hidx]].
  rewrite Hrule, Hidx. cbn [negb]. apply IH.
  intros j Hj. apply Hall. now right.
Qed.

(** X20. A key that has index-specific rules only, looked up as a
    whole (on a path that does not end in an index): when the
    positions named by the rules are exactly 0 to [last_position],
    [get] returns the list of the values of the most specific rule of
    each position, in the order of the positions; an error in
    resolving one of them is the error of the lookup. *)
Theorem get_collects_indexed_rules
    (fuel : nat) (hooks : HookStore) (self : Config) (selectors : Selector)
    (default_arg : option Value) (return_dict_if_multiple : bool)
    (k : string) (rules : list ConfigRule) (last_position : nat) :
  is_IndexSelector (snd (pop (_context self ++ selectors))) = false ->
  _get_all_matching_rules self selectors true true = rules ->
  rules <> [] ->
  Forall (fun r => key r = k) rules ->
  Forall (fun r => is_IndexSelector (head r) = true) rules ->
  (forall i, rules_at_position rules i <> [] <-> i <= last_position) ->
  get (S fuel) hooks self selectors default_arg return_dict_if_multiple
  = (values <-
       mapM (fun i =>
               rule <- _take_most_specific_in_list (rules_at_position rules i) ;;
               get_value (get fuel hooks) hooks rule self)
            (seq 0 (S last_position)) ;;
     Ok (VList values)).
Proof.
  intros Hidx Hmatch Hne Hkey Hindexed Hpositions.
  rewrite (@get_indexed_key _ fuel hooks self selectors default_arg
             return_dict_if_multiple k rules Hidx Hmatch Hkey Hne).
  assert (Hany : existsb (fun r => is_IndexSelector (head r)) rules = true).
  { destruct rules as [| r rules']; [congruence |].
    inversion Hindexed as [| ? ? Hr _]; subst. cbn. now rewrite Hr. }
  assert (Hnone : non_indexed rules = []).
  { unfold non_indexed. clear - Hindexed.
    induction Hindexed as [| r rules' Hr _ IH]; [reflexivity |].
    cbn. now rewrite Hr. }
  assert (Htake : _take_most_specific_in_list (winner_candidates rules)
                  = Ok least_specific_rule).
  { unfold winner_candidates. rewrite Hnone. apply take_single. }
  assert (Hval : get_value (get fuel hooks) hooks least_specific_rule self
                 = Ok (VList [])) by reflexivity.
  destruct (@resolve_key_and_index_steps _ (get fuel hooks) hooks self k rules
              least_specific_rule (VList []) Hany Htake Hval)
    as [iv [msfk [Hiv [Hnodup [Hmsfk Hresolve]]]]].
  pose proof (@covered_keys _ rules least_specific_rule
                (List.length (as_sequence (VList []))) iv Hiv) as Hkeys.
  assert (Hcov : forall i,
             covered rules (List.length (as_sequence (VList []))) i = true
             <-> i <= last_position).
  { intros i. rewrite <- Hpositions. unfold covered. cbn.
    destruct (rules_at_position rules i); split; congruence. }
  assert (Hindices : sort (dict_keys iv) = seq 0 (S last_position)).
  { apply sorted_range.
    - apply sort_sorted.
    - now apply sort_NoDup.
    - intros i. rewrite Hkeys, Hcov. lia. }
  rewrite Hresolve, Hindices. clear Hresolve.
  assert (Hgaps : assert_no_gaps (seq 0 (S last_position)) k = Ok tt).
  { apply assert_no_gaps_passes. intros x Hx.
    assert (Hlast : In (last (seq 0 (S last_position)) 0)
                       (seq 0 (S last_position)))
      by (apply last_In; discriminate).
    apply in_seq in Hlast. apply in_seq. lia. }
  rewrite Hgaps. cbn [seq bind].
  change (0 :: seq 1 last_position) with (seq 0 (S last_position)).
  assert (Hpos : forall i,
             In i (seq 0 (S last_position)) ->
             exists rule,
               dict_get Nat.eqb msfk i = Some rule
               /\ is_IndexSelector (head rule) = true
               /\ _take_most_specific_in_list (rules_at_position rules i)
                  = Ok rule).
  { intros i Hi. apply in_seq in Hi.
    destruct (@position_cases _ rules least_specific_rule
                (List.length (as_sequence (VList []))) iv msfk i Hiv Hmsfk)
      as [rule [Hfound [[_ Hcond] | [Hhead [_ Hrap]]]]].
    - apply Hcov. lia.
    - cbn in Hcond. discriminate.
    - exists rule. auto. }
  rewrite (mapM_ext_in
             (fun i =>
                match dict_get Nat.eqb msfk i with
                | Some rule => get_value (get fuel hooks) hooks rule self
                | None => Raise KeyError
                end)
             (fun i =>
                rule <- _take_most_specific_in_list (rules_at_position rules i) ;;
                get_value (get fuel hooks) hooks rule self)).
  - destruct (mapM _ (seq 0 (S last_position))) as [values | e];
      cbn [bind]; [| reflexivity].
    rewrite index_broadcast_all_indexed; [reflexivity |].
    intros i Hi. destruct (Hpos i Hi) as [rule [A [B _]]]. eauto.
  - intros i Hi. destruct (Hpos i Hi) as [rule [A [_ C]]].
    now rewrite A, C.
Qed.
(** *** The recursion limit *)

(** [g2] answers as [g1] wherever [g1] does not run out of depth. *)
Local Notation "'extends' g1 g2" :=
  (forall (c : Config) (s : Selector) (d : option Value) (rd : bool),
      g1 c s d rd <> Raise RecursionError -> g2 c s d rd = g1 c s d rd)
  (at level 10, g1 at level 9, g2 at level 9).

Lemma bind_extends {A B : Type} (m1 m2 : Result A) (k1 k2 : A -> Result B) :
  (m1 <> Raise RecursionError -> m2 = m1) ->
  (forall x, m1 = Ok x -> k1 x <> Raise RecursionError -> k2 x = k1 x) ->
  bind m1 k1 <> Raise RecursionError ->
  bind m2 k2 = bind m1 k1.
Proof.
  intros Hm Hk Hne.
  destruct m1 as [x | e] eqn:E.
  - rewrite Hm by discriminate. cbn [bind] in *. now apply Hk.
  - rewrite Hm; [reflexivity |]. intros E'. apply Hne. now rewrite E'.
Qed.

Lemma mapM_extends {A B : Type} (f1 f2 : A -> Result B) (l : list A) :
  (forall x, f1 x <> Raise RecursionError -> f2 x = f1 x) ->
  mapM f1 l <> Raise RecursionError ->
  mapM f2 l = mapM f1 l.
Proof.
  intros Hf. induction l as [| a l IH]; intros Hne; cbn [mapM] in *;
    [reflexivity |].
  apply bind_extends; [apply Hf | | exact Hne].
  intros b Hb Hrest. apply bind_extends; [exact IH | reflexivity | exact Hrest].
Qed.

Lemma get_value_extends (g1 g2 : Getter) (hooks : HookStore)
    (rule : ConfigRule) (config : Config) :
  extends g1 g2 ->
  get_value g1 hooks rule config <> Raise RecursionError ->
  get_value g2 hooks rule config = get_value g1 hooks rule config.
Proof.
  intros Hg. unfold get_value.
  destruct (value rule) as [v | ref | loc]; try reflexivity.
  intros Hne. apply bind_extends; [apply Hg | reflexivity | exact Hne].
Qed.

Lemma per_key_loop_extends (g1 g2 : Getter) (hooks : HookStore)
    (self : Config) (items : list (string * list ConfigRule))
    (acc : list (string * Value)) :
  extends g1 g2 ->
  _take_most_specific_per_key_loop g1 hooks self items acc
  <> Raise RecursionError ->
  _take_most_specific_per_key_loop g2 hooks self items acc
  = _take_most_specific_per_key_loop g1 hooks self items acc.
Proof.
  intros Hg. revert acc.
  induction items as [| [k rules] items IH]; intros acc Hne;
    cbn [_take_most_specific_per_key_loop] in *; [reflexivity |].
  assert (Hres : bind (_take_most_specific_in_list rules)
                      (fun rule => get_value g1 hooks rule self)
                 <> Raise RecursionError ->
                 bind (_take_most_specific_in_list rules)
                      (fun rule => get_value g2 hooks rule self)
                 = bind (_take_most_specific_in_list rules)
                        (fun rule => get_value g1 hooks rule self)).
  { apply bind_extends; [reflexivity |].
    intros rule _. now apply get_value_extends. }
  destruct (bind (_take_most_specific_in_list rules)
                 (fun rule => get_value g1 hooks rule self)) as [v | e] eqn:E.
  - rewrite Hres by discriminate. now apply IH.
  - assert (e <> RecursionError) by (intros ->; now destruct Hne).
    rewrite Hres by congruence.
    destruct e; try congruence; now apply IH.
Qed.

Lemma resolve_key_and_index_extends (g1 g2 : Getter) (hooks : HookStore)
    (self : Config) (k : string) (rules : list ConfigRule) :
  extends g1 g2 ->
  resolve_key_and_index g1 hooks self k rules <> Raise RecursionError ->
  resolve_key_and_index g2 hooks self k rules
  = resolve_key_and_index g1 hooks self k rules.
Proof.
  intros Hg. unfold resolve_key_and_index.
  destruct (split_indexed rules [] false []) as [[nonidx any] iv].
  intros Hne.
  apply bind_extends; [reflexivity | | exact Hne]. intros winner _ Hne1.
  apply bind_extends; [now apply get_value_extends | | exact Hne1].
  intros wv _ Hne2.
  destruct (negb any); [reflexivity |].
  apply bind_extends; [reflexivity | | exact Hne2]. intros iv' _ Hne3.
  apply bind_extends; [reflexivity | | exact Hne3]. intros msfk _ Hne4.
  apply bind_extends; [reflexivity | | exact Hne4]. intros u1 _ Hne5.
  apply bind_extends; [reflexivity | | exact Hne5]. intros u2 _ Hne6.
  apply bind_extends; [| reflexivity | exact Hne6].
  apply mapM_extends. intros i.
  destruct (dict_get Nat.eqb msfk i); [| reflexivity].
  now apply get_value_extends.
Qed.

Lemma per_key_and_index_loop_extends (g1 g2 : Getter) (hooks : HookStore)
    (self : Config) (items : list (string * list ConfigRule))
    (acc : list (string * Value)) :
  extends g1 g2 ->
  _take_most_specific_per_key_and_index_loop g1 hooks self items acc
  <> Raise RecursionError ->
  _take_most_specific_per_key_and_index_loop g2 hooks self items acc
  = _take_most_specific_per_key_and_index_loop g1 hooks self items acc.
Proof.
  intros Hg. revert acc.
  induction items as [| [k rules] items IH]; intros acc Hne;
    cbn [_take_most_specific_per_key_and_index_loop] in *; [reflexivity |].
  apply bind_extends; [now apply resolve_key_and_index_extends | | exact Hne].
  intros v _. apply IH.
Qed.

Lemma get_body_extends (g1 g2 : Getter) (hooks : HookStore) :
  extends g1 g2 -> extends (get_body g1 hooks) (get_body g2 hooks).
Proof.
  intros Hg c s d rd Hne. unfold get_body in *.
  apply bind_extends; [| reflexivity | exact Hne].
  unfold get_most_specific.
  destruct (negb (is_IndexSelector (snd (pop (_context c ++ s))))).
  - now apply per_key_and_index_loop_extends.
  - now apply per_key_loop_extends.
Qed.

Lemma get_step_extends (fuel : nat) (hooks : HookStore) :
  extends (get fuel hooks) (get (S fuel) hooks).
Proof.
  induction fuel as [| fuel IH].
  - intros c s d rd Hne. now elim Hne.
  - change (get (S (S fuel)) hooks) with (get_body (get (S fuel) hooks) hooks).
    change (get (S fuel) hooks) with (get_body (get fuel hooks) hooks) at 2 3.
    now apply get_body_extends.
Qed.

(** X21. Raising the recursion limit never changes an answer: whatever
    [Config.get] returns or raises at some depth, other than
    [RecursionError], it returns or raises at every greater depth. *)
Theorem get_stable_above_recursion_limit
    (fuel more : nat) (hooks : HookStore) (self : Config)
    (selectors : Selector) (default_arg : option Value)
    (return_dict_if_multiple : bool) :
  get fuel hooks self selectors default_arg return_dict_if_multiple
  <> Raise RecursionError ->
  get (fuel + more) hooks self selectors default_arg return_dict_if_multiple
  = get fuel hooks self selectors default_arg return_dict_if_multiple.
Proof.
  intros Hne. induction more as [| more IH].
  - now rewrite Nat.add_0_r.
  - rewrite Nat.add_succ_r, <- IH.
    apply get_step_extends. now rewrite IH.
Qed.
End MoreProperties.

(* ================================================================== *)
(** ** The theorems at the example configurations *)

Import Reference Examples.

Lemma C1_witness :
  get 1 no_hooks normal_then_default [name "a"; name "b"] None false
  = Ok (VInt 1)
  /\ get 1 no_hooks default_then_normal [name "a"; name "b"] None false
     = Ok (VInt 1).
Proof.
  split.
  - apply (@C1_normal_rule_beats_default contract 0 no_hooks
             normal_then_default [name "a"; name "b"] None false
             normal_rule default_rule (VInt 1)); try reflexivity.
    + left; reflexivity.
    + right; split; reflexivity.
  - apply (@C1_normal_rule_beats_default contract 0 no_hooks
             default_then_normal [name "a"; name "b"] None false
             normal_rule default_rule (VInt 1)); try reflexivity.
    + right; reflexivity.
    + right; split; reflexivity.
Defined.

Lemma C2_witness :
  get 1 no_hooks set_twice [name "a"; name "b"] None false = Ok (VInt 3).
Proof.
  apply (@C2_later_rule_wins_tie contract 0 no_hooks set_twice
           [name "a"; name "b"] None false normal_rule later_rule (VInt 3));
    try reflexivity.
  right; split; reflexivity.
Defined.

Lemma C5_witness :
  value ref_rule = RefValue (mkRef [name "x"; name "y"] add_one)
  /\ get_value (get 1 no_hooks) no_hooks ref_rule ref_config = Ok (VInt 101).
Proof.
  split; [reflexivity |].
  rewrite (proj1 (@C5_reference_resolution contract 0 no_hooks ref_rule
                    (mkRef [name "x"; name "y"] add_one) ref_config
                    eq_refl)).
  reflexivity.
Defined.

Lemma C6_witness :
  get 1 no_hooks two_keys_config [name "a"; at_index "b" 0] None true
  = Ok (VDict [("_", VInt 1); ("b", VInt 2)])
  /\ get 1 no_hooks two_keys_config [name "a"; at_index "b" 0] None false
     = Raise (ValueError
                (MultipleKeysMatch [name "a"; at_index "b" 0] ["_"; "b"])).
Proof.
  pose proof (@C6_get_outcomes contract 0 no_hooks two_keys_config
                [name "a"; at_index "b" 0]
                [("_", VInt 1); ("b", VInt 2)] eq_refl) as [_ [_ Hmany]].
  destruct (Hmany (Nat.lt_succ_diag_r 1)) as [Hdict Hraise].
  split; [apply Hdict | apply Hraise].
Defined.

Lemma C7_witness :
  ForwardHook_value (ForwardHook_init first_dimension true)
  = Raise (ValueError HookNotRun)
  /\ ForwardHook_value
       (trigger_all
          (fst (ForwardHook_call (ForwardHook_init first_dimension true)
                                 (VList [VInt 5; VInt 3])))
          [VList [VInt 9]; VNone])
     = Ok (VInt 5).
Proof.
  pose proof (@C7_hook_gating (ForwardHook_init first_dimension true)
                (VList [VInt 5; VInt 3]) (VInt 5) [VList [VInt 9]; VNone]
                eq_refl eq_refl eq_refl) as [Hbefore [_ [_ [_ [_ Hafter]]]]].
  split; [exact Hbefore | exact Hafter].
Defined.

Lemma C8_witness :
  exists receiver returned,
    populate layers_context [name "x"] naturals None
    = Ok (receiver, returned, [UnknownGeneratorLength])
    /\ List.length (_rules receiver) = 256.
Proof.
  destruct (@C8_populate_unknown_length_caps_at_256 contract layers_context
              [name "x"] naturals)
    as [a [values [receiver [returned [_ [Hpop [_ [_ [Hlen _]]]]]]]]].
  - discriminate.
  - reflexivity.
  - reflexivity.
  - intros i _. discriminate.
  - exists receiver, returned. split; [exact Hpop | exact Hlen].
Defined.

Lemma C10_witness :
  get 1 no_hooks (fst (merge c1 [name "other"] c2 false false))
      [name "other"; name "b"] None false
  = Ok (VInt 2)
  /\ fst (merge c1 [name "other"] c2 false false) <> c1.
Proof.
  pose proof (@C10_merge_mutates_receiver contract 0 no_hooks c1 c2
                [name "other"] [name "other"; name "b"] false
                (ConfigRule_init NoneSelector [name "b"] (Literal (VInt 2)))
                (VInt 2) None false) as Hmerge.
  cbv zeta in Hmerge.
  destruct Hmerge as [_ [_ [_ [_ [_ [_ [Hchanged Hget]]]]]]].
  - left; reflexivity.
  - reflexivity.
  - right; reflexivity.
  - reflexivity.
  - split; [exact Hget | exact Hchanged].
Defined.

Lemma C9_witness :
  exists missing,
    resolve_key_and_index (get 0 no_hooks) no_hooks gap_config "layers"
                          [layers_0_rule; layers_2_rule]
    = Raise (AssertionError (MissingIndices missing "layers"))
    /\ In 1 missing.
Proof.
  destruct (@C9_gap_in_indices_fails contract (get 0 no_hooks) no_hooks
              gap_config "layers" [layers_0_rule; layers_2_rule]
              least_specific_rule (VList []) 1 2
              eq_refl eq_refl eq_refl eq_refl eq_refl (Nat.lt_succ_diag_r 1))
    as [[missing [Hraise [Hin _]]] _].
  exists missing. split; [exact Hraise | exact Hin].
Defined.

Lemma C4_witness :
  get 1 no_hooks blocks_config [name "blocks"] None false
  = Ok (VList [VInt 10; VInt 99; VInt 12]).
Proof.
  rewrite (@C4_broadcast_on_non_indexed_path contract 0 no_hooks blocks_config
             [name "blocks"] None false "blocks"
             [blocks_1_rule; blocks_rule] blocks_rule
             (VList [VInt 10; VInt 11; VInt 12]) 2).
  - reflexivity.
  - reflexivity.
  - reflexivity.
  - repeat constructor.
  - reflexivity.
  - reflexivity.
  - reflexivity.
  - reflexivity.
  - intros [| [| [| i]]]; cbn; split; intros; try reflexivity; try lia;
      discriminate.
Defined.

(** On a path that ends in an index selector [Config.get] takes the
    single most specific rule of the key and returns its value whole:
    with a rule for position 1 and a later rule of the same specificity
    for every position, position 1 of the result is the element of the
    sequence, not the value of the rule for position 1. *)
Lemma C4_counterexample :
  is_IndexSelector
    (snd (pop (_context blocks_config ++ [at_index "blocks" 1]))) = true
  /\ _get_all_matching_rules blocks_config [at_index "blocks" 1] true false
     = [blocks_1_rule; blocks_rule]
  /\ get 1 no_hooks blocks_config [at_index "blocks" 1] None false
     = Ok (VList [VInt 10; VInt 11; VInt 12])
  /\ broadcast_by_position (get 0 no_hooks) no_hooks blocks_config
                           [blocks_1_rule; blocks_rule] 2
     = Ok (VList [VInt 10; VInt 99; VInt 12])
  /\ get 1 no_hooks blocks_config [at_index "blocks" 1] None false
     <> broadcast_by_position (get 0 no_hooks) no_hooks blocks_config
                              [blocks_1_rule; blocks_rule] 2.
Proof.
  repeat split; try reflexivity.
  intros Heq. vm_compute in Heq. discriminate.
Qed.

(** Two rules for position 0 of [b], a normal one and a default one,
    looked up at [b]: both match (the index of a head is left out of
    the matching on a path that does not end in an index), the
    indexed resolution collects the positions, and [Config.get]
    returns the list [[1]], not the value 1 of the normal rule. *)
Lemma C1_counterexample :
  specificity MoreExamples.b_0_rule = 1%Z
  /\ specificity MoreExamples.b_0_default_rule = 0%Z
  /\ selector MoreExamples.b_0_rule = selector MoreExamples.b_0_default_rule
  /\ key MoreExamples.b_0_rule = key MoreExamples.b_0_default_rule
  /\ _get_all_matching_rules MoreExamples.b_0_with_default [name "b"] true
       (negb (is_IndexSelector
                (snd (pop (_context MoreExamples.b_0_with_default
                             ++ [name "b"])))))
     = [MoreExamples.b_0_rule; MoreExamples.b_0_default_rule]
  /\ get_value (get 0 no_hooks) no_hooks MoreExamples.b_0_rule
               MoreExamples.b_0_with_default
     = Ok (VInt 1)
  /\ get 1 no_hooks MoreExamples.b_0_with_default [name "b"] None false
     = Ok (VList [VInt 1])
  /\ get 1 no_hooks MoreExamples.b_0_with_default [name "b"] None false
     <> Ok (VInt 1).
Proof.
  repeat split; try reflexivity.
  intros Heq. vm_compute in Heq. discriminate.
Qed.

(** Two normal rules for position 0 of [b], looked up at [b]:
    [Config.get] returns the list [[3]], not the value 3 of the later
    rule. *)
Lemma C2_counterexample :
  specificity MoreExamples.b_0_rule = specificity MoreExamples.b_0_later_rule
  /\ selector MoreExamples.b_0_rule = selector MoreExamples.b_0_later_rule
  /\ key MoreExamples.b_0_rule = key MoreExamples.b_0_later_rule
  /\ _get_all_matching_rules MoreExamples.b_0_twice [name "b"] true
       (negb (is_IndexSelector
                (snd (pop (_context MoreExamples.b_0_twice ++ [name "b"])))))
     = [MoreExamples.b_0_rule; MoreExamples.b_0_later_rule]
  /\ get_value (get 0 no_hooks) no_hooks MoreExamples.b_0_later_rule
               MoreExamples.b_0_twice
     = Ok (VInt 3)
  /\ get 1 no_hooks MoreExamples.b_0_twice [name "b"] None false
     = Ok (VList [VInt 3])
  /\ get 1 no_hooks MoreExamples.b_0_twice [name "b"] None false
     <> Ok (VInt 3).
Proof.
  repeat split; try reflexivity.
  intros Heq. vm_compute in Heq. discriminate.
Qed.

(* ================================================================== *)
(** ** The examples of the documentation, evaluated *)

(** [Config().a.b.c(10).d.e.f(20)]: [get("a.b.c")] is 10 and
    [get("d.e.f")] is 20. *)
Example round_trip :
  let config :=
    unwrap (assign (assign (Ok Config_new) ["a"; "b"; "c"] (Literal (VInt 10)))
                   ["d"; "e"; "f"] (Literal (VInt 20))) in
  get 1 no_hooks config [name "a"; name "b"; name "c"] None false
  = Ok (VInt 10)
  /\ get 1 no_hooks config [name "d"; name "e"; name "f"] None false
     = Ok (VInt 20).
Proof. split; reflexivity. Qed.

(** The reference example, for every recursion limit of at least 2. *)
Example ref_config_get (n : nat) :
  get (2 + n) no_hooks ref_config [name "a"; name "b"] None false
  = Ok (VInt 101).
Proof. reflexivity. Qed.

(** With the interpreter out of depth the same lookup raises. *)
Example ref_config_get_shallow :
  get 1 no_hooks ref_config [name "a"; name "b"] None false
  = Raise RecursionError.
Proof. reflexivity. Qed.

(** A path nothing was set for, with and without a default. *)
Example unset_path :
  get 1 no_hooks c1 [name "zzz"] None false
  = Raise (ValueError (NoKeysMatch [name "zzz"]))
  /\ get 1 no_hooks c1 [name "zzz"] (Some (VInt 0)) false = Ok (VInt 0).
Proof. split; reflexivity. Qed.

(** The merge example: the merged configuration, and the receiver
    itself, resolve [other.b]; before the merge the receiver did not. *)
Example merge_example :
  let receiver := fst (merge c1 [name "other"] c2 false false) in
  let merged := snd (merge c1 [name "other"] c2 false false) in
  get 1 no_hooks merged [name "a"] None false = Ok (VInt 1)
  /\ get 1 no_hooks merged [name "other"; name "b"] None false = Ok (VInt 2)
  /\ get 1 no_hooks receiver [name "other"; name "b"] None false = Ok (VInt 2)
  /\ get 1 no_hooks receiver [name "a"] None false = Ok (VInt 1)
  /\ get 1 no_hooks c1 [name "other"; name "b"] None false
     = Raise (ValueError (NoKeysMatch [name "other"; name "b"])).
Proof. repeat split; reflexivity. Qed.

(** A default rule merged without the default flag counts as a normal
    rule: registered after a normal rule for the same path, it wins the
    tie.  Merged with the flag it loses to the normal rule. *)
Example merged_default_rule_wins :
  get 1 no_hooks
      (fst (merge other_b_config [name "other"] default_b_config false false))
      [name "other"; name "b"] None false
  = Ok (VInt 2)
  /\ get 1 no_hooks
         (fst (merge other_b_config [name "other"] default_b_config true false))
         [name "other"; name "b"] None false
     = Ok (VInt 1).
Proof. split; reflexivity. Qed.

(** Rules for positions 0 and 2 only: the lookup of the whole key fails
    on the assertion. *)
Example gap_config_get :
  get 1 no_hooks gap_config [name "layers"] None false
  = Raise (AssertionError (MissingIndices [1] "layers")).
Proof. reflexivity. Qed.

(* ================================================================== *)
(** ** The further properties at the example configurations *)

Import MoreExamples.

Lemma take_most_specific_is_last_maximum_witness :
  _take_most_specific_in_list
    [default_rule; normal_rule; later_rule; default_rule]
  = Ok later_rule.
Proof.
  apply (proj2 (proj2 (proj2 take_most_specific_is_last_maximum))
           [default_rule; normal_rule] later_rule [default_rule]).
  - repeat constructor; cbn; lia.
  - repeat constructor.
Defined.

Lemma get_returns_last_most_specific_witness :
  get 1 no_hooks cascade_config [name "a"; name "b"] None false
  = Ok (VInt 3).
Proof.
  apply (@get_returns_last_most_specific contract 0 no_hooks cascade_config
           [name "a"; name "b"] None false
           [default_rule; normal_rule] [default_rule] later_rule (VInt 3)).
  - reflexivity.
  - repeat constructor.
  - repeat constructor; cbn; lia.
  - repeat constructor.
  - right. repeat constructor.
  - reflexivity.
Defined.

Lemma get_without_match_witness :
  (forall d, get 1 no_hooks c1 [name "zzz"] (Some d) false = Ok d)
  /\ get 1 no_hooks c1 [name "zzz"] None false
     = Raise (ValueError (NoKeysMatch [name "zzz"])).
Proof.
  apply (@get_without_match contract 0 no_hooks c1 [name "zzz"] false).
  reflexivity.
Defined.

Lemma root_parameters_and_module_witness :
  _get_all_matching_rules hook_config NoneSelector false false
  = _rules hook_config
  /\ get_module 1 dimension_hooks hook_config
     = Raise (ValueError (NoKeysMatch NoneSelector)).
Proof.
  destruct (@root_parameters_and_module contract 0 dimension_hooks hook_config
              eq_refl) as [Hrules Hmodule].
  split; [| exact Hmodule].
  rewrite Hrules. reflexivity.
Defined.

Lemma get_parameters_skips_unready_witness :
  get_parameters 1 dimension_hooks hook_config
  = Ok [("out_features", VInt 8)].
Proof.
  rewrite (proj2 (@get_parameters_skips_unready contract 1 dimension_hooks
                    hook_config)).
  - reflexivity.
  - intros k rules Hin.
    destruct Hin as [Heq | [Heq | []]]; inversion Heq; subst; exact I.
Defined.

Lemma get_unready_rule_by_path_kind_witness :
  get 1 dimension_hooks hook_config [at_index "in_features" 0]
      (Some (VInt 0)) false
  = Ok (VInt 0)
  /\ get 1 dimension_hooks hook_config [name "in_features"]
         (Some (VInt 0)) false
     = Raise (ValueError HookNotRun).
Proof.
  assert (Hkeys : Forall (fun r => key r = "in_features") [hook_rule])
    by repeat constructor.
  assert (Herr : ValueError HookNotRun = TypeError
                 \/ exists m, ValueError HookNotRun = ValueError m)
    by (right; eexists; reflexivity).
  split.
  - apply (proj1 (@get_unready_rule_by_path_kind contract 0 dimension_hooks
                    hook_config [at_index "in_features" 0] (Some (VInt 0))
                    false "in_features" [hook_rule] hook_rule
                    (ValueError HookNotRun)
                    eq_refl Hkeys eq_refl eq_refl Herr)).
    reflexivity.
  - apply (proj2 (@get_unready_rule_by_path_kind contract 0 dimension_hooks
                    hook_config [name "in_features"] (Some (VInt 0))
                    false "in_features" [hook_rule] hook_rule
                    (ValueError HookNotRun)
                    eq_refl Hkeys eq_refl eq_refl Herr)).
    + reflexivity.
    + repeat constructor.
Defined.


Lemma default_keeps_normal_rule_witness :
  set_default ab_config [name "a"; name "b"] (Literal (VInt 2))
  = Ok normal_then_default
  /\ get 1 no_hooks normal_then_default [name "a"; name "b"] None false
     = Ok (VInt 1).
Proof.
  split; [reflexivity |].
  apply (@default_keeps_normal_rule contract 0 no_hooks ab_config
           normal_then_default [name "a"; name "b"] (Literal (VInt 2))
           default_rule normal_rule (VInt 1) None false).
  - reflexivity.
  - reflexivity.
  - reflexivity.
  - cbn; lia.
  - repeat constructor.
  - right. split; [reflexivity | repeat constructor].
  - reflexivity.
Defined.

Lemma chained_assignment_witness :
  exists chain after,
    attributes Config_new ["a"; "b"; "c"] = Some chain
    /\ call chain (OneArg (Literal (VInt 10))) [] = Ok after
    /\ _rules after
       = [ConfigRule_init [name "a"; name "b"] [name "c"] (Literal (VInt 10))]
    /\ get 1 no_hooks after [name "a"; name "b"; name "c"] None false
       = Ok (VInt 10).
Proof.
  destruct (@chained_assignment contract 0 no_hooks Config_new
              ["a"; "b"; "c"] (VInt 10) None false)
    as [chain [after [rule [Hchain [Hcall [_ [_ [Hrules [_ [_ [_ [_ Hget]]]]]]]]]]]].
  - discriminate.
  - repeat constructor.
  - assert (Hc : Some (Config_init [] [] [name "a"; name "b"; name "c"])
                 = Some chain)
      by exact Hchain.
    injection Hc as <-.
    assert (Hafter : after
                     = Config_init
                         [ConfigRule_init [name "a"; name "b"] [name "c"]
                                          (Literal (VInt 10))]
                         [] NoneSelector)
      by (apply (f_equal unwrap) in Hcall; symmetry; exact Hcall).
    subst after.
    assert (Hrule : rule = ConfigRule_init [name "a"; name "b"] [name "c"]
                                           (Literal (VInt 10)))
      by (cbn in Hrules; congruence).
    subst rule.
    eexists. eexists. split; [exact Hchain |].
    split; [exact Hcall |]. split; [reflexivity |].
    apply Hget.
    + reflexivity.
    + constructor.
Defined.

Lemma merge_position_decides_ties_witness :
  get 1 no_hooks
      (fst (merge other_b_config [name "other"] default_b_config false false))
      [name "other"; name "b"] None false
  = Ok (VInt 2)
  /\ get 1 no_hooks
         (fst (merge other_b_config [name "other"] default_b_config false true))
         [name "other"; name "b"] None false
     = Ok (VInt 1).
Proof.
  pose proof (@merge_position_decides_ties contract 0 no_hooks other_b_config
                default_b_config [name "other"] [name "other"; name "b"]
                (ConfigRule_init [name "other"] [name "b"] (Literal (VInt 1)))
                (ConfigRuleWrapper_init [name "other"] plain_default_rule false)
                (VInt 1) (VInt 2) None false) as Hmerge.
  cbv zeta in Hmerge.
  apply Hmerge.
  - reflexivity.
  - reflexivity.
  - reflexivity.
  - reflexivity.
  - right; split; reflexivity.
  - reflexivity.
  - reflexivity.
Defined.

Lemma merge_as_default_yields_witness :
  get 1 no_hooks
      (fst (merge other_b_config [name "other"] c2 true false))
      [name "other"; name "b"] None false
  = Ok (VInt 1)
  /\ get 1 no_hooks
         (fst (merge other_b_config [name "other"] c2 true true))
         [name "other"; name "b"] None false
     = Ok (VInt 1).
Proof.
  assert (Hboth : forall prepend,
             get 1 no_hooks
                 (fst (merge other_b_config [name "other"] c2 true prepend))
                 [name "other"; name "b"] None false
             = Ok (VInt 1)).
  { intros prepend.
    pose proof (@merge_as_default_yields contract 0 no_hooks other_b_config c2
                  [name "other"] [name "other"; name "b"] prepend
                  (ConfigRule_init [name "other"] [name "b"]
                                   (Literal (VInt 1)))
                  (VInt 1) None false) as Hmerge.
    cbv zeta in Hmerge.
    apply Hmerge.
    - reflexivity.
    - cbn; lia.
    - repeat constructor.
    - right. repeat constructor.
    - reflexivity. }
  split; apply Hboth.
Defined.

Lemma populate_bounded_witness :
  exists receiver returned,
    populate layers_context [name "x"] naturals (Some 3)
    = Ok (receiver, returned, [])
    /\ List.length (_rules receiver) = 3
    /\ nth_error (map selector (_rules receiver)) 2
       = Some [at_index "layers" 2].
Proof.
  destruct (@populate_bounded contract layers_context [name "x"] naturals
              (Some 3))
    as [a [new_rules [receiver [returned [warnings
         [Hlast [Hpop [Hrules [_ [_ [_ [_ [Hlen [Heach Hwarn]]]]]]]]]]]]]].
  - discriminate.
  - reflexivity.
  - subst warnings. exists receiver, returned.
    assert (Hlength : List.length new_rules = 3)
      by (apply Hlen; intros i _; discriminate).
    split; [exact Hpop |]. rewrite Hrules. split; [exact Hlength |].
    cbn [layers_context _rules Config_init app].
    destruct new_rules as [| r0 [| r1 [| r2 rest]]]; try discriminate.
    destruct (Heach 2 r2 eq_refl) as [Hselector _].
    cbn [map nth_error]. rewrite Hselector.
    assert (Ha : [Plain (ClassSelector "layers")] = [Plain a])
      by exact Hlast.
    injection Ha as <-. reflexivity.
Defined.

Lemma populate_length_zero_witness :
  exists receiver returned warnings,
    populate layers_context [name "x"] naturals None
    = Ok (receiver, returned, warnings)
    /\ populate layers_context [name "x"] naturals (Some 0)
       = Ok (receiver, returned, []).
Proof.
  apply (@populate_length_zero contract layers_context [name "x"] naturals).
  - discriminate.
  - reflexivity.
Defined.

Lemma populate_indexed_context_witness :
  exists receiver returned,
    populate sliced_context [name "x"]
             (GenCallable (fun i => Literal (VInt (Z.of_nat i)))) (Some 4)
    = Ok (receiver, returned, [])
    /\ _rules receiver
       = [ConfigRule_init [at_index "layers" 0] [name "x"] (Literal (VInt 0));
          ConfigRule_init [at_index "layers" 1] [name "x"] (Literal (VInt 1))].
Proof.
  destruct (@populate_indexed_context contract sliced_context [name "x"]
              (fun i => Literal (VInt (Z.of_nat i))) (Some 4) None
              NoneSelector (ClassSelector "layers")
              (IndexSlice (Some 0) (Some 2)) eq_refl)
    as [receiver [returned [Hpop [Hrules _]]]].
  exists receiver, returned. split; [exact Hpop |].
  rewrite Hrules. reflexivity.
Defined.

Lemma add_ref_then_get_ref_witness :
  get_ref (fst (add_ref c1 "encoder" c2)) "encoder" = Ok c2
  /\ get_ref (fst (add_ref c1 "encoder" c2)) "decoder" = Raise KeyError
  /\ snd (add_ref (fst (add_ref c1 "encoder" c2)) "encoder" c1)
     = [RefOverwrite "encoder"].
Proof.
  split; [apply (add_ref_then_get_ref c1 c2 "encoder" "decoder") |].
  split.
  - rewrite (proj1 (proj2 (add_ref_then_get_ref c1 c2 "encoder" "decoder")))
      by discriminate.
    apply (add_ref_then_get_ref c1 c2 "decoder" "encoder").
    intros [].
  - rewrite (proj1 (proj2 (proj2 (proj2 (proj2
               (add_ref_then_get_ref (fst (add_ref c1 "encoder" c2)) c1
                                     "encoder" "decoder")))))).
    reflexivity.
Defined.

Lemma run_all_forward_hooks_runs_them_witness :
  snd (run_all_forward_hooks hook_config (VList [VInt 5; VInt 3])
                             dimension_hooks)
  = Ok tt
  /\ exists v,
      get_value (get 0 no_hooks)
                (fst (run_all_forward_hooks hook_config
                                            (VList [VInt 5; VInt 3])
                                            dimension_hooks))
                hook_rule hook_config
      = Ok v.
Proof.
  destruct (@run_all_forward_hooks_runs_them contract (get 0 no_hooks)
              hook_config (VList [VInt 5; VInt 3]) dimension_hooks)
    as [Hend [Hrun _]].
  - intros l _. exists (VInt 5). reflexivity.
  - split; [exact Hend |]. apply Hrun. left. reflexivity.
Defined.

Lemma hook_without_first_only_reruns_witness :
  ForwardHook_value
    (trigger_all (ForwardHook_init first_dimension false)
                 ([VList [VInt 9]; VNone] ++ [VList [VInt 5; VInt 3]]))
  = Ok (VInt 5).
Proof.
  apply (@hook_without_first_only_reruns
           (ForwardHook_init first_dimension false) [VList [VInt 9]; VNone]
           (VList [VInt 5; VInt 3]) (VInt 5)); reflexivity.
Defined.

Lemma get_collects_indexed_rules_witness :
  get 1 no_hooks indexed_only_config [name "layers"] None false
  = Ok (VList [VInt 5; VInt 6]).
Proof.
  rewrite (@get_collects_indexed_rules contract 0 no_hooks indexed_only_config
             [name "layers"] None false "layers"
             [layers_0_rule; layers_1_rule] 1).
  - reflexivity.
  - reflexivity.
  - reflexivity.
  - discriminate.
  - repeat constructor.
  - repeat constructor.
  - intros [| [| i]]; cbn; split; intros Hi; try lia; try discriminate.
    now elim Hi.
Defined.

Lemma get_stable_above_recursion_limit_witness :
  get (2 + 5) no_hooks ref_config [name "a"; name "b"] None false
  = Ok (VInt 101).
Proof.
  rewrite (@get_stable_above_recursion_limit contract 2 5 no_hooks ref_config
             [name "a"; name "b"] None false).
  - reflexivity.
  - intros Hout. vm_compute in Hout. discriminate.
Defined.
